(** * Projet-ARME: primal/dual formulation of the armament procurement LP

    Shallow embedding of
      - Resolution/question.py            (PrimalProblem, DualProblem)
      - Resolution/app.py                 (display_primal_results,
                                           display_dual_results,
                                           study_price_variation, main)
      - Resolution/graphique.py           (plot_3d_graph)
      - optimisation_militaire/generalisation.py
                                          (GeneralizedPrimalProblem, GeneralizedDualProblem)
      - optimisation_militaire/app.py     (display_lot_table,
                                           display_primal_solution,
                                           display_dual_solution,
                                           display_comparative_table,
                                           study_sensitivity, main)
      - optimisation_militaire/interface.py
                                          (ask_for_list, main)

    Numbers.  Python ints and floats are idealised as rationals [Q]; unary
    minus is exact on both, so every statement about negation carries over
    as it stands.  The rounding of the numerical backend is outside the
    model.

    External solver.  [scipy.optimize.linprog] is not part of the
    repository: it is a parameter [linprog] of the development, a function
    from (c, A_ub, b_ub) to either a raised exception or an
    [OptimizeResult]. *)

From Stdlib Require Import QArith Qabs Qround Lqa Lia.
From stdpp Require Import base option list strings pretty gmap.

(** ** Python runtime: exceptions, standard output *)

Module Py.

Inductive exn : Type := TypeError | IndexError | ValueError.

Inductive result (A : Type) : Type :=
| Ok (a : A)
| Raise (e : exn).
Arguments Ok {A} a.
Arguments Raise {A} e.

(** The lines handed to [print], oldest first. *)
Definition stdout : Type := list string.

(** A computation that may print and may raise. *)
Definition M (A : Type) : Type := stdout -> result A * stdout.

Definition ret {A} (a : A) : M A := fun out => (Ok a, out).

Definition bind {A B} (m : M A) (k : A -> M B) : M B :=
  fun out =>
    match m out with
    | (Ok a, out') => k a out'
    | (Raise e, out') => (Raise e, out')
    end.

Definition print (s : string) : M unit := fun out => (Ok tt, out ++ [s]).

Definition raise {A} (e : exn) : M A := fun out => (Raise e, out).

Definition lift {A} (r : result A) : M A := fun out => (r, out).

(** [for v in l: body], threading the loop-carried state. *)
Fixpoint for_each {A S} (l : list A) (body : A -> S -> M S) (s : S) : M S :=
  match l with
  | [] => ret s
  | v :: l' => bind (body v s) (for_each l' body)
  end.

(** [list(range(lo, hi))] *)
Definition range (lo hi : Z) : list Z :=
  map (fun k => (lo + Z.of_nat k)%Z) (seq 0 (Z.to_nat (hi - lo))).

(** Iterating over / indexing a value that may be [None]. *)
Definition not_none {A} (o : option A) : M A :=
  match o with
  | Some a => ret a
  | None => raise TypeError
  end.

(** [round(x, ndigits)]: nearest multiple of 10^-ndigits, ties to even. *)
Definition round_half_even (x : Q) : Z :=
  let n := Qnum x in
  let d := Zpos (Qden x) in
  let q := (n / d)%Z in
  match (2 * (n mod d) ?= d)%Z with
  | Lt => q
  | Gt => (q + 1)%Z
  | Eq => if Z.even q then q else (q + 1)%Z
  end.

Definition round (x : Q) (ndigits : nat) : Q :=
  let s := inject_Z (10 ^ Z.of_nat ndigits) in
  (inject_Z (round_half_even (x * s)) / s)%Q.

End Py.

Notation "'let*' x ':=' m 'in' k" := (Py.bind m (fun x => k))
  (at level 10, x pattern, m at level 100, k at level 200).

(** ** numpy and scipy: the parts the program calls *)

Module Np.

(** A nested list is accepted as a 2-d array when all rows have the
    length of the first one. *)
Definition rectangular (A : list (list Q)) : bool :=
  match A with
  | [] => true
  | r :: rs => forallb (fun r' => Nat.eqb (length r') (length r)) rs
  end.

Definition ncols (A : list (list Q)) : nat :=
  match A with
  | [] => 0
  | r :: _ => length r
  end.

Definition column (j : nat) (A : list (list Q)) : list Q :=
  map (fun row => nth j row 0%Q) A.

(** [np.transpose(A)], read back row by row.  A ragged nested list is
    rejected with [ValueError] (inhomogeneous shape). *)
Definition transpose (A : list (list Q)) : Py.result (list (list Q)) :=
  if rectangular A
  then Py.Ok (map (fun j => column j A) (seq 0 (ncols A)))
  else Py.Raise Py.ValueError.

End Np.

Module Scipy.

(** The fields of [OptimizeResult] the program reads. *)
Record OptimizeResult : Type := {
  success : bool;
  x : list Q;
  fun_ : Q
}.

Definition linprog_t : Type :=
  list Q -> list (list Q) -> list Q -> Py.result OptimizeResult.

End Scipy.

(** ** Resolution/question.py *)

Module Question.

Module PrimalProblem.

Record t : Type := {
  costs : list Q;
  constraints : list (list Q);
  requirements : list Q
}.

(** [__init__] *)
Definition init (costs_ : list Q) (constraints_ : list (list Q))
    (requirements_ : list Q) : t :=
  {| costs := costs_;
     constraints := map (fun row => map (fun c => (- c)%Q) row) constraints_;
     requirements := map (fun r => (- r)%Q) requirements_ |}.

Definition solve (linprog : Scipy.linprog_t) (self : t)
    : Py.M (option (list Q) * option Q) :=
  let* result := Py.lift (linprog (costs self) (constraints self) (requirements self)) in
  if Scipy.success result
  then Py.ret (Some (Scipy.x result), Some (Scipy.fun_ result))
  else let* _ := Py.print "Pas de solution optimale." in
       Py.ret (None, None).

End PrimalProblem.

Module DualProblem.

Record t : Type := {
  costs : list Q;
  constraints : list (list Q);
  requirements : list Q
}.

(** [__init__]; [self.constraints] is the array [np.transpose] returns. *)
Definition init (costs_ : list Q) (constraints_ : list (list Q))
    (requirements_ : list Q) : Py.result t :=
  match Np.transpose constraints_ with
  | Py.Ok At =>
      Py.Ok {| costs := map (fun r => (- r)%Q) requirements_;
               constraints := At;
               requirements := costs_ |}
  | Py.Raise e => Py.Raise e
  end.

Definition solve (linprog : Scipy.linprog_t) (self : t)
    : Py.M (option (list Q) * option Q) :=
  let* result := Py.lift (linprog (costs self) (constraints self) (requirements self)) in
  if Scipy.success result
  then Py.ret (Some (Scipy.x result), Some (- Scipy.fun_ result)%Q)
  else let* _ := Py.print "Pas de solution optimale pour le dual." in
       Py.ret (None, None).

End DualProblem.

End Question.

(** ** optimisation_militaire/generalisation.py *)

Module Generalisation.

Module GeneralizedPrimalProblem.

Record t : Type := {
  costs : list Q;
  constraints : list (list Q);
  requirements : list Q
}.

Definition init (costs_ : list Q) (constraints_ : list (list Q))
    (requirements_ : list Q) : t :=
  {| costs := costs_;
     constraints := map (fun row => map (fun c => (- c)%Q) row) constraints_;
     requirements := map (fun r => (- r)%Q) requirements_ |}.

Definition solve (linprog : Scipy.linprog_t) (self : t)
    : Py.M (option (list Q) * option Q) :=
  let* result := Py.lift (linprog (costs self) (constraints self) (requirements self)) in
  if Scipy.success result
  then Py.ret (Some (Scipy.x result), Some (Scipy.fun_ result))
  else let* _ := Py.print "Aucune solution optimale trouvée" in
       Py.ret (None, None).

End GeneralizedPrimalProblem.

Module GeneralizedDualProblem.

Record t : Type := {
  costs : list Q;
  constraints : list (list Q);
  requirements : list Q
}.

(** [__init__]; the transposed array is copied back into nested lists. *)
Definition init (costs_ : list Q) (constraints_ : list (list Q))
    (requirements_ : list Q) : Py.result t :=
  let costs' := map (fun r => (- r)%Q) requirements_ in
  match Np.transpose constraints_ with
  | Py.Ok A_dual =>
      Py.Ok {| costs := costs';
               constraints := map (fun row => map (fun v => v) row) A_dual;
               requirements := costs_ |}
  | Py.Raise e => Py.Raise e
  end.

Definition solve (linprog : Scipy.linprog_t) (self : t)
    : Py.M (option (list Q) * option Q) :=
  let* result := Py.lift (linprog (costs self) (constraints self) (requirements self)) in
  if Scipy.success result
  then Py.ret (Some (Scipy.x result), Some (- Scipy.fun_ result)%Q)
  else let* _ := Py.print "Aucune solution optimale trouvée" in
       Py.ret (None, None).

End GeneralizedDualProblem.

End Generalisation.

(** ** Helpers shared by the two scripts *)

Module Builtins.

Definition nl : string := String (Ascii.ascii_of_nat 10) EmptyString.

(** [s * n] on strings *)
Fixpoint str_mul (s : string) (n : nat) : string :=
  match n with
  | O => EmptyString
  | S n' => String.append s (str_mul s n')
  end.

(** [l[i] = v]; an index out of range raises [IndexError]. *)
Definition setitem (l : list Q) (i : nat) (v : Q) : Py.result (list Q) :=
  if Nat.ltb i (length l) then Py.Ok (<[i := v]> l) else Py.Raise Py.IndexError.

(** [zip(a, b)] and [zip(a, b, c)], stopping at the shortest argument. *)
Fixpoint zip2 {A B} (a : list A) (b : list B) : list (A * B) :=
  match a, b with
  | u :: a', v :: b' => (u, v) :: zip2 a' b'
  | _, _ => []
  end.

Fixpoint zip3 {A B C} (a : list A) (b : list B) (c : list C) : list (A * B * C) :=
  match a, b, c with
  | u :: a', v :: b', w :: c' => (u, v, w) :: zip3 a' b' c'
  | _, _, _ => []
  end.

(** Truth value of a number that may be [None]: [v if v else 0]. *)
Definition or_zero (v : option Q) : Q :=
  match v with
  | Some q => if Qeq_bool q 0 then 0%Q else q
  | None => 0%Q
  end.

End Builtins.

(** ** Resolution/app.py

    PrettyTable and matplotlib are collaborators: a table is modelled by the
    rows handed to [add_row] (numbers kept as numbers, not rendered), a plot
    by the arguments of the call. *)

Module ResolutionApp.
Import Question Builtins.

Record DualRow : Type := {
  dr_arme : string;
  dr_price : Q;
  dr_benefit : Q
}.

Definition armes : list string :=
  ["fusils"; "Grenades"; "Chars"; "Mitrailleuses"; "bazookas"].

(** [price * 100000 if arme == "fusils" else price * 200000
     if arme == "Grenades" else 0] *)
Definition benefit (arme : string) (price : Q) : Q :=
  if String.eqb arme "fusils" then (price * 100000)%Q
  else if String.eqb arme "Grenades" then (price * 200000)%Q
  else 0%Q.

Definition dual_row (ap : string * Q) : DualRow :=
  let '(arme, price) := ap in
  {| dr_arme := arme;
     dr_price := Py.round (price * 1000000) 5;
     dr_benefit := Py.round (benefit arme price * 1000000) 4 |}.

(** Returns the table rows and the total shown under the table. *)
Definition display_dual_results (prices : option (list Q)) (profit : option Q)
    : Py.M (list DualRow * Q) :=
  let* _ := Py.print (String.append nl
    "Voici la solution optimale du problème de maximisation du bénéfice de DETAILIN :") in
  let* prices_ := Py.not_none prices in
  let table := map dual_row (zip2 armes prices_) in
  let* profit_ := Py.not_none profit in
  Py.ret (table, Py.round profit_ 4).

Record SweepRow : Type := {
  sr_price : Z;
  sr_cost : Q;
  sr_lots : list Q;
  sr_profit : Q;
  sr_prices : list Q
}.

(** The variables the loop of [study_price_variation] updates. *)
Record SweepState : Type := {
  costs : list Q;
  cost_totals : list (option Q);
  profit_totals : list Q;
  table : list SweepRow
}.

(** The call [plot_sensitivity_graph(price_range, cost_totals, profit_totals)]. *)
Record PlotCall : Type := {
  plot_prices : list Z;
  plot_costs : list (option Q);
  plot_profits : list Q
}.

Definition base_costs : list Q := [10; 12; 15]%Q.
Definition base_constraints : list (list Q) :=
  [ [500; 300; 800]; [1000; 2000; 1500]; [10; 20; 15]; [100; 80; 15]; [80; 120; 200] ]%Q.
Definition base_requirements : list Q := [100000; 200000; 100; 400; 400]%Q.

Section Sweep.
Variable linprog : Scipy.linprog_t.

(** One iteration of [for price in price_range]. *)
Definition sweep_body (constraints : list (list Q)) (requirements : list Q)
    (price : Z) (st : SweepState) : Py.M SweepState :=
  let* costs1 := Py.lift (setitem (costs st) 0 (inject_Z price)) in
  let primal := PrimalProblem.init costs1 constraints requirements in
  let* (lots, cost_total) := PrimalProblem.solve linprog primal in
  let cost_totals1 := cost_totals st ++ [cost_total] in
  let* dual := Py.lift (DualProblem.init costs1 constraints requirements) in
  let* (prices, profit) := DualProblem.solve linprog dual in
  let* profit_ := Py.not_none profit in
  let profit_totals1 := profit_totals st ++ [(profit_ * 1000000)%Q] in
  let* lots_ := Py.not_none lots in
  let* prices_ := Py.not_none prices in
  let* cost_total_ := Py.not_none cost_total in
  let row :=
    {| sr_price := price;
       sr_cost := Py.round (cost_total_ * 1000000) 4;
       sr_lots := map (fun lot => Py.round lot 2) lots_;
       sr_profit := Py.round (profit_ * 1000000) 4;
       sr_prices := map (fun p => Py.round (p * 1000000) 5) prices_ |} in
  Py.ret {| costs := costs1;
            cost_totals := cost_totals1;
            profit_totals := profit_totals1;
            table := table st ++ [row] |}.

Definition study_price_variation : Py.M (list SweepRow * PlotCall) :=
  let price_range := Py.range 1 30 in
  let st0 := {| costs := base_costs; cost_totals := [];
                profit_totals := []; table := [] |} in
  let* st := Py.for_each price_range
               (sweep_body base_constraints base_requirements) st0 in
  Py.ret (table st,
          {| plot_prices := price_range;
             plot_costs := cost_totals st;
             plot_profits := profit_totals st |}).

End Sweep.

End ResolutionApp.

(** ** optimisation_militaire/app.py *)

Module GeneralisationApp.
Import Generalisation Builtins.

Record DualRow : Type := {
  dr_arme : string;
  dr_price : Q;
  dr_profit : Q
}.

Definition banner (title : string) : Py.M unit :=
  let* _ := Py.print (String.append nl (str_mul "=" 110)) in
  let* _ := Py.print title in
  Py.print (String.append (str_mul "=" 110) nl).

(** The loop of [display_dual_solution]: [(table, total_profit)]. *)
Definition dual_step (acc : list DualRow * Q) (apr : string * Q * Q)
    : list DualRow * Q :=
  let '(arme, price, req) := apr in
  let profit := (price * req)%Q in
  (fst acc ++ [ {| dr_arme := arme;
                   dr_price := Py.round price 5;
                   dr_profit := Py.round profit 5 |} ],
   (snd acc + profit)%Q).

Definition display_dual_solution (prices : option (list Q))
    (requirements : list Q) (armes : list string) : Py.M (list DualRow * Q) :=
  let* _ := banner
    "                  QUESTION 2 : Quelle est la solution optimale pour le Fournisseur (maximiser les bénéfices)" in
  let* prices_ := Py.not_none prices in
  Py.ret (fold_left dual_step (zip3 armes prices_ requirements) (nil, 0%Q)).

Record SweepState : Type := {
  cost_totals : list Q;
  profit_totals : list Q
}.

Record PlotCall : Type := {
  plot_prices : list Z;
  plot_costs : list Q;
  plot_profits : list Q
}.

Section Sweep.
Variable linprog : Scipy.linprog_t.

(** One iteration of [for new_price in price_range]. *)
Definition sweep_body (costs : list Q) (constraints : list (list Q))
    (requirements : list Q) (new_price : Z) (st : SweepState) : Py.M SweepState :=
  let* modified_costs := Py.lift (setitem costs 0 (inject_Z new_price)) in
  let primal := GeneralizedPrimalProblem.init modified_costs constraints requirements in
  let* (lots, total_cost) := GeneralizedPrimalProblem.solve linprog primal in
  let cost_totals1 := cost_totals st ++ [or_zero total_cost] in
  let* dual := Py.lift (GeneralizedDualProblem.init modified_costs constraints requirements) in
  let* (prices, profit) := GeneralizedDualProblem.solve linprog dual in
  Py.ret {| cost_totals := cost_totals1;
            profit_totals := profit_totals st ++ [or_zero profit] |}.

Definition study_sensitivity (costs : list Q) (constraints : list (list Q))
    (requirements : list Q) : Py.M PlotCall :=
  let* _ := banner
    "                   QUESTION 3 (Suite) : Étude de sensibilité – Variation du prix du Lot 1" in
  let price_range := Py.range 1 31 in
  let* st := Py.for_each price_range (sweep_body costs constraints requirements)
               {| cost_totals := []; profit_totals := [] |} in
  Py.ret {| plot_prices := price_range;
            plot_costs := cost_totals st;
            plot_profits := profit_totals st |}.

End Sweep.

End GeneralisationApp.

(** ** The constructors on a store of Python objects

    Lists are mutable objects reached through references; numbers are
    immutable and stored in place.  A constructor receives references to
    the caller's lists and builds its attributes from them.  This layer is
    what the frame property of the constructors is stated on; the value
    layer above is its read-back. *)

Module Store.

Definition loc : Type := positive.

Inductive val : Type :=
| VNum (q : Q)
| VRef (l : loc).

Inductive obj : Type :=
| OList (items : list val)           (* a Python list *)
| OArray (rows : list (list Q)).     (* a numpy array, row by row *)

Abbreviation heap := (gmap loc obj).

(** Object-allocating computations. *)
Definition H (A : Type) : Type := heap -> Py.result (A * heap).

Definition ret {A} (a : A) : H A := fun h => Py.Ok (a, h).

Definition bind {A B} (m : H A) (k : A -> H B) : H B :=
  fun h =>
    match m h with
    | Py.Ok (a, h') => k a h'
    | Py.Raise e => Py.Raise e
    end.

Definition raise {A} (e : Py.exn) : H A := fun _ => Py.Raise e.

Definition lift {A} (r : Py.result A) : H A :=
  fun h => match r with Py.Ok a => Py.Ok (a, h) | Py.Raise e => Py.Raise e end.

Definition alloc (o : obj) : H val :=
  fun h => let l := fresh (dom h) in Py.Ok (VRef l, <[l := o]> h).

Fixpoint mapH {A B} (f : A -> H B) (l : list A) : H (list B) :=
  match l with
  | [] => ret []
  | a :: l' =>
      bind (f a) (fun b => bind (mapH f l') (fun bs => ret (b :: bs)))
  end.

(** Iterating over [v]: it has to be a list. *)
Definition items_of (v : val) : H (list val) :=
  fun h =>
    match v with
    | VRef l =>
        match h !! l with
        | Some (OList vs) => Py.Ok (vs, h)
        | _ => Py.Raise Py.TypeError
        end
    | VNum _ => Py.Raise Py.TypeError
    end.

Definition num_of (v : val) : H Q :=
  match v with
  | VNum q => ret q
  | VRef _ => raise Py.TypeError
  end.

(** [-c] *)
Definition neg (v : val) : H val :=
  bind (num_of v) (fun q => ret (VNum (- q)%Q)).

(** [[-r for r in xs]] *)
Definition neg_list (xs : val) : H val :=
  bind (items_of xs) (fun vs =>
  bind (mapH neg vs) (fun vs' =>
  alloc (OList vs'))).

(** [[[-c for c in row] for row in m]] *)
Definition neg_matrix (m : val) : H val :=
  bind (items_of m) (fun rows =>
  bind (mapH neg_list rows) (fun rows' =>
  alloc (OList rows'))).

(** The numbers numpy reads out of a nested list. *)
Definition nested (m : val) : H (list (list Q)) :=
  bind (items_of m) (mapH (fun row => bind (items_of row) (mapH num_of))).

(** [np.transpose(m)]: a new array. *)
Definition np_transpose (m : val) : H val :=
  bind (nested m) (fun A =>
  bind (lift (Np.transpose A)) (fun At =>
  alloc (OArray At))).

(** [[[v for v in row] for row in arr]] for an array [arr]. *)
Definition array_to_lists (arr : val) : H val :=
  fun h =>
    match arr with
    | VRef l =>
        match h !! l with
        | Some (OArray rows) =>
            bind (mapH (fun row => alloc (OList (map VNum row))) rows)
                 (fun rows' => alloc (OList rows')) h
        | _ => Py.Raise Py.TypeError
        end
    | VNum _ => Py.Raise Py.TypeError
    end.

(** The attributes of an instance of any of the four classes. *)
Record instance : Type := {
  costs : val;
  constraints : val;
  requirements : val
}.

(** [PrimalProblem.__init__] and [GeneralizedPrimalProblem.__init__] *)
Definition primal_init (costs_ constraints_ requirements_ : val) : H instance :=
  bind (neg_matrix constraints_) (fun cons' =>
  bind (neg_list requirements_) (fun reqs' =>
  ret {| costs := costs_; constraints := cons'; requirements := reqs' |})).

(** [DualProblem.__init__] *)
Definition dual_init (costs_ constraints_ requirements_ : val) : H instance :=
  bind (neg_list requirements_) (fun costs' =>
  bind (np_transpose constraints_) (fun cons' =>
  ret {| costs := costs'; constraints := cons'; requirements := costs_ |})).

(** [GeneralizedDualProblem.__init__] *)
Definition generalized_dual_init (costs_ constraints_ requirements_ : val)
    : H instance :=
  bind (neg_list requirements_) (fun costs' =>
  bind (np_transpose constraints_) (fun A_dual =>
  bind (array_to_lists A_dual) (fun cons' =>
  ret {| costs := costs'; constraints := cons'; requirements := costs_ |}))).

(** Read-back of a vector and of a matrix from the store. *)
Definition read_num (v : val) : option Q :=
  match v with VNum q => Some q | VRef _ => None end.

Definition read_vec (h : heap) (v : val) : option (list Q) :=
  match v with
  | VRef l =>
      match h !! l with
      | Some (OList vs) => mapM read_num vs
      | _ => None
      end
  | VNum _ => None
  end.

(** A nested list: a list of references to vectors. *)
Definition read_nested (h : heap) (v : val) : option (list (list Q)) :=
  match v with
  | VRef l =>
      match h !! l with
      | Some (OList rows) => mapM (read_vec h) rows
      | _ => None
      end
  | VNum _ => None
  end.

(** A matrix: a nested list or an array. *)
Definition read_mat (h : heap) (v : val) : option (list (list Q)) :=
  match v with
  | VRef l =>
      match h !! l with
      | Some (OArray rows) => Some rows
      | _ => read_nested h v
      end
  | VNum _ => None
  end.

(** [v] is a reference to an object that [h] does not hold. *)
Definition fresh_in (h : heap) (v : val) : Prop :=
  exists l, v = VRef l /\ h !! l = None.

(** The caller's three lists read the same before and after, and no
    object of [h] was written. *)
Definition frame (h h' : heap) (costs_ constraints_ requirements_ : val) : Prop :=
  h ⊆ h' /\
  (forall cs, read_vec h costs_ = Some cs -> read_vec h' costs_ = Some cs) /\
  (forall A, read_nested h constraints_ = Some A ->
             read_nested h' constraints_ = Some A) /\
  (forall rs, read_vec h requirements_ = Some rs ->
              read_vec h' requirements_ = Some rs).

(** A computation only adds objects to the store. *)
Definition extends {A} (m : H A) : Prop :=
  forall h a h', m h = Py.Ok (a, h') -> h ⊆ h'.

(** A computation returns a reference to an object it has just created. *)
Definition allocates (m : H val) : Prop :=
  forall h v h', m h = Py.Ok (v, h') -> fresh_in h v.

(** A small store: costs at 1, a 2 x 2 constraint matrix at 2 (rows at 3
    and 4), requirements at 5. *)
Definition example : heap :=
  <[1%positive := OList [VNum 10; VNum 12]]>
  (<[2%positive := OList [VRef 3%positive; VRef 4%positive]]>
  (<[3%positive := OList [VNum 500; VNum 300]]>
  (<[4%positive := OList [VNum 1000; VNum 2000]]>
  (<[5%positive := OList [VNum 100000; VNum 200000]]> ∅)))).

End Store.

(** ** What the solver is asked: the linear program behind a [linprog] call *)

Module LP.

(** [u . v] *)
Fixpoint dot (u v : list Q) : Q :=
  match u, v with
  | a :: u', b :: v' => (a * b + dot u' v')%Q
  | _, _ => 0%Q
  end.

(** [x] is admissible for [linprog(c, A_ub, b_ub)] with the default
    bounds: [A_ub x <= b_ub] and [x >= 0]. *)
Definition feasible (A_ub : list (list Q)) (b_ub x : list Q) : Prop :=
  Forall2 (fun row b => (dot row x <= b)%Q) A_ub b_ub /\
  Forall (fun v => (0 <= v)%Q) x.

(** [r] is an optimum of [min c.x  s.t.  A_ub x <= b_ub, x >= 0]. *)
Record optimal (c : list Q) (A_ub : list (list Q)) (b_ub : list Q)
    (r : Scipy.OptimizeResult) : Prop := {
  opt_length : length (Scipy.x r) = length c;
  opt_feasible : feasible A_ub b_ub (Scipy.x r);
  opt_value : (Scipy.fun_ r == dot c (Scipy.x r))%Q;
  opt_least : forall x', length x' = length c -> feasible A_ub b_ub x' ->
                (dot c (Scipy.x r) <= dot c x')%Q
}.

(** Row operations: [u + v], [k u] and the combination [sum_i y_i A_i]. *)
Fixpoint vadd (u v : list Q) : list Q :=
  match u, v with
  | [], _ => v
  | _, [] => u
  | a :: u', b :: v' => (a + b)%Q :: vadd u' v'
  end.

Definition scale (k : Q) (u : list Q) : list Q := map (Qmult k) u.

Fixpoint comb (y : list Q) (A : list (list Q)) : list Q :=
  match y, A with
  | k :: y', row :: A' => vadd (scale k row) (comb y' A')
  | _, _ => []
  end.

(** [y] completed by zeros to length [N]. *)
Definition pad (N : nat) (y : list Q) : list Q := y ++ repeat 0%Q (N - length y).

(** The rows of the [n] x [n] identity matrix. *)
Fixpoint identity (n : nat) : list (list Q) :=
  match n with
  | O => []
  | S n' => (1%Q :: repeat 0%Q n') :: map (cons 0%Q) (identity n')
  end.

Fixpoint all2 {A B} (f : A -> B -> bool) (l1 : list A) (l2 : list B) : bool :=
  match l1, l2 with
  | [], [] => true
  | a :: l1', b :: l2' => f a b && all2 f l1' l2'
  | _, _ => false
  end.

Definition feasibleb (A_ub : list (list Q)) (b_ub x : list Q) : bool :=
  all2 (fun row b => Qle_bool (dot row x) b) A_ub b_ub &&
  forallb (Qle_bool 0) x.

(** [y] is a certificate that [x] is an optimum of
    [min c.x  s.t.  A_ub x <= b_ub, x >= 0]: [x] is admissible, [y >= 0],
    [c + A_ub^T y >= 0] and [c.x = - y.b_ub]. *)
Definition certifies (c : list Q) (A_ub : list (list Q)) (b_ub x y : list Q)
    : bool :=
  Nat.eqb (length x) (length c) &&
  feasibleb A_ub b_ub x &&
  forallb (Qle_bool 0) y &&
  all2 (fun cj aj => Qle_bool 0 (cj + aj)) c (comb y A_ub) &&
  Qeq_bool (dot c x) (- dot y b_ub).

(** [r] is an admissible point together with its objective value. *)
Definition sound (c : list Q) (A_ub : list (list Q)) (b_ub : list Q)
    (r : Scipy.OptimizeResult) : Prop :=
  length (Scipy.x r) = length c /\
  feasible A_ub b_ub (Scipy.x r) /\
  (Scipy.fun_ r == dot c (Scipy.x r))%Q.

(** The solver answers this call with success and an exact optimum. *)
Definition exact_at (linprog : Scipy.linprog_t) (c : list Q)
    (A_ub : list (list Q)) (b_ub : list Q) (r : Scipy.OptimizeResult) : Prop :=
  linprog c A_ub b_ub = Py.Ok r /\ Scipy.success r = true /\ optimal c A_ub b_ub r.

(** The solver answers this call, reporting failure. *)
Definition fails_at (linprog : Scipy.linprog_t) (c : list Q)
    (A_ub : list (list Q)) (b_ub : list Q) : Prop :=
  exists r, linprog c A_ub b_ub = Py.Ok r /\ Scipy.success r = false.

(** The solver answers this call with success. *)
Definition succeeds_at (linprog : Scipy.linprog_t) (c : list Q)
    (A_ub : list (list Q)) (b_ub : list Q) (r : Scipy.OptimizeResult) : Prop :=
  linprog c A_ub b_ub = Py.Ok r /\ Scipy.success r = true.

End LP.

(** ** Vocabulary of the statements *)

(** [v'] is [v] with every entry negated; likewise for matrices. *)
Definition negated (v' v : list Q) : Prop :=
  Forall2 (fun a' a => a' = (- a)%Q) v' v.

Definition negated_matrix (A' A : list (list Q)) : Prop :=
  Forall2 negated A' A.

(** [At] is the transpose of the [m] x [n] matrix [A]. *)
Definition transpose_of (m n : nat) (At A : list (list Q)) : Prop :=
  length At = n /\
  Forall (fun row => length row = m) At /\
  forall i j, (i < m)%nat -> (j < n)%nat ->
    nth i (nth j At []) 0%Q = nth j (nth i A []) 0%Q.

(** ** Fourier-Motzkin elimination on systems [R x >= d]

    A consequence of the system is represented by its vector [m >= 0] of
    multipliers: the inequality [sum_i m_i (R_i . x) >= sum_i m_i d_i]. *)

Module Fourier.

Section System.
Variable R : list (list Q).
Variable d : list Q.

Definition lhs (m x : list Q) : Q := LP.dot m (map (fun row => LP.dot row x) R).
Definition rhs (m : list Q) : Q := LP.dot m d.
Definition coef (k : nat) (m : list Q) : Q :=
  LP.dot m (map (fun row => nth k row 0%Q) R).
Definition sat (m x : list Q) : Prop := (rhs m <= lhs m x)%Q.

(** The combination of [p] and [q] in which variable [k] cancels. *)
Definition combine (k : nat) (p q : list Q) : list Q :=
  LP.vadd (LP.scale (- coef k q) p) (LP.scale (coef k p) q).

Definition is_pos (a : Q) : bool := negb (Qle_bool a 0).
Definition is_neg (a : Q) : bool := negb (Qle_bool 0 a).

Definition zeros_of (k : nat) (S : list (list Q)) : list (list Q) :=
  List.filter (fun m => Qeq_bool (coef k m) 0) S.
Definition pos_of (k : nat) (S : list (list Q)) : list (list Q) :=
  List.filter (fun m => is_pos (coef k m)) S.
Definition neg_of (k : nat) (S : list (list Q)) : list (list Q) :=
  List.filter (fun m => is_neg (coef k m)) S.

(** One elimination step: the consequences of [S] free of variable [k]. *)
Definition elim (k : nat) (S : list (list Q)) : list (list Q) :=
  zeros_of k S ++
  flat_map (fun p => map (combine k p) (neg_of k S)) (pos_of k S).

(** Variables [0 .. n-1] eliminated in turn. *)
Fixpoint elim_upto (n : nat) (S : list (list Q)) : list (list Q) :=
  match n with
  | O => S
  | S n' => elim n' (elim_upto n' S)
  end.

End System.

(** The multipliers selecting row [i] alone, and the system itself. *)
Definition unit (i : nat) : list Q := repeat 0%Q i ++ [1%Q].
Definition units (N : nat) : list (list Q) := map unit (seq 0 N).

(** The system [R x >= d] extended by a variable [t] (last) and the row
    [t - g . x >= 0]. *)
Definition extend (R : list (list Q)) (g : list Q) : list (list Q) :=
  map (fun row => row ++ [0%Q]) R ++ [map Qopp g ++ [1%Q]].

End Fourier.

(** ** The calls a formulate-and-solve step makes *)

Module Call.
Import Question Generalisation.

(** The solver's answer to the primal of (costs, constraints, requirements). *)
Definition primal (linprog : Scipy.linprog_t) (costs : list Q)
    (constraints : list (list Q)) (requirements : list Q)
    : Py.result Scipy.OptimizeResult :=
  let p := PrimalProblem.init costs constraints requirements in
  linprog (PrimalProblem.costs p) (PrimalProblem.constraints p)
    (PrimalProblem.requirements p).

(** The solver's answer to the dual of (costs, constraints, requirements). *)
Definition dual (linprog : Scipy.linprog_t) (costs : list Q)
    (constraints : list (list Q)) (requirements : list Q)
    : Py.result Scipy.OptimizeResult :=
  match DualProblem.init costs constraints requirements with
  | Py.Ok d =>
      linprog (DualProblem.costs d) (DualProblem.constraints d)
        (DualProblem.requirements d)
  | Py.Raise e => Py.Raise e
  end.

Definition gprimal (linprog : Scipy.linprog_t) (costs : list Q)
    (constraints : list (list Q)) (requirements : list Q)
    : Py.result Scipy.OptimizeResult :=
  let p := GeneralizedPrimalProblem.init costs constraints requirements in
  linprog (GeneralizedPrimalProblem.costs p)
    (GeneralizedPrimalProblem.constraints p)
    (GeneralizedPrimalProblem.requirements p).

Definition gdual (linprog : Scipy.linprog_t) (costs : list Q)
    (constraints : list (list Q)) (requirements : list Q)
    : Py.result Scipy.OptimizeResult :=
  match GeneralizedDualProblem.init costs constraints requirements with
  | Py.Ok d =>
      linprog (GeneralizedDualProblem.costs d)
        (GeneralizedDualProblem.constraints d)
        (GeneralizedDualProblem.requirements d)
  | Py.Raise e => Py.Raise e
  end.

(** The solver answers the primal (resp. dual) of the triple exactly. *)
Definition primal_exact (linprog : Scipy.linprog_t) (costs : list Q)
    (constraints : list (list Q)) (requirements : list Q)
    (r : Scipy.OptimizeResult) : Prop :=
  let p := PrimalProblem.init costs constraints requirements in
  LP.exact_at linprog (PrimalProblem.costs p) (PrimalProblem.constraints p)
    (PrimalProblem.requirements p) r.

Definition dual_exact (linprog : Scipy.linprog_t) (costs : list Q)
    (constraints : list (list Q)) (requirements : list Q)
    (r : Scipy.OptimizeResult) : Prop :=
  exists d,
    DualProblem.init costs constraints requirements = Py.Ok d /\
    LP.exact_at linprog (DualProblem.costs d) (DualProblem.constraints d)
      (DualProblem.requirements d) r.

Definition gprimal_exact (linprog : Scipy.linprog_t) (costs : list Q)
    (constraints : list (list Q)) (requirements : list Q)
    (r : Scipy.OptimizeResult) : Prop :=
  let p := GeneralizedPrimalProblem.init costs constraints requirements in
  LP.exact_at linprog (GeneralizedPrimalProblem.costs p)
    (GeneralizedPrimalProblem.constraints p)
    (GeneralizedPrimalProblem.requirements p) r.

Definition gdual_exact (linprog : Scipy.linprog_t) (costs : list Q)
    (constraints : list (list Q)) (requirements : list Q)
    (r : Scipy.OptimizeResult) : Prop :=
  exists d,
    GeneralizedDualProblem.init costs constraints requirements = Py.Ok d /\
    LP.exact_at linprog (GeneralizedDualProblem.costs d)
      (GeneralizedDualProblem.constraints d)
      (GeneralizedDualProblem.requirements d) r.

(** The answer is a success / a reported failure. *)
Definition succeeded (a : Py.result Scipy.OptimizeResult)
    (r : Scipy.OptimizeResult) : Prop :=
  a = Py.Ok r /\ Scipy.success r = true.


End Call.

(** What an answer [r] of the solver, read as [value], contributes to a
    trajectory of the generalized sweep. *)
Definition recorded (r : Scipy.OptimizeResult) (value : Q) : Q :=
  if Scipy.success r then Builtins.or_zero (Some value) else 0%Q.

(** ** Stand-ins for the solver, used to run the model on concrete data *)

Module Oracle.

(** Reports failure on every call. *)
Definition always_fails : Scipy.linprog_t :=
  fun _ _ _ => Py.Ok {| Scipy.success := false; Scipy.x := []; Scipy.fun_ := 0%Q |}.

(** Reports success with the zero vector on every call. *)
Definition zero_solution : Scipy.linprog_t :=
  fun c _ _ =>
    Py.Ok {| Scipy.success := true;
             Scipy.x := map (fun _ => 0%Q) c;
             Scipy.fun_ := 0%Q |}.

(** Scenario 1 of the sweep ([A], [b] fixed, first cost [p]), answered
    exactly.  A call with three coefficients is the primal
    [c = [p, 12, 15]]; any other call is the dual, whose right-hand side
    is [[p, 12, 15]]. *)
Definition scenario1_lots (p : Q) : list Q :=
  if Qle_bool p 9 then [200; 0; 0]%Q else [0; 200 # 23; 2800 # 23]%Q.

Definition scenario1_prices (p : Q) : list Q :=
  if Qle_bool p 6 then [0; p / 1000; 0; 0; 0]%Q
  else if Qle_bool p 9 then [(p - 6) / 350; (60 - 3 * p) / 7000; 0; 0; 0]%Q
  else [6 # 575; 51 # 11500; 0; 0; 0]%Q.

Definition answer (c x : list Q) : Scipy.OptimizeResult :=
  {| Scipy.success := true; Scipy.x := x; Scipy.fun_ := LP.dot c x |}.

Definition scenario1 : Scipy.linprog_t :=
  fun c A_ub b_ub =>
    match c, b_ub with
    | [p; _; _], _ => Py.Ok (answer c (scenario1_lots p))
    | _, p :: _ => Py.Ok (answer c (scenario1_prices p))
    | _, [] => Py.Ok {| Scipy.success := false; Scipy.x := []; Scipy.fun_ := 0%Q |}
    end.

Definition scenario1_primal (p : Z) : Scipy.OptimizeResult :=
  answer [inject_Z p; 12; 15]%Q (scenario1_lots (inject_Z p)).

Definition scenario1_dual (p : Z) : Scipy.OptimizeResult :=
  answer (map (fun r => (- r)%Q) ResolutionApp.base_requirements)
    (scenario1_prices (inject_Z p)).

(** At price [p] the lots and the unit prices certify each other. *)
Definition scenario1_certified (p : Z) : bool :=
  let costs := [inject_Z p; 12; 15]%Q in
  let pr := Question.PrimalProblem.init costs
              ResolutionApp.base_constraints ResolutionApp.base_requirements in
  LP.certifies (Question.PrimalProblem.costs pr)
    (Question.PrimalProblem.constraints pr)
    (Question.PrimalProblem.requirements pr)
    (scenario1_lots (inject_Z p)) (scenario1_prices (inject_Z p)) &&
  match Question.DualProblem.init costs
          ResolutionApp.base_constraints ResolutionApp.base_requirements with
  | Py.Ok d =>
      LP.certifies (Question.DualProblem.costs d)
        (Question.DualProblem.constraints d)
        (Question.DualProblem.requirements d)
        (scenario1_prices (inject_Z p)) (scenario1_lots (inject_Z p))
  | Py.Raise _ => false
  end.

End Oracle.


(** ** More Python builtins *)

Module Builtins2.

(** [l[i]] for an index [i >= 0]. *)
Definition getitem {A} (l : list A) (i : nat) : Py.result A :=
  match l !! i with
  | Some v => Py.Ok v
  | None => Py.Raise Py.IndexError
  end.

(** [enumerate(l, start)] *)
Fixpoint enumerate {A} (start : nat) (l : list A) : list (nat * A) :=
  match l with
  | [] => []
  | a :: l' => (start, a) :: enumerate (S start) l'
  end.

Fixpoint zip4 {A B C D} (a : list A) (b : list B) (c : list C) (d : list D)
    : list (A * B * C * D) :=
  match a, b, c, d with
  | u :: a', v :: b', w :: c', x :: d' => (u, v, w, x) :: zip4 a' b' c' d'
  | _, _, _, _ => []
  end.

(** [[f(v) for v in l]] when [f] may raise. *)
Fixpoint traverse {A B} (f : A -> Py.M B) (l : list A) : Py.M (list B) :=
  match l with
  | [] => Py.ret []
  | a :: l' =>
      let* b := f a in
      let* bs := traverse f l' in
      Py.ret (b :: bs)
  end.

(** The three lines printed around a section title. *)
Definition banner (width : nat) (title : string) : Py.M unit :=
  let* _ := Py.print (String.append Builtins.nl (Builtins.str_mul "=" width)) in
  let* _ := Py.print title in
  Py.print (String.append (Builtins.str_mul "=" width) Builtins.nl).

End Builtins2.

(** ** Resolution/graphique.py: what [plot_3d_graph] does with its arguments

    matplotlib draws; the model keeps the legend entries of the planes
    drawn and the point marked as optimal. *)

Module Graphique.
Import Builtins2.

Definition colors : list string :=
  ["#4682B4"; "#32CD32"; "#FFD700"; "#FF6347"; "#6A5ACD"].
Definition labels : list string :=
  ["Fusils"; "Grenades"; "Chars"; "Mitrailleuses"; "Bazookas"].

Record Drawing : Type := {
  legend : list string;
  point : Q * Q * Q
}.

(** One iteration of [for i, (a, bi, color, label) in enumerate(zip(...))]. *)
Definition plane_step (abcl : list Q * Q * string * string)
    (legend_elements : list string) : Py.M (list string) :=
  let '(a, bi, color, label) := abcl in
  let* a2 := Py.lift (getitem a 2) in
  if Qeq_bool a2 0 then Py.ret legend_elements
  else Py.ret (legend_elements ++ [String.append "Contrainte " label]).

(** [point_x, point_y, point_z = res] *)
Definition unpack3 (res : option (list Q)) : Py.M (Q * Q * Q) :=
  match res with
  | None => Py.raise Py.TypeError
  | Some [px; py; pz] => Py.ret (px, py, pz)
  | Some _ => Py.raise Py.ValueError
  end.

Definition plot_3d_graph (A : list (list Q)) (b : list Q) (res : option (list Q))
    : Py.M Drawing :=
  let* legend_elements := Py.for_each (zip4 A b colors labels) plane_step [] in
  let* p := unpack3 res in
  Py.ret {| legend := legend_elements; point := p |}.

End Graphique.

(** ** Resolution/app.py, continued: the primal table and [main] *)

Module ResolutionMain.
Import Question Builtins Builtins2.

Record PrimalRow : Type := {
  pr_lot : nat;
  pr_quantity : Q;
  pr_unit_cost : Q;
  pr_total : Q
}.

Definition primal_row (ilc : nat * (Q * Q)) : PrimalRow :=
  let '(i, (lot, cost)) := ilc in
  let total_cost := (lot * cost)%Q in
  {| pr_lot := i;
     pr_quantity := Py.round lot 4;
     pr_unit_cost := (cost * 1000000)%Q;
     pr_total := Py.round (total_cost * 1000000) 4 |}.

(** Returns the table rows and the total shown under the table. *)
Definition display_primal_results (lots : option (list Q)) (costs : list Q)
    (cost_total : option Q) : Py.M (list PrimalRow * Q) :=
  let* _ := Py.print (String.append nl
    "Voici la solution optimale du problème de minimisation de la dépense du pays PATIBULAIRE:") in
  let* lots_ := Py.not_none lots in
  let table := map primal_row (enumerate 1 (zip2 lots_ costs)) in
  let* cost_total_ := Py.not_none cost_total in
  Py.ret (table, Py.round cost_total_ 4).

(** What [main] has shown when it returns. *)
Record Shown : Type := {
  primal_table : list PrimalRow * Q;
  drawing : Graphique.Drawing;
  dual_table : list ResolutionApp.DualRow * Q;
  sweep : list ResolutionApp.SweepRow * ResolutionApp.PlotCall
}.

Definition main (linprog : Scipy.linprog_t) : Py.M Shown :=
  let costs := [10; 12; 15]%Q in
  let constraints :=
    [ [500; 300; 800]; [1000; 2000; 1500]; [10; 20; 15]; [100; 80; 15];
      [80; 120; 200] ]%Q in
  let requirements := [100000; 200000; 100; 400; 400]%Q in
  let* _ := banner 50 "                  1.  PROBLEME PRIMAL" in
  let primal := PrimalProblem.init costs constraints requirements in
  let* (lots, cost_total) := PrimalProblem.solve linprog primal in
  let* t1 := display_primal_results lots costs cost_total in
  let* g := Graphique.plot_3d_graph constraints requirements lots in
  let* _ := banner 50 "                 2.  PROBLEME DUAL" in
  let* dual := Py.lift (DualProblem.init costs constraints requirements) in
  let* (prices, profit) := DualProblem.solve linprog dual in
  let* t2 := ResolutionApp.display_dual_results prices profit in
  let* _ := banner 60 "        3.  ÉTUDE DE LA SENSIBILITÉ DU PRIX DU LOT 1" in
  let* s := ResolutionApp.study_price_variation linprog in
  Py.ret {| primal_table := t1; drawing := g; dual_table := t2; sweep := s |}.

End ResolutionMain.

(** ** optimisation_militaire/app.py, continued: the other tables and [main] *)

Module GeneralisationMain.
Import Generalisation Builtins Builtins2.

(** The data bundle [load_data] returns. *)
Record Data : Type := {
  costs : list Q;
  constraints : list (list Q);
  requirements : list Q;
  armes : list string
}.

(** [[arme] + [constraints[i][j] for j in range(n_lots)]] *)
Definition lot_row (constraints_ : list (list Q)) (n_lots : nat)
    (ia : nat * string) : Py.M (string * list Q) :=
  let '(i, arme) := ia in
  let* cells := traverse
      (fun j => let* row := Py.lift (getitem constraints_ i) in
                Py.lift (getitem row j))
      (seq 0 n_lots) in
  Py.ret (arme, cells).

(** Returns the rows of the weapons and the last row, of the costs. *)
Definition display_lot_table (constraints_ : list (list Q)) (costs_ : list Q)
    (armes_ : list string) : Py.M (list (string * list Q) * list Q) :=
  let n_lots := length costs_ in
  let* rows := traverse (lot_row constraints_ n_lots) (enumerate 0 armes_) in
  Py.ret (rows, costs_).

Record PrimalRow : Type := {
  pr_lot : nat;
  pr_quantity : Q;
  pr_unit_cost : Q;
  pr_total : Q
}.

(** The loop of [display_primal_solution]: [(table, total_cost)]. *)
Definition primal_step (acc : list PrimalRow * Q) (iqc : nat * (Q * Q))
    : list PrimalRow * Q :=
  let '(i, (qte, cost)) := iqc in
  let cost_total := (qte * cost)%Q in
  (fst acc ++ [ {| pr_lot := i;
                   pr_quantity := Py.round qte 2;
                   pr_unit_cost := cost;
                   pr_total := Py.round cost_total 2 |} ],
   (snd acc + cost_total)%Q).

Definition primal_loop (lots_ costs_ : list Q) : list PrimalRow * Q :=
  fold_left primal_step (enumerate 1 (zip2 lots_ costs_)) (nil, 0%Q).

(** Returns the table rows and the total shown under the table. *)
Definition display_primal_solution (lots : option (list Q)) (costs_ : list Q)
    : Py.M (list PrimalRow * Q) :=
  let* _ := banner 110
    "                  QUESTION 1 : Quelle est la solution optimale pour le Client (minimiser les coûts)" in
  let* lots_ := Py.not_none lots in
  let '(table, total_cost) := primal_loop lots_ costs_ in
  Py.ret (table, Py.round total_cost 2).

Record CompareRow : Type := {
  cr_lot : nat;
  cr_quantity : Q;
  cr_unit_cost : Q;
  cr_cost : Q;
  cr_price : Q;
  cr_benefit : Q
}.

(** The loop of [display_comparative_table]:
    [(table, total_cost, total_benefit)]. *)
Definition compare_step (acc : list CompareRow * Q * Q)
    (row : nat * (Q * Q * Q * Q)) : list CompareRow * Q * Q :=
  let '(table, total_cost, total_benefit) := acc in
  let '(i, (lot, cost, price, req)) := row in
  let cost_total := (lot * cost)%Q in
  let benefit := (price * req)%Q in
  (table ++ [ {| cr_lot := i;
                 cr_quantity := Py.round lot 2;
                 cr_unit_cost := cost;
                 cr_cost := Py.round cost_total 2;
                 cr_price := Py.round price 5;
                 cr_benefit := Py.round benefit 2 |} ],
   (total_cost + cost_total)%Q,
   (total_benefit + benefit)%Q).

Definition compare_loop (lots_ costs_ prices_ requirements_ : list Q)
    : list CompareRow * Q * Q :=
  fold_left compare_step
    (enumerate 1 (zip4 lots_ costs_ prices_ requirements_)) (nil, 0%Q, 0%Q).

(** Returns the table rows and the two totals shown under the table. *)
Definition display_comparative_table (lots : option (list Q)) (costs_ : list Q)
    (prices : option (list Q)) (armes_ : list string) (requirements_ : list Q)
    : Py.M (list CompareRow * Q * Q) :=
  let* _ := banner 110 "                  QUESTION 3 : COMPARAISON PRIMAL / DUAL" in
  let* lots_ := Py.not_none lots in
  let* prices_ := Py.not_none prices in
  let '(table, total_cost, total_benefit) :=
    compare_loop lots_ costs_ prices_ requirements_ in
  Py.ret (table, Py.round total_cost 2, Py.round total_benefit 2).

(** What [main] has shown when it returns. *)
Record Shown : Type := {
  lot_table : list (string * list Q) * list Q;
  primal_table : list PrimalRow * Q;
  dual_table : list GeneralisationApp.DualRow * Q;
  compare_table : list CompareRow * Q * Q;
  sweep : GeneralisationApp.PlotCall
}.

(** [main], from the data bundle [load_data] has read. *)
Definition main (linprog : Scipy.linprog_t) (data : Data) : Py.M Shown :=
  let* _ := banner 80
    "               GÉNÉRALISATION D'UN PROBLÈME D'OPTIMISATION LINÉAIRE" in
  let costs_ := costs data in
  let constraints_ := constraints data in
  let requirements_ := requirements data in
  let armes_ := armes data in
  let* t0 := display_lot_table constraints_ costs_ armes_ in
  let primal := GeneralizedPrimalProblem.init costs_ constraints_ requirements_ in
  let* (lots, cost_total) := GeneralizedPrimalProblem.solve linprog primal in
  let* t1 := display_primal_solution lots costs_ in
  let* dual := Py.lift (GeneralizedDualProblem.init costs_ constraints_ requirements_) in
  let* (prices, profit) := GeneralizedDualProblem.solve linprog dual in
  let* t2 := GeneralisationApp.display_dual_solution prices requirements_ armes_ in
  let* t3 := display_comparative_table lots costs_ prices armes_ requirements_ in
  let* s := GeneralisationApp.study_sensitivity linprog costs_ constraints_ requirements_ in
  Py.ret {| lot_table := t0; primal_table := t1; dual_table := t2;
            compare_table := t3; sweep := s |}.

End GeneralisationMain.

(** ** optimisation_militaire/interface.py

    The script reads lines from standard input.  [str.split], [float] and
    [int] are parameters: what a line splits into, and which strings denote
    a number ([None] stands for [ValueError]).  Writing the JSON file is
    left to the collaborator; [main] returns the bundle handed to
    [json.dump]. *)

Module Interface.

Inductive exn : Type := EOFError | ValueError.

Inductive outcome (A : Type) : Type :=
| Return (a : A)
| Raise (e : exn).
Arguments Return {A} a.
Arguments Raise {A} e.

(** The lines still to be read, and what has been written: the prompts of
    [input] and the lines of [print], oldest first. *)
Record world : Type := {
  stdin : list string;
  stdout : list string
}.

Definition IO (A : Type) : Type := world -> outcome A * world.

Definition ret {A} (a : A) : IO A := fun w => (Return a, w).

Definition bind {A B} (m : IO A) (k : A -> IO B) : IO B :=
  fun w =>
    match m w with
    | (Return a, w') => k a w'
    | (Raise e, w') => (Raise e, w')
    end.

Definition raise {A} (e : exn) : IO A := fun w => (Raise e, w).

Definition print (s : string) : IO unit :=
  fun w => (Return tt, {| stdin := stdin w; stdout := stdout w ++ [s] |}).

(** [input(prompt)] *)
Definition input (prompt : string) : IO string :=
  fun w =>
    match stdin w with
    | [] => (Raise EOFError, {| stdin := []; stdout := stdout w ++ [prompt] |})
    | line :: rest =>
        (Return line, {| stdin := rest; stdout := stdout w ++ [prompt] |})
    end.

(** [for v in l: acc.append(body(v))] *)
Fixpoint collect {A B} (body : A -> IO B) (l : list A) : IO (list B) :=
  match l with
  | [] => ret []
  | a :: l' =>
      bind (body a) (fun b => bind (collect body l') (fun bs => ret (b :: bs)))
  end.

Record Data : Type := {
  costs : list Q;
  constraints : list (list Q);
  requirements : list Q;
  armes : list string
}.

Section Parsers.
Variable str_split : string -> list string.     (* s.strip().split() *)
Variable float_of : string -> option Q.         (* float(s) *)
Variable int_of : string -> option Z.           (* int(s) *)

Definition wrong_count (length_ : option Z) (values : list string) : bool :=
  match length_ with
  | Some n => negb (Z.eqb (Z.of_nat (length values)) n)
  | None => false
  end.

Definition count_message (length_ : option Z) : string :=
  String.append "Erreur : vous devez saisir exactement "
    (String.append (match length_ with Some n => pretty n | None => "None" end)
       " valeurs.").

Definition format_message : string :=
  "Erreur : saisie incorrecte, veuillez entrer des nombres séparés par des espaces.".

(** The [while True] loop of [ask_for_list], one input line per turn. *)
Fixpoint ask_loop (prompt : string) (length_ : option Z)
    (lines : list string) (out : list string) : outcome (list Q) * world :=
  match lines with
  | [] => (Raise EOFError, {| stdin := []; stdout := out ++ [prompt] |})
  | line :: rest =>
      let out1 := out ++ [prompt] in
      let values := str_split line in
      if wrong_count length_ values
      then ask_loop prompt length_ rest (out1 ++ [count_message length_])
      else
        match mapM float_of values with
        | Some xs => (Return xs, {| stdin := rest; stdout := out1 |})
        | None => ask_loop prompt length_ rest (out1 ++ [format_message])
        end
  end.

Definition ask_for_list (prompt : string) (length_ : option Z) : IO (list Q) :=
  fun w => ask_loop prompt length_ (stdin w) (stdout w).

(** [int(input(prompt))] *)
Definition input_int (prompt : string) : IO Z :=
  bind (input prompt) (fun s =>
    match int_of s with
    | Some n => ret n
    | None => raise ValueError
    end).

Definition nl : string := Builtins.nl.

Definition main (filepath : string) : IO Data :=
  bind (print (String.append nl
    "===     Saisie interactive des données pour l'optimisation militaire     === ")) (fun _ =>
  bind (ask_for_list (String.append nl
    "-->  Entrez les coûts des lots (exemple : 10 12 15) : ") None) (fun costs_ =>
  let n_lots := Z.of_nat (length costs_) in
  bind (input_int (String.append nl
    "-->  Combien de types d’armement différents (contraintes) souhaitez-vous définir ? : ")) (fun n_constraints =>
  bind (print (String.append nl (String.append
    "--> Pour chaque type d’armement, entrez les quantités contenues dans les "
    (String.append (pretty n_lots) " lots.")))) (fun _ =>
  bind (collect
          (fun i : Z =>
             ask_for_list
               (String.append "   🔹 Type d’armement #"
                  (String.append (pretty (i + 1)%Z)
                     " (quantités dans chaque lot, séparées par espaces) : "))
               (Some n_lots))
          (Py.range 0 n_constraints)) (fun constraints_ =>
  bind (ask_for_list (String.append nl
    "-->  Entrez les besoins minimaux pour chaque type d’armement (exemple : 1000 500 200) : ")
    (Some n_constraints)) (fun requirements_ =>
  bind (print (String.append nl
    "-->  Nommez chaque type d’armement (exemple : fusils, grenades, chars...) :")) (fun _ =>
  bind (collect
          (fun i : Z =>
             input (String.append "   🔹 Nom du type d’armement #"
                      (String.append (pretty (i + 1)%Z) " : ")))
          (Py.range 0 n_constraints)) (fun armes_ =>
  let data := {| costs := costs_; constraints := constraints_;
                 requirements := requirements_; armes := armes_ |} in
  bind (print (String.append nl
    (String.append " Données sauvegardées avec succès dans " filepath))) (fun _ =>
  ret data))))))))).

End Parsers.

End Interface.

(** ** Which inputs [display_lot_table] can index *)

Module LotTable.

(** [constraints[i][j]] *)
Definition cell (constraints : list (list Q)) (i j : nat) : Py.M Q :=
  let* row := Py.lift (Builtins2.getitem constraints i) in
  Py.lift (Builtins2.getitem row j).

(** Row [i] of the matrix exists and has a cell for each of the [n_lots]
    lots. *)
Definition row_ok (constraints : list (list Q)) (n_lots : nat) (i : nat) : bool :=
  match constraints !! i with
  | Some row => Nat.leb n_lots (length row)
  | None => false
  end.

(** No lot at all, or a full row for every named weapon. *)
Definition indexable (constraints : list (list Q)) (n_lots : nat)
    (armes : list string) : bool :=
  Nat.eqb n_lots 0 || forallb (row_ok constraints n_lots) (seq 0 (length armes)).

(** The rows handed to the table: the name, then the first [n_lots] cells
    of the weapon's row. *)
Definition rows (constraints : list (list Q)) (n_lots : nat)
    (armes : list string) : list (string * list Q) :=
  map (fun ia : nat * string =>
         (snd ia, take n_lots (nth (fst ia) constraints [])))
      (Builtins2.enumerate 0 armes).

End LotTable.

(** ** Scenario 1 as a data bundle of the generalized script *)

Module Scenario.

Definition data : GeneralisationMain.Data :=
  {| GeneralisationMain.costs := ResolutionApp.base_costs;
     GeneralisationMain.constraints := ResolutionApp.base_constraints;
     GeneralisationMain.requirements := ResolutionApp.base_requirements;
     GeneralisationMain.armes := ResolutionApp.armes |}.

End Scenario.

(** ** Which input lines [ask_for_list] takes *)

Module Lines.

Section Parsers.
Variable str_split : string -> list string.
Variable float_of : string -> option Q.

(** The line has the number of values asked for, and each is a number. *)
Definition accepted (length_ : option Z) (line : string) : bool :=
  negb (Interface.wrong_count length_ (str_split line)) &&
  match mapM float_of (str_split line) with
  | Some _ => true
  | None => false
  end.

(** What is printed after a line that is not taken. *)
Definition complaint (length_ : option Z) (line : string) : string :=
  if Interface.wrong_count length_ (str_split line)
  then Interface.count_message length_
  else Interface.format_message.

(** What has been written once the lines [rejected] have been read. *)
Definition transcript (prompt : string) (length_ : option Z)
    (rejected : list string) : list string :=
  flat_map (fun line => [prompt; complaint length_ line]) rejected.

End Parsers.

End Lines.

(** ** Stand-ins for [str.split], [int] and [float], used to run the model
    of the interface on concrete lines *)

Module Keyboard.

Definition is_empty (s : string) : bool :=
  match s with
  | EmptyString => true
  | String _ _ => false
  end.

Fixpoint words (s : string) (cur : string) : list string :=
  match s with
  | EmptyString => if is_empty cur then [] else [cur]
  | String c s' =>
      if Ascii.eqb c (Ascii.ascii_of_nat 32)
      then (if is_empty cur then words s' EmptyString
            else cur :: words s' EmptyString)
      else words s' (String.append cur (String c EmptyString))
  end.

(** Splits at blanks. *)
Definition str_split (s : string) : list string := words s EmptyString.

Fixpoint digits (s : string) (acc : Z) : option Z :=
  match s with
  | EmptyString => Some acc
  | String c s' =>
      let n := Z.of_nat (Ascii.nat_of_ascii c) in
      if Z.leb 48 n && Z.leb n 57
      then digits s' (10 * acc + (n - 48))%Z
      else None
  end.

(** Reads an unsigned decimal integer. *)
Definition int_of (s : string) : option Z :=
  match s with
  | EmptyString => None
  | _ => digits s 0
  end.

Definition float_of (s : string) : option Q :=
  match int_of s with
  | Some n => Some (inject_Z n)
  | None => None
  end.

End Keyboard.

Module Session.

(** A session at the keyboard: one row is retyped after a wrong count. *)
Definition typed : Interface.world :=
  {| Interface.stdin :=
       ["10 12 15"; "2"; "1 2"; "1 2 3"; "4 5 6"; "7 8"; "fusils"; "chars"];
     Interface.stdout := [] |}.

End Session.

(** ** A write by the caller, after construction *)

Module StoreWrite.
Import Store.

(** [v[i] = x] for a list [v] and an index [i >= 0]. *)
Definition setitem (v : val) (i : nat) (x : val) : H unit :=
  fun h =>
    match v with
    | VRef l =>
        match h !! l with
        | Some (OList vs) =>
            if Nat.ltb i (length vs)
            then Py.Ok (tt, <[l := OList (<[i := x]> vs)]> h)
            else Py.Raise Py.IndexError
        | _ => Py.Raise Py.TypeError
        end
    | VNum _ => Py.Raise Py.TypeError
    end.

End StoreWrite.

(** ** A solver of finite accuracy

    The solver's contract gives the objective value at the optimum up to a
    numerical tolerance.  A problem is solvable when it has an optimum
    (it is feasible and bounded); an answer is within [delta] when it
    reports success and its value is at most [delta] away from the value
    of an optimum. *)

Module Accuracy.
Import Question Generalisation.


Definition within_at (delta : Q) (linprog : Scipy.linprog_t) (c : list Q)
    (A_ub : list (list Q)) (b_ub : list Q) (r : Scipy.OptimizeResult) : Prop :=
  linprog c A_ub b_ub = Py.Ok r /\ Scipy.success r = true /\
  exists s, LP.optimal c A_ub b_ub s /\
            (Qabs (Scipy.fun_ r - Scipy.fun_ s) <= delta)%Q.






(** The values [R p] reported for the primals of the prices keep the order
    of the optimal values: a larger optimal value is never reported as a
    smaller number (what a monotone rounding of the optimal value gives). *)
Definition keeps_order (prices : list Z) (rest : list Q)
    (constraints : list (list Q)) (requirements : list Q)
    (R : Z -> Scipy.OptimizeResult) : Prop :=
  let problem p := PrimalProblem.init (inject_Z p :: rest) constraints requirements in
  forall p q sp sq, In p prices -> In q prices ->
    LP.optimal (PrimalProblem.costs (problem p))
      (PrimalProblem.constraints (problem p))
      (PrimalProblem.requirements (problem p)) sp ->
    LP.optimal (PrimalProblem.costs (problem q))
      (PrimalProblem.constraints (problem q))
      (PrimalProblem.requirements (problem q)) sq ->
    (Scipy.fun_ sp <= Scipy.fun_ sq)%Q ->
    (Scipy.fun_ (R p) <= Scipy.fun_ (R q))%Q.



End Accuracy.

(** ** A stand-in solver of finite accuracy for scenario 1: the exact
    optimum with every coordinate rounded to 10 decimals, and the value of
    the rounded point. *)

Module Rounded.

Definition answer (c x : list Q) : Scipy.OptimizeResult :=
  let x' := map (fun v => Py.round v 10) x in
  {| Scipy.success := true; Scipy.x := x'; Scipy.fun_ := LP.dot c x' |}.

Definition scenario1 : Scipy.linprog_t :=
  fun c A_ub b_ub =>
    match c, b_ub with
    | [p; _; _], _ => Py.Ok (answer c (Oracle.scenario1_lots p))
    | _, p :: _ => Py.Ok (answer c (Oracle.scenario1_prices p))
    | _, [] => Py.Ok {| Scipy.success := false; Scipy.x := []; Scipy.fun_ := 0%Q |}
    end.

Definition scenario1_primal (p : Z) : Scipy.OptimizeResult :=
  answer [inject_Z p; 12; 15]%Q (Oracle.scenario1_lots (inject_Z p)).

Definition scenario1_dual (p : Z) : Scipy.OptimizeResult :=
  answer (map (fun r => (- r)%Q) ResolutionApp.base_requirements)
    (Oracle.scenario1_prices (inject_Z p)).


(** The rounded values at prices [p] and [q] are ordered as the exact
    optimal values are. *)
Definition keeps_order (p q : Z) : bool :=
  implb (Qle_bool (Scipy.fun_ (Oracle.scenario1_primal p))
                  (Scipy.fun_ (Oracle.scenario1_primal q)))
        (Qle_bool (Scipy.fun_ (scenario1_primal p))
                  (Scipy.fun_ (scenario1_primal q))).


End Rounded.

(** ** A stand-in solver that knows scenario 1 only: it answers the
    problems on the matrices of scenario 1 exactly and reports failure on
    any other matrix. *)

Module Strict.

Definition same_matrix (A B : list (list Q)) : bool :=
  LP.all2 (LP.all2 Qeq_bool) A B.

Definition primal_matrix : list (list Q) :=
  map (fun row => map (fun c => (- c)%Q) row) ResolutionApp.base_constraints.

Definition dual_matrix : list (list Q) :=
  map (fun j => Np.column j ResolutionApp.base_constraints) (seq 0 3).

Definition scenario1 : Scipy.linprog_t :=
  fun c A_ub b_ub =>
    if same_matrix A_ub primal_matrix || same_matrix A_ub dual_matrix
    then Oracle.scenario1 c A_ub b_ub
    else Py.Ok {| Scipy.success := false; Scipy.x := []; Scipy.fun_ := 0%Q |}.


End Strict.
(* ===================================================================== *)
(** * Properties *)
(* ===================================================================== *)

(** ** Formulation (value layer) *)

Section Formulation.
Import Question Generalisation.

Lemma negated_map (v : list Q) : negated (map (fun r => (- r)%Q) v) v.
Proof.
  unfold negated. induction v as [|a v IH]; simpl; constructor; auto.
Qed.

Lemma negated_matrix_map (A : list (list Q)) :
  negated_matrix (map (fun row => map (fun c => (- c)%Q) row) A) A.
Proof.
  unfold negated_matrix.
  induction A as [|row A IH]; simpl; constructor; auto using negated_map.
Qed.

(** C1.  Building the primal problem, basic or generalized, keeps the cost
    vector as the objective, negates every entry of the constraint matrix
    (same shape) and every entry of the requirement vector; the
    constructor is a total function, so nothing is raised. *)
Theorem primal_init_canonical_form
    (costs : list Q) (constraints : list (list Q)) (requirements : list Q) :
  let p := PrimalProblem.init costs constraints requirements in
  let g := GeneralizedPrimalProblem.init costs constraints requirements in
  (PrimalProblem.costs p = costs /\
   negated_matrix (PrimalProblem.constraints p) constraints /\
   negated (PrimalProblem.requirements p) requirements) /\
  (GeneralizedPrimalProblem.costs g = costs /\
   negated_matrix (GeneralizedPrimalProblem.constraints g) constraints /\
   negated (GeneralizedPrimalProblem.requirements g) requirements).
Proof.
  cbn. repeat split; auto using negated_map, negated_matrix_map.
Qed.

Lemma column_length (j : nat) (A : list (list Q)) :
  length (Np.column j A) = length A.
Proof. unfold Np.column. apply length_map. Qed.

Lemma column_nth (i j : nat) (A : list (list Q)) :
  (i < length A)%nat ->
  nth i (Np.column j A) 0%Q = nth j (nth i A []) 0%Q.
Proof.
  intros Hi. unfold Np.column.
  rewrite (nth_indep _ 0%Q (nth j [] 0%Q)) by (rewrite length_map; exact Hi).
  rewrite (List.map_nth (fun row => nth j row 0%Q)). reflexivity.
Qed.

Lemma columns_transpose (A : list (list Q)) :
  transpose_of (length A) (Np.ncols A)
    (map (fun j => Np.column j A) (seq 0 (Np.ncols A))) A.
Proof.
  split; [|split].
  - rewrite length_map, length_seq. reflexivity.
  - apply Forall_map, Forall_forall. intros j _. apply column_length.
  - intros i j Hi Hj.
    rewrite (nth_indep _ [] (Np.column 0 A))
      by (rewrite length_map, length_seq; exact Hj).
    rewrite (List.map_nth (fun j => Np.column j A)).
    rewrite seq_nth by exact Hj. simpl. apply column_nth, Hi.
Qed.

Lemma copy_rows (A : list (list Q)) :
  map (fun row => map (fun v => v) row) A = A.
Proof.
  induction A as [|row A IH]; simpl; [reflexivity|].
  rewrite IH. f_equal. apply List.map_id.
Qed.

Lemma transpose_rectangular (A : list (list Q)) :
  Np.rectangular A = true ->
  exists At, Np.transpose A = Py.Ok At /\
             transpose_of (length A) (Np.ncols A) At A.
Proof.
  intros Hrect. unfold Np.transpose. rewrite Hrect.
  eexists. split; [reflexivity|]. apply columns_transpose.
Qed.

(** C2.  Building the dual problem, basic or generalized, from a constraint
    matrix (a nested list with rows of one length) succeeds; its objective
    is the negated requirement vector, its inequality matrix the transpose
    of the constraints as given (entry (j,i) is entry (i,j), no sign
    flip), its right-hand side the cost vector as given.  When the solver
    succeeds, [solve] reports the negation of the minimised objective. *)
Theorem dual_init_canonical_form
    (costs : list Q) (constraints : list (list Q)) (requirements : list Q) :
  Np.rectangular constraints = true ->
  (exists d,
     DualProblem.init costs constraints requirements = Py.Ok d /\
     negated (DualProblem.costs d) requirements /\
     transpose_of (length constraints) (Np.ncols constraints)
       (DualProblem.constraints d) constraints /\
     DualProblem.requirements d = costs /\
     forall linprog r out,
       LP.succeeds_at linprog (DualProblem.costs d) (DualProblem.constraints d)
         (DualProblem.requirements d) r ->
       DualProblem.solve linprog d out
       = (Py.Ok (Some (Scipy.x r), Some (- Scipy.fun_ r)%Q), out)) /\
  (exists g,
     GeneralizedDualProblem.init costs constraints requirements = Py.Ok g /\
     negated (GeneralizedDualProblem.costs g) requirements /\
     transpose_of (length constraints) (Np.ncols constraints)
       (GeneralizedDualProblem.constraints g) constraints /\
     GeneralizedDualProblem.requirements g = costs /\
     forall linprog r out,
       LP.succeeds_at linprog (GeneralizedDualProblem.costs g)
         (GeneralizedDualProblem.constraints g)
         (GeneralizedDualProblem.requirements g) r ->
       GeneralizedDualProblem.solve linprog g out
       = (Py.Ok (Some (Scipy.x r), Some (- Scipy.fun_ r)%Q), out)).
Proof.
  intros Hrect.
  destruct (transpose_rectangular constraints Hrect) as (At & HAt & Htr).
  split.
  - unfold DualProblem.init. rewrite HAt. eexists. split; [reflexivity|].
    cbn [DualProblem.costs DualProblem.constraints DualProblem.requirements].
    repeat split; try apply Htr; auto using negated_map.
    intros linprog r out [Hr Hs].
    unfold DualProblem.solve, Py.bind, Py.lift. cbn. rewrite Hr, Hs. reflexivity.
  - unfold GeneralizedDualProblem.init. rewrite HAt. eexists. split; [reflexivity|].
    cbn [GeneralizedDualProblem.costs GeneralizedDualProblem.constraints
         GeneralizedDualProblem.requirements].
    rewrite copy_rows.
    repeat split; try apply Htr; auto using negated_map.
    intros linprog r out [Hr Hs].
    unfold GeneralizedDualProblem.solve, Py.bind, Py.lift. cbn.
    rewrite Hr, Hs. reflexivity.
Qed.

End Formulation.

(** The dual of scenario 1 is built, with the cost vector as right-hand side. *)
Lemma dual_init_canonical_form_witness :
  Np.rectangular ResolutionApp.base_constraints = true /\
  exists d,
    Question.DualProblem.init ResolutionApp.base_costs
      ResolutionApp.base_constraints ResolutionApp.base_requirements = Py.Ok d /\
    Question.DualProblem.requirements d = ResolutionApp.base_costs.
Proof.
  split; [reflexivity|].
  destruct (dual_init_canonical_form ResolutionApp.base_costs
              ResolutionApp.base_constraints ResolutionApp.base_requirements
              eq_refl) as [(d & Hd & _ & _ & Hreq & _) _].
  exists d. split; assumption.
Defined.

(** ** Solving *)

Section Solving.
Import Question Generalisation.
Variable linprog : Scipy.linprog_t.

(** C4.  When the solver reports failure on the stored coefficients
    (c, A_ub, b_ub), [solve] of each of the four classes returns the pair
    (None, None), raises nothing, and prints one diagnostic line. *)
Theorem solve_failure_sentinel
    (c : list Q) (A_ub : list (list Q)) (b_ub : list Q) (out : Py.stdout) :
  LP.fails_at linprog c A_ub b_ub ->
  PrimalProblem.solve linprog
    {| PrimalProblem.costs := c; PrimalProblem.constraints := A_ub;
       PrimalProblem.requirements := b_ub |} out
  = (Py.Ok (None, None), out ++ ["Pas de solution optimale."]) /\
  DualProblem.solve linprog
    {| DualProblem.costs := c; DualProblem.constraints := A_ub;
       DualProblem.requirements := b_ub |} out
  = (Py.Ok (None, None), out ++ ["Pas de solution optimale pour le dual."]) /\
  GeneralizedPrimalProblem.solve linprog
    {| GeneralizedPrimalProblem.costs := c;
       GeneralizedPrimalProblem.constraints := A_ub;
       GeneralizedPrimalProblem.requirements := b_ub |} out
  = (Py.Ok (None, None), out ++ ["Aucune solution optimale trouvée"]) /\
  GeneralizedDualProblem.solve linprog
    {| GeneralizedDualProblem.costs := c;
       GeneralizedDualProblem.constraints := A_ub;
       GeneralizedDualProblem.requirements := b_ub |} out
  = (Py.Ok (None, None), out ++ ["Aucune solution optimale trouvée"]).
Proof.
  intros (r & Hr & Hs).
  unfold PrimalProblem.solve, DualProblem.solve,
    GeneralizedPrimalProblem.solve, GeneralizedDualProblem.solve,
    Py.bind, Py.lift, Py.print, Py.ret.
  cbn. rewrite Hr, Hs. repeat split.
Qed.

(** What [solve] returns in terms of the solver's answer. *)
Lemma primal_solve_success (p : PrimalProblem.t) r out :
  LP.succeeds_at linprog (PrimalProblem.costs p) (PrimalProblem.constraints p)
    (PrimalProblem.requirements p) r ->
  PrimalProblem.solve linprog p out
  = (Py.Ok (Some (Scipy.x r), Some (Scipy.fun_ r)), out).
Proof.
  intros [Hr Hs]. unfold PrimalProblem.solve, Py.bind, Py.lift.
  rewrite Hr, Hs. reflexivity.
Qed.

Lemma dual_solve_success (d : DualProblem.t) r out :
  LP.succeeds_at linprog (DualProblem.costs d) (DualProblem.constraints d)
    (DualProblem.requirements d) r ->
  DualProblem.solve linprog d out
  = (Py.Ok (Some (Scipy.x r), Some (- Scipy.fun_ r)%Q), out).
Proof.
  intros [Hr Hs]. unfold DualProblem.solve, Py.bind, Py.lift.
  rewrite Hr, Hs. reflexivity.
Qed.

Lemma primal_solve_failure (p : PrimalProblem.t) out :
  LP.fails_at linprog (PrimalProblem.costs p) (PrimalProblem.constraints p)
    (PrimalProblem.requirements p) ->
  PrimalProblem.solve linprog p out
  = (Py.Ok (None, None), out ++ ["Pas de solution optimale."]).
Proof.
  intros (r & Hr & Hs). unfold PrimalProblem.solve, Py.bind, Py.lift.
  rewrite Hr, Hs. reflexivity.
Qed.

Lemma dual_solve_failure (d : DualProblem.t) out :
  LP.fails_at linprog (DualProblem.costs d) (DualProblem.constraints d)
    (DualProblem.requirements d) ->
  DualProblem.solve linprog d out
  = (Py.Ok (None, None), out ++ ["Pas de solution optimale pour le dual."]).
Proof.
  intros (r & Hr & Hs). unfold DualProblem.solve, Py.bind, Py.lift.
  rewrite Hr, Hs. reflexivity.
Qed.

Lemma gprimal_solve_cases (p : GeneralizedPrimalProblem.t) r out :
  linprog (GeneralizedPrimalProblem.costs p)
    (GeneralizedPrimalProblem.constraints p)
    (GeneralizedPrimalProblem.requirements p) = Py.Ok r ->
  GeneralizedPrimalProblem.solve linprog p out
  = if Scipy.success r
    then (Py.Ok (Some (Scipy.x r), Some (Scipy.fun_ r)), out)
    else (Py.Ok (None, None), out ++ ["Aucune solution optimale trouvée"]).
Proof.
  intros Hr. unfold GeneralizedPrimalProblem.solve, Py.bind, Py.lift.
  rewrite Hr. destruct (Scipy.success r); reflexivity.
Qed.

Lemma gdual_solve_cases (d : GeneralizedDualProblem.t) r out :
  linprog (GeneralizedDualProblem.costs d)
    (GeneralizedDualProblem.constraints d)
    (GeneralizedDualProblem.requirements d) = Py.Ok r ->
  GeneralizedDualProblem.solve linprog d out
  = if Scipy.success r
    then (Py.Ok (Some (Scipy.x r), Some (- Scipy.fun_ r)%Q), out)
    else (Py.Ok (None, None), out ++ ["Aucune solution optimale trouvée"]).
Proof.
  intros Hr. unfold GeneralizedDualProblem.solve, Py.bind, Py.lift.
  rewrite Hr. destruct (Scipy.success r); reflexivity.
Qed.
(** C8.  Against a solver that returns a solution vector of the length of
    its coefficient vector, on an input for which the solver reports
    success for the primal and for the dual: the dual is built, each of
    the four [solve] methods returns the solver's vector and value (the
    dual value negated), there are as many lot quantities as costs and as
    many unit prices as requirements. *)
Theorem solution_shapes
    (costs : list Q) (constraints : list (list Q)) (requirements : list Q)
    (r1 r2 : Scipy.OptimizeResult) (out : Py.stdout) :
  (forall c A_ub b_ub r, LP.succeeds_at linprog c A_ub b_ub r ->
     length (Scipy.x r) = length c) ->
  Call.succeeded (Call.primal linprog costs constraints requirements) r1 ->
  Call.succeeded (Call.dual linprog costs constraints requirements) r2 ->
  exists d g,
    DualProblem.init costs constraints requirements = Py.Ok d /\
    GeneralizedDualProblem.init costs constraints requirements = Py.Ok g /\
    PrimalProblem.solve linprog
      (PrimalProblem.init costs constraints requirements) out
    = (Py.Ok (Some (Scipy.x r1), Some (Scipy.fun_ r1)), out) /\
    GeneralizedPrimalProblem.solve linprog
      (GeneralizedPrimalProblem.init costs constraints requirements) out
    = (Py.Ok (Some (Scipy.x r1), Some (Scipy.fun_ r1)), out) /\
    DualProblem.solve linprog d out
    = (Py.Ok (Some (Scipy.x r2), Some (- Scipy.fun_ r2)%Q), out) /\
    GeneralizedDualProblem.solve linprog g out
    = (Py.Ok (Some (Scipy.x r2), Some (- Scipy.fun_ r2)%Q), out) /\
    length (Scipy.x r1) = length costs /\
    length (Scipy.x r2) = length requirements.
Proof.
  intros Hshape [Hr1 Hs1] [Hr2 Hs2].
  unfold Call.primal in Hr1. unfold Call.dual in Hr2.
  destruct (DualProblem.init costs constraints requirements) as [d|e] eqn:Hd;
    [|discriminate].
  assert (Hg : GeneralizedDualProblem.init costs constraints requirements
               = Py.Ok {| GeneralizedDualProblem.costs := DualProblem.costs d;
                          GeneralizedDualProblem.constraints :=
                            DualProblem.constraints d;
                          GeneralizedDualProblem.requirements :=
                            DualProblem.requirements d |}).
  { unfold DualProblem.init in Hd. unfold GeneralizedDualProblem.init.
    destruct (Np.transpose constraints) as [At|e]; [|discriminate].
    injection Hd as <-. cbn. rewrite copy_rows. reflexivity. }
  eexists d, _. split; [reflexivity|]. split; [exact Hg|].
  split; [apply primal_solve_success; split; assumption|].
  split; [rewrite (gprimal_solve_cases
                     (GeneralizedPrimalProblem.init costs constraints requirements)
                     r1 out Hr1), Hs1; reflexivity|].
  split; [apply dual_solve_success; split; assumption|].
  split; [rewrite (gdual_solve_cases
                     {| GeneralizedDualProblem.costs := DualProblem.costs d;
                        GeneralizedDualProblem.constraints :=
                          DualProblem.constraints d;
                        GeneralizedDualProblem.requirements :=
                          DualProblem.requirements d |} r2 out Hr2), Hs2;
          reflexivity|].
  split.
  - exact (Hshape _ _ _ r1 (conj Hr1 Hs1)).
  - rewrite (Hshape _ _ _ r2 (conj Hr2 Hs2)).
    unfold DualProblem.init in Hd.
    destruct (Np.transpose constraints) as [At|e]; [|discriminate].
    injection Hd as <-. cbn. apply length_map.
Qed.

End Solving.

(** Scenario 1 against a solver that reports failure. *)
Lemma solve_failure_sentinel_witness :
  Question.PrimalProblem.solve Oracle.always_fails
    (Question.PrimalProblem.init ResolutionApp.base_costs
       ResolutionApp.base_constraints ResolutionApp.base_requirements) []
  = (Py.Ok (None, None), ["Pas de solution optimale."]).
Proof.
  apply (solve_failure_sentinel Oracle.always_fails).
  eexists. split; reflexivity.
Defined.

(** Scenario 1 against a solver that answers with a zero vector: three
    lot quantities from the basic primal, five unit prices from the
    generalized dual. *)
Lemma solution_shapes_witness :
  exists lots cost prices profit g,
    Question.PrimalProblem.solve Oracle.zero_solution
      (Question.PrimalProblem.init ResolutionApp.base_costs
         ResolutionApp.base_constraints ResolutionApp.base_requirements) []
    = (Py.Ok (Some lots, Some cost), []) /\
    length lots = 3%nat /\
    Generalisation.GeneralizedDualProblem.init ResolutionApp.base_costs
      ResolutionApp.base_constraints ResolutionApp.base_requirements = Py.Ok g /\
    Generalisation.GeneralizedDualProblem.solve Oracle.zero_solution g []
    = (Py.Ok (Some prices, Some profit), []) /\
    length prices = 5%nat.
Proof.
  assert (Hshape : forall c A_ub b_ub r,
             LP.succeeds_at Oracle.zero_solution c A_ub b_ub r ->
             length (Scipy.x r) = length c).
  { intros c A_ub b_ub r [Hr _]. injection Hr as <-. cbn. apply length_map. }
  destruct (solution_shapes Oracle.zero_solution ResolutionApp.base_costs
              ResolutionApp.base_constraints ResolutionApp.base_requirements
              {| Scipy.success := true; Scipy.x := [0; 0; 0]%Q; Scipy.fun_ := 0%Q |}
              {| Scipy.success := true; Scipy.x := [0; 0; 0; 0; 0]%Q;
                 Scipy.fun_ := 0%Q |} [] Hshape)
    as (d & g & _ & Hg & Hp & _ & _ & Hgd & Hl1 & Hl2).
  - split; reflexivity.
  - split; reflexivity.
  - eexists _, _, _, _, g.
    split; [exact Hp|]. split; [exact Hl1|]. split; [exact Hg|].
    split; [exact Hgd|exact Hl2].
Defined.

(** ** Display of the dual solution *)

Section Display.
Import Builtins.

Lemma dual_step_fold (l : list (string * Q * Q)) (acc : list GeneralisationApp.DualRow * Q) :
  fst (fold_left GeneralisationApp.dual_step l acc)
  = fst acc ++
    map (fun apr : string * Q * Q =>
           let '(arme, price, req) := apr in
           {| GeneralisationApp.dr_arme := arme;
              GeneralisationApp.dr_price := Py.round price 5;
              GeneralisationApp.dr_profit := Py.round (price * req) 5 |}) l /\
  snd (fold_left GeneralisationApp.dual_step l acc)
  = fold_left (fun (s : Q) (apr : string * Q * Q) =>
                 let '(_, price, req) := apr in (s + price * req)%Q) l (snd acc).
Proof.
  revert acc. induction l as [|[[arme price] req] l IH]; intros acc.
  - cbn. rewrite app_nil_r. split; reflexivity.
  - cbn [fold_left]. destruct (IH (GeneralisationApp.dual_step acc (arme, price, req)))
      as [IH1 IH2].
    rewrite IH1, IH2. cbn. rewrite <- app_assoc. split; reflexivity.
Qed.

(** C6.  The basic display derives a weapon's benefit from its name alone:
    price times 100000 for "fusils", times 200000 for "Grenades", zero for
    any other name; the requirement vector is not an argument, and for
    "Chars" in scenario 1 the value differs from price times requirement.
    The generalized display shows price times requirement for every
    weapon and returns their sum. *)
Theorem dual_display_benefit :
  (forall price, ResolutionApp.benefit "fusils" price = (price * 100000)%Q) /\
  (forall price, ResolutionApp.benefit "Grenades" price = (price * 200000)%Q) /\
  (forall arme price, arme <> "fusils"%string -> arme <> "Grenades"%string ->
     ResolutionApp.benefit arme price = 0%Q) /\
  (forall prices profit out,
     ResolutionApp.display_dual_results (Some prices) (Some profit) out
     = (Py.Ok
          (map (fun ap : string * Q =>
                  {| ResolutionApp.dr_arme := fst ap;
                     ResolutionApp.dr_price := Py.round (snd ap * 1000000) 5;
                     ResolutionApp.dr_benefit :=
                       Py.round (ResolutionApp.benefit (fst ap) (snd ap) * 1000000) 4 |})
               (zip2 ResolutionApp.armes prices),
           Py.round profit 4),
        out ++ [String.append nl
          "Voici la solution optimale du problème de maximisation du bénéfice de DETAILIN :"])) /\
  ~ (ResolutionApp.benefit "Chars" 1
     == 1 * nth 2 ResolutionApp.base_requirements 0)%Q /\
  (forall prices requirements armes out,
     exists out',
       GeneralisationApp.display_dual_solution (Some prices) requirements armes out
       = (Py.Ok
            (map (fun apr : string * Q * Q =>
                    let '(arme, price, req) := apr in
                    {| GeneralisationApp.dr_arme := arme;
                       GeneralisationApp.dr_price := Py.round price 5;
                       GeneralisationApp.dr_profit := Py.round (price * req) 5 |})
                 (zip3 armes prices requirements),
             fold_left (fun (s : Q) (apr : string * Q * Q) =>
                          let '(_, price, req) := apr in (s + price * req)%Q)
               (zip3 armes prices requirements) 0%Q),
          out')).
Proof.
  repeat split.
  - intros arme price Hf Hg. unfold ResolutionApp.benefit.
    destruct (String.eqb_spec arme "fusils"); [contradiction|].
    destruct (String.eqb_spec arme "Grenades"); [contradiction|].
    reflexivity.
  - intros prices profit out.
    unfold ResolutionApp.display_dual_results, Py.bind, Py.print, Py.not_none, Py.ret.
    cbn. do 3 f_equal.
    apply map_ext. intros [arme price]. reflexivity.
  - cbn. intros H. discriminate H.
  - intros prices requirements armes out. eexists.
    unfold GeneralisationApp.display_dual_solution, GeneralisationApp.banner,
      Py.bind, Py.print, Py.not_none, Py.ret.
    cbn.
    destruct (dual_step_fold (zip3 armes prices requirements) (nil, 0%Q)) as [H1 H2].
    rewrite (surjective_pairing (fold_left _ _ _)), H1, H2. reflexivity.
Qed.

End Display.

(** A weapon that is neither "fusils" nor "Grenades" is shown with benefit 0. *)
Lemma dual_display_benefit_witness :
  ResolutionApp.benefit "bazookas" 7 = 0%Q.
Proof.
  apply (proj1 (proj2 (proj2 dual_display_benefit))); discriminate.
Defined.

(** ** The sensitivity sweep of the basic script *)

Section BasicSweep.
Import Question Builtins.
Variable linprog : Scipy.linprog_t.

Lemma dual_call_init costs constraints requirements r :
  Call.dual linprog costs constraints requirements = Py.Ok r ->
  exists d, DualProblem.init costs constraints requirements = Py.Ok d /\
            linprog (DualProblem.costs d) (DualProblem.constraints d)
              (DualProblem.requirements d) = Py.Ok r.
Proof.
  unfold Call.dual.
  destruct (DualProblem.init costs constraints requirements) as [d|e];
    [|discriminate].
  intros H. exists d. split; [reflexivity|exact H].
Qed.

(** One iteration when both solves succeed. *)
Lemma sweep_body_success constraints requirements price st out c1 r1 r2 :
  setitem (ResolutionApp.costs st) 0 (inject_Z price) = Py.Ok c1 ->
  Call.succeeded (Call.primal linprog c1 constraints requirements) r1 ->
  Call.succeeded (Call.dual linprog c1 constraints requirements) r2 ->
  exists st',
    ResolutionApp.sweep_body linprog constraints requirements price st out
    = (Py.Ok st', out) /\
    ResolutionApp.costs st' = c1 /\
    ResolutionApp.cost_totals st'
    = ResolutionApp.cost_totals st ++ [Some (Scipy.fun_ r1)] /\
    ResolutionApp.profit_totals st'
    = ResolutionApp.profit_totals st ++ [(- Scipy.fun_ r2 * 1000000)%Q].
Proof.
  intros Hset [Hp Hps] [Hd Hds].
  destruct (dual_call_init _ _ _ _ Hd) as (d & Hinit & Hlin).
  unfold ResolutionApp.sweep_body.
  unfold Py.bind at 1. unfold Py.lift at 1. rewrite Hset.
  unfold Py.bind at 1.
  rewrite (primal_solve_success linprog _ r1) by (split; assumption).
  unfold Py.bind at 1. unfold Py.lift at 1. rewrite Hinit.
  unfold Py.bind at 1.
  rewrite (dual_solve_success linprog _ r2) by (split; assumption).
  cbn. eexists. split; [reflexivity|]. cbn. repeat split.
Qed.

(** C9.  In an iteration of the basic sweep in which both solves succeed,
    the entry appended to the cost trajectory is the primal cost as
    returned, the entry appended to the profit trajectory is the dual
    profit times 1000000; so when cost and profit agree at that point,
    the profit entry is 1000000 times the cost entry. *)
Theorem sweep_profit_scaled constraints requirements price st out c1 r1 r2 :
  setitem (ResolutionApp.costs st) 0 (inject_Z price) = Py.Ok c1 ->
  Call.succeeded (Call.primal linprog c1 constraints requirements) r1 ->
  Call.succeeded (Call.dual linprog c1 constraints requirements) r2 ->
  let cost := Scipy.fun_ r1 in
  let profit := (- Scipy.fun_ r2)%Q in
  exists st',
    ResolutionApp.sweep_body linprog constraints requirements price st out
    = (Py.Ok st', out) /\
    ResolutionApp.cost_totals st'
    = ResolutionApp.cost_totals st ++ [Some cost] /\
    ResolutionApp.profit_totals st'
    = ResolutionApp.profit_totals st ++ [(profit * 1000000)%Q] /\
    ((cost == profit)%Q -> (profit * 1000000 == 1000000 * cost)%Q).
Proof.
  intros Hset Hp Hd cost profit.
  destruct (sweep_body_success constraints requirements price st out c1 r1 r2
              Hset Hp Hd) as (st' & Hrun & _ & Hc & Hpr).
  exists st'. repeat split; try assumption.
  intros Heq. rewrite Heq. ring.
Qed.

(** One iteration when a solve reports failure: [TypeError], from
    [profit * 1000000] or from the iteration over [lots]. *)
Lemma sweep_body_failure constraints requirements price st out c1 r1 r2 :
  setitem (ResolutionApp.costs st) 0 (inject_Z price) = Py.Ok c1 ->
  Call.primal linprog c1 constraints requirements = Py.Ok r1 ->
  Call.dual linprog c1 constraints requirements = Py.Ok r2 ->
  Scipy.success r1 = false \/ Scipy.success r2 = false ->
  exists out',
    ResolutionApp.sweep_body linprog constraints requirements price st out
    = (Py.Raise Py.TypeError, out').
Proof.
  intros Hset Hr1 Hr2 Hfail.
  destruct (dual_call_init _ _ _ _ Hr2) as (d & Hinit & Hlin).
  unfold Call.primal in Hr1.
  unfold ResolutionApp.sweep_body.
  unfold Py.bind at 1. unfold Py.lift at 1. rewrite Hset.
  unfold Py.bind at 1.
  unfold PrimalProblem.solve at 1.
  unfold Py.bind at 1. unfold Py.lift at 1.
  rewrite Hr1.
  unfold DualProblem.solve.
  destruct (Scipy.success r1) eqn:Hs1; cbn; rewrite Hinit; cbn;
    unfold Py.bind, Py.lift; rewrite Hlin;
    destruct (Scipy.success r2) eqn:Hs2; cbn; eauto.
  exfalso. destruct Hfail; discriminate.
Qed.

End BasicSweep.

Section BasicSweepRun.
Import Question Builtins.
Variable linprog : Scipy.linprog_t.
Variables R1 R2 : Z -> Scipy.OptimizeResult.
Variable constraints : list (list Q).
Variable requirements : list Q.

(** The whole loop when both solves succeed at every price of [ps]. *)
Lemma basic_sweep_run (ps : list Z) (rest : list Q) :
  (forall p, In p ps ->
     Call.succeeded (Call.primal linprog (inject_Z p :: rest) constraints requirements) (R1 p) /\
     Call.succeeded (Call.dual linprog (inject_Z p :: rest) constraints requirements) (R2 p)) ->
  forall st out c0,
    ResolutionApp.costs st = c0 :: rest ->
    exists st',
      Py.for_each ps (ResolutionApp.sweep_body linprog constraints requirements) st out
      = (Py.Ok st', out) /\
      ResolutionApp.cost_totals st'
      = ResolutionApp.cost_totals st ++ map (fun p => Some (Scipy.fun_ (R1 p))) ps /\
      ResolutionApp.profit_totals st'
      = ResolutionApp.profit_totals st
        ++ map (fun p => (- Scipy.fun_ (R2 p) * 1000000)%Q) ps.
Proof.
  induction ps as [|p ps IH]; intros Hall st out c0 Hcosts.
  - exists st. cbn. rewrite !app_nil_r. repeat split.
  - destruct (Hall p (or_introl eq_refl)) as [Hp Hd].
    assert (Hset : setitem (ResolutionApp.costs st) 0 (inject_Z p)
                   = Py.Ok (inject_Z p :: rest)).
    { rewrite Hcosts. reflexivity. }
    destruct (sweep_body_success linprog constraints requirements p st out
                _ _ _ Hset Hp Hd) as (st1 & Hrun & Hc1 & Hct & Hpt).
    destruct (IH (fun q Hq => Hall q (or_intror Hq)) st1 out (inject_Z p) Hc1)
      as (st' & Hrun' & Hct' & Hpt').
    exists st'. cbn [Py.for_each]. unfold Py.bind at 1. rewrite Hrun.
    split; [exact Hrun'|].
    rewrite Hct', Hpt', Hct, Hpt. cbn [map]. rewrite <- !app_assoc.
    split; reflexivity.
Qed.

End BasicSweepRun.

(** ** The sensitivity sweep of the generalized script *)

Section GeneralizedSweep.
Import Generalisation Builtins.
Variable linprog : Scipy.linprog_t.
Variables R1 R2 : Z -> Scipy.OptimizeResult.
Variable constraints : list (list Q).
Variable requirements : list Q.

Lemma gdual_call_init costs r :
  Call.gdual linprog costs constraints requirements = Py.Ok r ->
  exists d, GeneralizedDualProblem.init costs constraints requirements = Py.Ok d /\
            linprog (GeneralizedDualProblem.costs d)
              (GeneralizedDualProblem.constraints d)
              (GeneralizedDualProblem.requirements d) = Py.Ok r.
Proof.
  unfold Call.gdual.
  destruct (GeneralizedDualProblem.init costs constraints requirements) as [d|e];
    [|discriminate].
  intros H. exists d. split; [reflexivity|exact H].
Qed.

(** One iteration: whatever the two answers, the loop goes on. *)
Lemma gsweep_body_run costs c1 new_price st out r1 r2 :
  setitem costs 0 (inject_Z new_price) = Py.Ok c1 ->
  Call.gprimal linprog c1 constraints requirements = Py.Ok r1 ->
  Call.gdual linprog c1 constraints requirements = Py.Ok r2 ->
  exists out',
    GeneralisationApp.sweep_body linprog costs constraints requirements
      new_price st out
    = (Py.Ok
         {| GeneralisationApp.cost_totals :=
              GeneralisationApp.cost_totals st ++ [recorded r1 (Scipy.fun_ r1)];
            GeneralisationApp.profit_totals :=
              GeneralisationApp.profit_totals st
              ++ [recorded r2 (- Scipy.fun_ r2)%Q] |},
       out').
Proof.
  intros Hset Hr1 Hr2.
  destruct (gdual_call_init _ _ Hr2) as (d & Hinit & Hlin).
  unfold GeneralisationApp.sweep_body.
  unfold Py.bind at 1. unfold Py.lift at 1. rewrite Hset.
  unfold Py.bind at 1.
  rewrite (gprimal_solve_cases linprog _ r1) by exact Hr1.
  unfold recorded.
  destruct (Scipy.success r1); cbn; rewrite Hinit; cbn;
    unfold Py.bind at 1;
    rewrite (gdual_solve_cases linprog _ r2) by exact Hlin;
    destruct (Scipy.success r2); cbn; eexists; reflexivity.
Qed.

Lemma gsweep_run (ps : list Z) (c0 : Q) (rest : list Q) :
  (forall p, In p ps ->
     Call.gprimal linprog (inject_Z p :: rest) constraints requirements = Py.Ok (R1 p) /\
     Call.gdual linprog (inject_Z p :: rest) constraints requirements = Py.Ok (R2 p)) ->
  forall st out,
    exists out',
      Py.for_each ps
        (GeneralisationApp.sweep_body linprog (c0 :: rest) constraints requirements)
        st out
      = (Py.Ok
           {| GeneralisationApp.cost_totals :=
                GeneralisationApp.cost_totals st
                ++ map (fun p => recorded (R1 p) (Scipy.fun_ (R1 p))) ps;
              GeneralisationApp.profit_totals :=
                GeneralisationApp.profit_totals st
                ++ map (fun p => recorded (R2 p) (- Scipy.fun_ (R2 p))%Q) ps |},
         out').
Proof.
  induction ps as [|p ps IH]; intros Hall st out.
  - exists out. cbn. rewrite !app_nil_r. destruct st; reflexivity.
  - destruct (Hall p (or_introl eq_refl)) as [Hp Hd].
    destruct (gsweep_body_run (c0 :: rest) _ p st out _ _ eq_refl Hp Hd)
      as (out1 & Hrun).
    cbn [Py.for_each]. unfold Py.bind at 1. rewrite Hrun.
    destruct (IH (fun q Hq => Hall q (or_intror Hq))
                {| GeneralisationApp.cost_totals :=
                     GeneralisationApp.cost_totals st
                     ++ [recorded (R1 p) (Scipy.fun_ (R1 p))];
                   GeneralisationApp.profit_totals :=
                     GeneralisationApp.profit_totals st
                     ++ [recorded (R2 p) (- Scipy.fun_ (R2 p))%Q] |} out1)
      as (out' & Hrun').
    exists out'. rewrite Hrun'. cbn. rewrite <- !app_assoc. reflexivity.
Qed.

End GeneralizedSweep.

Lemma range_length (lo hi : Z) : length (Py.range lo hi) = Z.to_nat (hi - lo).
Proof. unfold Py.range. rewrite length_map, length_seq. reflexivity. Qed.

Lemma lookup_map_some {A B} (f : A -> B) (l : list A) (i : nat) (a : A) :
  l !! i = Some a -> map f l !! i = Some (f a).
Proof.
  intros H. change (map f l) with (f <$> l).
  rewrite list_lookup_fmap, H. reflexivity.
Qed.


(** ** Linear programs: certificates of optimality *)

Section Certificates.
Import LP.
Local Open Scope Q_scope.

Lemma dot_nil_r (u : list Q) : dot u [] = 0.
Proof. destruct u; reflexivity. Qed.

Lemma dot_vadd (u v x : list Q) : dot (vadd u v) x == dot u x + dot v x.
Proof.
  revert v x. induction u as [|a u IH]; intros v x.
  - cbn. ring.
  - destruct v as [|b v].
    + destruct x; cbn; ring.
    + destruct x as [|t x]; cbn; [ring|]. rewrite IH. ring.
Qed.

Lemma dot_scale (k : Q) (u x : list Q) : dot (scale k u) x == k * dot u x.
Proof.
  revert x. induction u as [|a u IH]; intros x; cbn; [ring|].
  destruct x as [|t x]; cbn; [ring|]. unfold scale in IH. rewrite IH. ring.
Qed.

Lemma dot_comb (y : list Q) (A : list (list Q)) (x : list Q) :
  dot (comb y A) x == dot y (map (fun row => dot row x) A).
Proof.
  revert A. induction y as [|k y IH]; intros A; [reflexivity|].
  destruct A as [|row A]; [reflexivity|].
  cbn [comb map dot]. rewrite dot_vadd, dot_scale, IH. reflexivity.
Qed.

Lemma forallb_nonneg (x : list Q) :
  forallb (Qle_bool 0) x = true -> Forall (fun v => 0 <= v) x.
Proof.
  induction x as [|t x IH]; cbn; intros H; constructor.
  - apply Qle_bool_iff. destruct (Qle_bool 0 t); [reflexivity|discriminate].
  - apply IH. destruct (Qle_bool 0 t); [exact H|discriminate].
Qed.

Lemma all2_Forall2 {A B} (f : A -> B -> bool) (l1 : list A) (l2 : list B) :
  all2 f l1 l2 = true -> Forall2 (fun a b => f a b = true) l1 l2.
Proof.
  revert l2. induction l1 as [|a l1 IH]; intros [|b l2]; cbn; intros H;
    try discriminate; constructor.
  - destruct (f a b); [reflexivity|discriminate].
  - apply IH. destruct (f a b); [exact H|discriminate].
Qed.

Lemma feasibleb_sound (A_ub : list (list Q)) (b_ub x : list Q) :
  feasibleb A_ub b_ub x = true -> feasible A_ub b_ub x.
Proof.
  unfold feasibleb, feasible. intros H.
  apply andb_prop in H as [H1 H2]. split.
  - apply all2_Forall2 in H1.
    eapply Forall2_impl; [exact H1|]. intros row b Hb. apply Qle_bool_iff, Hb.
  - apply forallb_nonneg, H2.
Qed.

(** [y >= 0] and [v <= w] entrywise give [y.v <= y.w]. *)
Lemma dot_le_compat (y v w : list Q) :
  Forall (fun k => 0 <= k) y -> Forall2 Qle v w -> dot y v <= dot y w.
Proof.
  intros Hy Hvw. revert y Hy.
  induction Hvw as [|a b v w Hab Hvw IH]; intros y Hy.
  - rewrite !dot_nil_r. apply Qle_refl.
  - destruct y as [|k y]; cbn; [apply Qle_refl|].
    inversion Hy as [|? ? Hk Hy']; subst.
    specialize (IH y Hy'). nra.
Qed.

(** [c + a >= 0] entrywise and [x >= 0] give [0 <= c.x + a.x]. *)
Lemma dot_slack_nonneg (c a x : list Q) :
  Forall2 (fun cj aj => 0 <= cj + aj) c a ->
  Forall (fun v => 0 <= v) x ->
  0 <= dot c x + dot a x.
Proof.
  intros Hca. revert x.
  induction Hca as [|cj aj c a Hj Hca IH]; intros x Hx.
  - cbn. lra.
  - destruct x as [|t x]; cbn; [lra|].
    inversion Hx as [|? ? Ht Hx']; subst.
    specialize (IH x Hx'). nra.
Qed.

(** Weak duality for a [linprog] call: an admissible [x'] costs at least
    [- y.b_ub], for any multipliers [y >= 0] with [c + A_ub^T y >= 0]. *)
Lemma weak_duality (c : list Q) (A_ub : list (list Q)) (b_ub x' y : list Q) :
  feasible A_ub b_ub x' ->
  Forall (fun k => 0 <= k) y ->
  Forall2 (fun cj aj => 0 <= cj + aj) c (comb y A_ub) ->
  - dot y b_ub <= dot c x'.
Proof.
  intros [HA Hx] Hy Hslack.
  pose proof (dot_slack_nonneg _ _ _ Hslack Hx) as H1.
  rewrite dot_comb in H1.
  assert (H2 : dot y (map (fun row => dot row x') A_ub) <= dot y b_ub).
  { apply dot_le_compat; [exact Hy|].
    clear -HA. induction HA; cbn; constructor; assumption. }
  lra.
Qed.

Lemma certifies_optimal (c : list Q) (A_ub : list (list Q)) (b_ub x y : list Q) :
  certifies c A_ub b_ub x y = true ->
  optimal c A_ub b_ub
    {| Scipy.success := true; Scipy.x := x; Scipy.fun_ := dot c x |}.
Proof.
  unfold certifies. intros H.
  apply andb_prop in H as [H Hval].
  apply andb_prop in H as [H Hslack].
  apply andb_prop in H as [H Hy].
  apply andb_prop in H as [Hlen Hfeas].
  apply Qeq_bool_iff in Hval.
  split; cbn.
  - apply Nat.eqb_eq, Hlen.
  - apply feasibleb_sound, Hfeas.
  - reflexivity.
  - intros x' _ Hx'. rewrite Hval.
    apply (weak_duality c A_ub b_ub x' y); [exact Hx'|apply forallb_nonneg, Hy|].
    apply all2_Forall2 in Hslack.
    eapply Forall2_impl; [exact Hslack|].
    intros cj aj Hj. apply Qle_bool_iff, Hj.
Qed.

End Certificates.

(** ** Coverage and monotonicity of the basic sweep *)

Section Coverage.
Import Question Builtins.
Local Open Scope Q_scope.

Lemma range_lookup (lo hi : Z) (i : nat) (p : Z) :
  Py.range lo hi !! i = Some p -> p = (lo + Z.of_nat i)%Z.
Proof.
  unfold Py.range.
  change (map ?f ?l) with (f <$> l).
  rewrite list_lookup_fmap. intros H.
  apply fmap_Some in H as (k & Hk & ->).
  apply lookup_seq in Hk as [-> _]. reflexivity.
Qed.

Lemma lookup_In {A} (l : list A) (i : nat) (a : A) : l !! i = Some a -> In a l.
Proof. intros H. apply list_elem_of_In, list_elem_of_lookup. eauto. Qed.

(** Raising the first cost cannot lower the optimum: the optimum at the
    higher price is admissible at the lower one and costs less there. *)
Lemma optimum_monotone_in_first_cost (rest : list Q)
    (A_ub : list (list Q)) (b_ub : list Q) (p q : Q)
    (rp rq : Scipy.OptimizeResult) :
  p <= q ->
  LP.optimal (p :: rest) A_ub b_ub rp ->
  LP.optimal (q :: rest) A_ub b_ub rq ->
  Scipy.fun_ rp <= Scipy.fun_ rq.
Proof.
  intros Hpq [Hlp Hfp Hvp Hleast] [Hlq Hfq Hvq _].
  rewrite Hvp, Hvq.
  eapply Qle_trans; [apply (Hleast (Scipy.x rq)); [exact Hlq|exact Hfq]|].
  destruct (Scipy.x rq) as [|a xs]; [discriminate Hlq|].
  destruct Hfq as [_ Hnn]. inversion Hnn as [|? ? Ha _]; subst.
  cbn. nra.
Qed.

End Coverage.

(** The stand-in solver of scenario 1 is exact at every price of the sweep. *)
Lemma scenario1_exact (p : Z) :
  In p (Py.range 1 30) ->
  Call.primal_exact Oracle.scenario1 (inject_Z p :: [12; 15]%Q)
    ResolutionApp.base_constraints ResolutionApp.base_requirements
    (Oracle.scenario1_primal p) /\
  Call.dual_exact Oracle.scenario1 (inject_Z p :: [12; 15]%Q)
    ResolutionApp.base_constraints ResolutionApp.base_requirements
    (Oracle.scenario1_dual p).
Proof.
  intros Hp.
  assert (Hall : forallb Oracle.scenario1_certified (Py.range 1 30) = true)
    by (vm_compute; reflexivity).
  rewrite forallb_forall in Hall. specialize (Hall p Hp).
  unfold Oracle.scenario1_certified in Hall.
  apply andb_prop in Hall as [Hprimal Hdual].
  split.
  - unfold Call.primal_exact, LP.exact_at. cbn zeta.
    split; [reflexivity|]. split; [reflexivity|].
    apply (certifies_optimal _ _ _ _ _ Hprimal).
  - unfold Call.dual_exact.
    destruct (Question.DualProblem.init _ _ _) as [d|e] eqn:Hd; [|discriminate].
    exists d. split; [reflexivity|].
    injection Hd as <-.
    split; [reflexivity|]. split; [reflexivity|].
    apply (certifies_optimal _ _ _ _ _ Hdual).
Qed.

Lemma dual_exact_succeeded linprog costs constraints requirements r :
  Call.dual_exact linprog costs constraints requirements r ->
  Call.succeeded (Call.dual linprog costs constraints requirements) r.
Proof.
  intros (d & Hd & Hr & Hs & _). unfold Call.dual. rewrite Hd.
  split; assumption.
Qed.


(** ** The constructors on the store: nothing the caller holds is written *)

Section StoreFrame.
Import Store.

Lemma ret_extends {A} (a : A) : extends (ret a).
Proof. intros h a' h' [= <- <-]. reflexivity. Qed.

Lemma bind_extends {A B} (m : H A) (k : A -> H B) :
  extends m -> (forall a, extends (k a)) -> extends (bind m k).
Proof.
  intros Hm Hk h b h'. unfold bind.
  destruct (m h) as [[a h1]|e] eqn:E; [|discriminate].
  intros Hk'. transitivity h1; [eapply Hm, E|eapply Hk, Hk'].
Qed.

Lemma raise_extends {A} (e : Py.exn) : extends (@raise A e).
Proof. intros h a h'. discriminate. Qed.

Lemma lift_extends {A} (r : Py.result A) : extends (lift r).
Proof. intros h a h'. destruct r; cbn; [intros [= <- <-]; reflexivity|discriminate]. Qed.

Lemma alloc_fresh (o : obj) (h : heap) : h !! fresh (dom h) = None.
Proof. apply not_elem_of_dom, is_fresh. Qed.

Lemma alloc_extends (o : obj) : extends (alloc o).
Proof.
  intros h v h' [= <- <-]. apply insert_subseteq, (alloc_fresh o).
Qed.

Lemma alloc_allocates (o : obj) : allocates (alloc o).
Proof.
  intros h v h' [= <- <-]. eexists. split; [reflexivity|apply (alloc_fresh o)].
Qed.

Lemma items_of_same (v : val) h vs h' :
  items_of v h = Py.Ok (vs, h') -> h' = h.
Proof.
  unfold items_of. destruct v as [q|l]; [discriminate|].
  destruct (h !! l) as [[items|rows]|]; try discriminate.
  intros [= _ <-]. reflexivity.
Qed.

Lemma items_of_extends (v : val) : extends (items_of v).
Proof. intros h vs h' E. apply items_of_same in E as ->. reflexivity. Qed.

Lemma num_of_extends (v : val) : extends (num_of v).
Proof. destruct v; [apply ret_extends|apply raise_extends]. Qed.

Lemma mapH_extends {A B} (f : A -> H B) (l : list A) :
  (forall a, extends (f a)) -> extends (mapH f l).
Proof.
  intros Hf. induction l as [|a l IH]; cbn [mapH].
  - apply ret_extends.
  - apply bind_extends; [apply Hf|]. intros b.
    apply bind_extends; [exact IH|]. intros bs. apply ret_extends.
Qed.

Lemma neg_extends (v : val) : extends (neg v).
Proof.
  apply bind_extends; [apply num_of_extends|]. intros q. apply ret_extends.
Qed.

Lemma neg_list_extends (xs : val) : extends (neg_list xs).
Proof.
  apply bind_extends; [apply items_of_extends|]. intros vs.
  apply bind_extends; [apply mapH_extends, neg_extends|]. intros vs'.
  apply alloc_extends.
Qed.

Lemma neg_matrix_extends (m : val) : extends (neg_matrix m).
Proof.
  apply bind_extends; [apply items_of_extends|]. intros rows.
  apply bind_extends; [apply mapH_extends, neg_list_extends|]. intros rows'.
  apply alloc_extends.
Qed.

Lemma nested_extends (m : val) : extends (nested m).
Proof.
  apply bind_extends; [apply items_of_extends|]. intros rows.
  apply mapH_extends. intros row.
  apply bind_extends; [apply items_of_extends|]. intros vs.
  apply mapH_extends, num_of_extends.
Qed.

Lemma np_transpose_extends (m : val) : extends (np_transpose m).
Proof.
  apply bind_extends; [apply nested_extends|]. intros A.
  apply bind_extends; [apply lift_extends|]. intros At.
  apply alloc_extends.
Qed.

Lemma array_to_lists_extends (arr : val) : extends (array_to_lists arr).
Proof.
  intros h v h'. unfold array_to_lists.
  destruct arr as [q|l]; [discriminate|].
  destruct (h !! l) as [[items|rows]|]; try discriminate.
  apply bind_extends.
  - apply mapH_extends. intros row. apply alloc_extends.
  - intros rows'. apply alloc_extends.
Qed.

(** Allocation at the end of a computation that only adds objects. *)
Lemma bind_allocates {A} (m : H A) (k : A -> H val) :
  extends m -> (forall a, allocates (k a)) -> allocates (bind m k).
Proof.
  intros Hm Hk h v h'. unfold bind.
  destruct (m h) as [[a h1]|e] eqn:E; [|discriminate].
  intros Hk'. destruct (Hk a h1 v h' Hk') as (l & -> & Hl).
  exists l. split; [reflexivity|].
  destruct (h !! l) as [o|] eqn:Ho; [|reflexivity].
  rewrite (lookup_weaken _ _ _ _ Ho (Hm _ _ _ E)) in Hl. discriminate.
Qed.

Lemma neg_list_allocates (xs : val) : allocates (neg_list xs).
Proof.
  apply bind_allocates; [apply items_of_extends|]. intros vs.
  apply bind_allocates; [apply mapH_extends, neg_extends|]. intros vs'.
  apply alloc_allocates.
Qed.

Lemma neg_matrix_allocates (m : val) : allocates (neg_matrix m).
Proof.
  apply bind_allocates; [apply items_of_extends|]. intros rows.
  apply bind_allocates; [apply mapH_extends, neg_list_extends|]. intros rows'.
  apply alloc_allocates.
Qed.

Lemma np_transpose_allocates (m : val) : allocates (np_transpose m).
Proof.
  apply bind_allocates; [apply nested_extends|]. intros A.
  apply bind_allocates; [apply lift_extends|]. intros At.
  apply alloc_allocates.
Qed.

Lemma array_to_lists_allocates (arr : val) : allocates (array_to_lists arr).
Proof.
  intros h v h'. unfold array_to_lists.
  destruct arr as [q|l]; [discriminate|].
  destruct (h !! l) as [[items|rows]|]; try discriminate.
  apply bind_allocates.
  - apply mapH_extends. intros row. apply alloc_extends.
  - intros rows'. apply alloc_allocates.
Qed.

Lemma fresh_in_weaken (h h' : heap) (v : val) :
  h ⊆ h' -> fresh_in h' v -> fresh_in h v.
Proof.
  intros Hsub (l & -> & Hl). exists l. split; [reflexivity|].
  destruct (h !! l) as [o|] eqn:Ho; [|reflexivity].
  rewrite (lookup_weaken _ _ _ _ Ho Hsub) in Hl. discriminate.
Qed.

(** Reading a vector or a nested list survives any extension of the store. *)
Lemma read_vec_weaken (h h' : heap) (v : val) (xs : list Q) :
  h ⊆ h' -> read_vec h v = Some xs -> read_vec h' v = Some xs.
Proof.
  intros Hsub. unfold read_vec. destruct v as [q|l]; [discriminate|].
  destruct (h !! l) as [o|] eqn:Ho; [|discriminate].
  rewrite (lookup_weaken _ _ _ _ Ho Hsub). auto.
Qed.

Lemma read_rows_weaken (h h' : heap) (rows : list val) (A : list (list Q)) :
  h ⊆ h' -> mapM (read_vec h) rows = Some A -> mapM (read_vec h') rows = Some A.
Proof.
  intros Hsub. rewrite !mapM_Some. intros HA.
  eapply Forall2_impl; [exact HA|]. intros v xs. apply read_vec_weaken, Hsub.
Qed.

Lemma read_nested_weaken (h h' : heap) (v : val) (A : list (list Q)) :
  h ⊆ h' -> read_nested h v = Some A -> read_nested h' v = Some A.
Proof.
  intros Hsub. unfold read_nested. destruct v as [q|l]; [discriminate|].
  destruct (h !! l) as [[rows|arr]|] eqn:Ho; try discriminate.
  rewrite (lookup_weaken _ _ _ _ Ho Hsub). apply read_rows_weaken, Hsub.
Qed.

(** The elements produced by a loop of allocations are all new. *)
Lemma mapH_allocates {A} (f : A -> H val) (l : list A) :
  (forall a, extends (f a)) -> (forall a, allocates (f a)) ->
  forall h vs h', mapH f l h = Py.Ok (vs, h') -> Forall (fresh_in h) vs.
Proof.
  intros Hext Hall. induction l as [|a l IH]; intros h vs h'; cbn [mapH].
  - intros [= <- <-]. constructor.
  - unfold bind at 1. destruct (f a h) as [[v h1]|e] eqn:E1; [|discriminate].
    unfold bind at 1. destruct (mapH f l h1) as [[vs' h2]|e] eqn:E2; [|discriminate].
    intros [= <- <-]. constructor; [eapply Hall, E1|].
    eapply Forall_impl; [eapply IH, E2|].
    intros v'. apply fresh_in_weaken. eapply Hext, E1.
Qed.

Lemma neg_matrix_rows (m : val) (h : heap) (v : val) (h' : heap) :
  neg_matrix m h = Py.Ok (v, h') ->
  exists l rows, v = VRef l /\ h' !! l = Some (OList rows) /\
                 Forall (fresh_in h) rows.
Proof.
  unfold neg_matrix, bind.
  destruct (items_of m h) as [[rows0 h0]|e] eqn:E0; [|discriminate].
  apply items_of_same in E0 as ->.
  destruct (mapH neg_list rows0 h) as [[rows h1]|e] eqn:E1; [|discriminate].
  intros [= <- <-]. eexists _, rows. split; [reflexivity|].
  split; [apply lookup_insert_eq|].
  exact (mapH_allocates neg_list rows0 neg_list_extends neg_list_allocates _ _ _ E1).
Qed.

Lemma array_to_lists_rows (arr : val) (h : heap) (v : val) (h' : heap) :
  array_to_lists arr h = Py.Ok (v, h') ->
  exists l rows, v = VRef l /\ h' !! l = Some (OList rows) /\
                 Forall (fresh_in h) rows.
Proof.
  unfold array_to_lists. destruct arr as [q|l0]; [discriminate|].
  destruct (h !! l0) as [[items|arows]|]; try discriminate.
  unfold bind.
  destruct (mapH _ arows h) as [[rows h1]|e] eqn:E1; [|discriminate].
  intros [= <- <-]. eexists _, rows. split; [reflexivity|].
  split; [apply lookup_insert_eq|].
  refine (mapH_allocates _ arows _ _ _ _ _ E1); intros row;
    [apply alloc_extends|apply alloc_allocates].
Qed.

Lemma extends_frame (h h' : heap) (c A b : val) : h ⊆ h' -> frame h h' c A b.
Proof.
  intros Hsub. split; [exact Hsub|]. split; [|split].
  - intros cs. apply read_vec_weaken, Hsub.
  - intros M. apply read_nested_weaken, Hsub.
  - intros rs. apply read_vec_weaken, Hsub.
Qed.

(** C10.  Whenever one of the constructors returns (the primal one is
    shared by PrimalProblem and GeneralizedPrimalProblem), every object of
    the store before the call is still there unchanged, so the caller's
    cost, constraint and requirement lists read as before; the attributes
    holding negated or transposed data are references to objects created
    by the call, as are the rows of a rebuilt nested list, and the cost
    list is stored by reference. *)
Theorem constructors_frame (h h' : heap) (c A b : val) (inst : instance) :
  (primal_init c A b h = Py.Ok (inst, h') ->
   frame h h' c A b /\
   costs inst = c /\
   fresh_in h (constraints inst) /\
   fresh_in h (requirements inst) /\
   exists l rows, constraints inst = VRef l /\ h' !! l = Some (OList rows) /\
                  Forall (fresh_in h) rows) /\
  (dual_init c A b h = Py.Ok (inst, h') ->
   frame h h' c A b /\
   fresh_in h (costs inst) /\
   fresh_in h (constraints inst) /\
   requirements inst = c) /\
  (generalized_dual_init c A b h = Py.Ok (inst, h') ->
   frame h h' c A b /\
   fresh_in h (costs inst) /\
   fresh_in h (constraints inst) /\
   requirements inst = c /\
   exists l rows, constraints inst = VRef l /\ h' !! l = Some (OList rows) /\
                  Forall (fresh_in h) rows).
Proof.
  split; [|split].
  - unfold primal_init, bind. intros H.
    destruct (neg_matrix A h) as [[cons' h1]|e] eqn:E1; [|discriminate].
    destruct (neg_list b h1) as [[reqs' h2]|e] eqn:E2; [|discriminate].
    injection H as <- <-. cbn.
    pose proof (neg_matrix_extends _ _ _ _ E1) as S1.
    pose proof (neg_list_extends _ _ _ _ E2) as S2.
    split; [apply extends_frame; transitivity h1; assumption|].
    split; [reflexivity|].
    split; [eapply neg_matrix_allocates, E1|].
    split; [eapply fresh_in_weaken; [exact S1|eapply neg_list_allocates, E2]|].
    destruct (neg_matrix_rows _ _ _ _ E1) as (l & rows & -> & Hl & Hrows).
    exists l, rows. split; [reflexivity|].
    split; [exact (lookup_weaken _ _ _ _ Hl S2)|exact Hrows].
  - unfold dual_init, bind. intros H.
    destruct (neg_list b h) as [[costs' h1]|e] eqn:E1; [|discriminate].
    destruct (np_transpose A h1) as [[cons' h2]|e] eqn:E2; [|discriminate].
    injection H as <- <-. cbn.
    pose proof (neg_list_extends _ _ _ _ E1) as S1.
    pose proof (np_transpose_extends _ _ _ _ E2) as S2.
    split; [apply extends_frame; transitivity h1; assumption|].
    split; [eapply neg_list_allocates, E1|].
    split; [|reflexivity].
    eapply fresh_in_weaken; [exact S1|eapply np_transpose_allocates, E2].
  - unfold generalized_dual_init, bind. intros H.
    destruct (neg_list b h) as [[costs' h1]|e] eqn:E1; [|discriminate].
    destruct (np_transpose A h1) as [[arr h2]|e] eqn:E2; [|discriminate].
    destruct (array_to_lists arr h2) as [[cons' h3]|e] eqn:E3; [|discriminate].
    injection H as <- <-. cbn.
    pose proof (neg_list_extends _ _ _ _ E1) as S1.
    pose proof (np_transpose_extends _ _ _ _ E2) as S2.
    pose proof (array_to_lists_extends _ _ _ _ E3) as S3.
    assert (S02 : h ⊆ h2) by (transitivity h1; assumption).
    split; [apply extends_frame; transitivity h2; assumption|].
    split; [eapply neg_list_allocates, E1|].
    split; [eapply fresh_in_weaken; [exact S02|];
            eapply array_to_lists_allocates, E3|].
    split; [reflexivity|].
    destruct (array_to_lists_rows _ _ _ _ E3) as (l & rows & -> & Hl & Hrows).
    exists l, rows. split; [reflexivity|]. split; [exact Hl|].
    eapply Forall_impl; [exact Hrows|].
    intros v. apply fresh_in_weaken, S02.
Qed.

End StoreFrame.

(** On the example store the primal constructor returns and frames. *)
Lemma constructors_frame_witness :
  exists inst h',
    Store.primal_init (Store.VRef 1%positive) (Store.VRef 2%positive) (Store.VRef 5%positive) Store.example
    = Py.Ok (inst, h') /\
    Store.frame Store.example h' (Store.VRef 1%positive) (Store.VRef 2%positive) (Store.VRef 5%positive) /\
    Store.costs inst = Store.VRef 1%positive.
Proof.
  destruct (Store.primal_init (Store.VRef 1%positive) (Store.VRef 2%positive) (Store.VRef 5%positive)
              Store.example) as [[inst h']|e] eqn:E.
  - exists inst, h'. split; [reflexivity|].
    destruct (proj1 (constructors_frame Store.example h' (Store.VRef 1%positive)
                       (Store.VRef 2%positive) (Store.VRef 5%positive) inst) E) as (Hf & Hc & _).
    split; assumption.
  - exfalso. vm_compute in E. discriminate E.
Defined.

(** ** The store layer computes what the value layer states *)

Section StoreRefines.
Import Store.

Lemma read_num_map (xs : list Q) : mapM read_num (map VNum xs) = Some xs.
Proof.
  apply mapM_Some. induction xs; cbn; constructor; auto.
Qed.

Lemma read_num_inv (vs : list val) (xs : list Q) :
  mapM read_num vs = Some xs -> vs = map VNum xs.
Proof.
  rewrite mapM_Some. induction 1 as [|v q vs xs Hv _ IH]; [reflexivity|].
  destruct v; [|discriminate]. injection Hv as ->. cbn. f_equal. exact IH.
Qed.

Lemma read_vec_inv (h : heap) (v : val) (xs : list Q) :
  read_vec h v = Some xs ->
  exists l, v = VRef l /\ h !! l = Some (OList (map VNum xs)).
Proof.
  unfold read_vec. destruct v as [q|l]; [discriminate|].
  destruct (h !! l) as [[vs|rows]|] eqn:Hl; try discriminate.
  intros Hvs. apply read_num_inv in Hvs as ->. exists l. split; [reflexivity|exact Hl].
Qed.

Lemma read_vec_insert (h : heap) (l : loc) (ys : list Q) :
  read_vec (<[l := OList (map VNum ys)]> h) (VRef l) = Some ys.
Proof. unfold read_vec. rewrite lookup_insert_eq. apply read_num_map. Qed.

Lemma mapH_neg (xs : list Q) (h : heap) :
  mapH neg (map VNum xs) h = Py.Ok (map VNum (map Qopp xs), h).
Proof.
  induction xs as [|q xs IH]; [reflexivity|].
  cbn [map mapH]. unfold bind at 1. cbn. unfold bind at 1. rewrite IH. reflexivity.
Qed.

Lemma mapH_num_of (xs : list Q) (h : heap) :
  mapH num_of (map VNum xs) h = Py.Ok (xs, h).
Proof.
  induction xs as [|q xs IH]; [reflexivity|].
  cbn [map mapH]. unfold bind at 1. cbn. unfold bind at 1. rewrite IH. reflexivity.
Qed.

Lemma neg_list_spec (h : heap) (v : val) (xs : list Q) :
  read_vec h v = Some xs ->
  exists l, h !! l = None /\
    neg_list v h = Py.Ok (VRef l, <[l := OList (map VNum (map Qopp xs))]> h).
Proof.
  intros Hv. apply read_vec_inv in Hv as (l0 & -> & Hl0).
  exists (fresh (dom h)). split; [apply (alloc_fresh (OList []))|].
  unfold neg_list, bind, items_of. rewrite Hl0, mapH_neg. reflexivity.
Qed.

Lemma mapH_neg_list_spec (rows : list val) (A : list (list Q)) :
  forall h, mapM (read_vec h) rows = Some A ->
  exists rows' h',
    mapH neg_list rows h = Py.Ok (rows', h') /\ h ⊆ h' /\
    mapM (read_vec h') rows' = Some (map (map Qopp) A).
Proof.
  revert A. induction rows as [|row rows IH]; intros A h HA.
  - apply mapM_Some in HA. inversion HA; subst.
    exists [], h. split; [reflexivity|]. split; reflexivity.
  - apply mapM_Some in HA.
    inversion HA as [|? xs ? A' Hrow Hrows]; subst.
    destruct (neg_list_spec h row xs Hrow) as (l & Hl & Hneg).
    set (h1 := <[l := OList (map VNum (map Qopp xs))]> h) in *.
    assert (S1 : h ⊆ h1) by (apply insert_subseteq, Hl).
    destruct (IH A' h1) as (rows' & h' & Hrun & S2 & Hread).
    { apply mapM_Some. eapply Forall2_impl; [exact Hrows|].
      intros v ys. apply read_vec_weaken, S1. }
    exists (VRef l :: rows'), h'.
    split; [|split].
    + cbn [mapH]. unfold bind at 1. rewrite Hneg.
      unfold bind at 1. rewrite Hrun. reflexivity.
    + transitivity h1; assumption.
    + apply mapM_Some. cbn [map]. constructor.
      * apply (read_vec_weaken h1); [exact S2|apply read_vec_insert].
      * apply mapM_Some, Hread.
Qed.

Lemma read_nested_insert (h : heap) (l : loc) (rows : list val)
    (A : list (list Q)) :
  h !! l = None ->
  mapM (read_vec h) rows = Some A ->
  read_nested (<[l := OList rows]> h) (VRef l) = Some A.
Proof.
  intros Hl HA. unfold read_nested. rewrite lookup_insert_eq.
  apply (read_rows_weaken h); [apply insert_subseteq, Hl|exact HA].
Qed.

Lemma read_nested_mat (h : heap) (v : val) (A : list (list Q)) :
  read_nested h v = Some A -> read_mat h v = Some A.
Proof.
  unfold read_mat, read_nested. destruct v as [q|l]; [discriminate|].
  destruct (h !! l) as [[rows|arr]|]; try discriminate. auto.
Qed.

Lemma neg_matrix_spec (h : heap) (v : val) (A : list (list Q)) :
  read_nested h v = Some A ->
  exists w h',
    neg_matrix v h = Py.Ok (w, h') /\ h ⊆ h' /\
    read_nested h' w = Some (map (map Qopp) A).
Proof.
  unfold read_nested at 1. destruct v as [q|l0]; [discriminate|].
  destruct (h !! l0) as [[rows|arr]|] eqn:Hl0; try discriminate.
  intros HA.
  destruct (mapH_neg_list_spec rows A h HA) as (rows' & h1 & Hrun & S1 & Hread).
  exists (VRef (fresh (dom h1))), (<[fresh (dom h1) := OList rows']> h1).
  pose proof (alloc_fresh (OList rows') h1) as Hfresh.
  split; [|split].
  - unfold neg_matrix, bind, items_of. rewrite Hl0, Hrun. reflexivity.
  - transitivity h1; [exact S1|apply insert_subseteq, Hfresh].
  - apply read_nested_insert; assumption.
Qed.

(** The primal constructor returns on well-formed arguments, and its
    attributes read back as the value-layer constructor says. *)
Lemma primal_init_refines (h : heap) (c A b : val)
    (cs : list Q) (M : list (list Q)) (rs : list Q) :
  read_vec h c = Some cs -> read_nested h A = Some M -> read_vec h b = Some rs ->
  let p := Question.PrimalProblem.init cs M rs in
  exists inst h',
    primal_init c A b h = Py.Ok (inst, h') /\
    read_vec h' (costs inst) = Some (Question.PrimalProblem.costs p) /\
    read_mat h' (constraints inst) = Some (Question.PrimalProblem.constraints p) /\
    read_vec h' (requirements inst) = Some (Question.PrimalProblem.requirements p).
Proof.
  intros Hc HA Hb p.
  destruct (neg_matrix_spec h A M HA) as (w & h1 & Hrun1 & S1 & Hread1).
  destruct (neg_list_spec h1 b rs (read_vec_weaken _ _ _ _ S1 Hb))
    as (l & Hl & Hrun2).
  set (h2 := <[l := OList (map VNum (map Qopp rs))]> h1) in *.
  assert (S2 : h1 ⊆ h2) by (apply insert_subseteq, Hl).
  eexists _, h2. split; [|split; [|split]].
  - unfold primal_init, bind. rewrite Hrun1, Hrun2. reflexivity.
  - cbn. apply (read_vec_weaken h); [transitivity h1; assumption|exact Hc].
  - cbn. apply read_nested_mat, (read_nested_weaken h1); assumption.
  - cbn. apply read_vec_insert.
Qed.

Lemma nested_row_spec (h : heap) (row : val) (xs : list Q) :
  read_vec h row = Some xs ->
  bind (items_of row) (mapH num_of) h = Py.Ok (xs, h).
Proof.
  intros Hrow. apply read_vec_inv in Hrow as (l & -> & Hl).
  unfold bind, items_of. rewrite Hl. apply mapH_num_of.
Qed.

Lemma nested_rows_spec (h : heap) (rows : list val) (A : list (list Q)) :
  mapM (read_vec h) rows = Some A ->
  mapH (fun row => bind (items_of row) (mapH num_of)) rows h = Py.Ok (A, h).
Proof.
  rewrite mapM_Some.
  induction 1 as [|row xs rows A Hrow _ IH]; [reflexivity|].
  cbn [mapH]. unfold bind at 1.
  rewrite (nested_row_spec h row xs Hrow).
  unfold bind at 1. rewrite IH. reflexivity.
Qed.

Lemma nested_spec (h : heap) (v : val) (A : list (list Q)) :
  read_nested h v = Some A -> nested v h = Py.Ok (A, h).
Proof.
  unfold read_nested. destruct v as [q|l0]; [discriminate|].
  destruct (h !! l0) as [[rows|arr]|] eqn:Hl0; try discriminate.
  intros HA. unfold nested, bind at 1, items_of. rewrite Hl0.
  apply nested_rows_spec, HA.
Qed.

(** The dual constructor follows the value layer: same outcome, and on
    return the attributes read back as stated there. *)
Lemma dual_init_refines (h : heap) (c A b : val)
    (cs : list Q) (M : list (list Q)) (rs : list Q) :
  read_vec h c = Some cs -> read_nested h A = Some M -> read_vec h b = Some rs ->
  match Question.DualProblem.init cs M rs with
  | Py.Ok d =>
      exists inst h',
        dual_init c A b h = Py.Ok (inst, h') /\
        read_vec h' (costs inst) = Some (Question.DualProblem.costs d) /\
        read_mat h' (constraints inst) = Some (Question.DualProblem.constraints d) /\
        read_vec h' (requirements inst) = Some (Question.DualProblem.requirements d)
  | Py.Raise e => dual_init c A b h = Py.Raise e
  end.
Proof.
  intros Hc HA Hb.
  destruct (neg_list_spec h b rs Hb) as (l & Hl & Hrun1).
  set (h1 := <[l := OList (map VNum (map Qopp rs))]> h) in *.
  assert (S1 : h ⊆ h1) by (apply insert_subseteq, Hl).
  pose proof (nested_spec h1 A M (read_nested_weaken _ _ _ _ S1 HA)) as Hn.
  unfold Question.DualProblem.init.
  destruct (Np.transpose M) as [At|e] eqn:Ht.
  - pose proof (alloc_fresh (OArray At) h1) as Hfresh.
    eexists _, (<[fresh (dom h1) := OArray At]> h1).
    split; [|split; [|split]].
    + unfold dual_init, bind. rewrite Hrun1.
      unfold np_transpose, bind. rewrite Hn, Ht. reflexivity.
    + cbn [costs constraints requirements Question.DualProblem.costs
           Question.DualProblem.constraints Question.DualProblem.requirements].
      apply (read_vec_weaken h1);
        [apply insert_subseteq, Hfresh|apply read_vec_insert].
    + cbn [costs constraints requirements Question.DualProblem.costs
           Question.DualProblem.constraints Question.DualProblem.requirements].
      unfold read_mat. rewrite lookup_insert_eq. reflexivity.
    + cbn [costs constraints requirements Question.DualProblem.costs
           Question.DualProblem.constraints Question.DualProblem.requirements].
      apply (read_vec_weaken h); [|exact Hc].
      transitivity h1; [exact S1|apply insert_subseteq, Hfresh].
  - unfold dual_init, bind. rewrite Hrun1.
    unfold np_transpose, bind. rewrite Hn, Ht. reflexivity.
Qed.

End StoreRefines.

(** Price 10 of scenario 1 against its exact stand-in solver: the profit
    entry is the cost entry scaled by 1000000. *)
Lemma sweep_profit_scaled_witness :
  exists st',
    ResolutionApp.sweep_body Oracle.scenario1 ResolutionApp.base_constraints
      ResolutionApp.base_requirements 10
      {| ResolutionApp.costs := ResolutionApp.base_costs;
         ResolutionApp.cost_totals := [];
         ResolutionApp.profit_totals := [];
         ResolutionApp.table := [] |} []
    = (Py.Ok st', []) /\
    ResolutionApp.cost_totals st' = [Some (Scipy.fun_ (Oracle.scenario1_primal 10))] /\
    ResolutionApp.profit_totals st'
    = [(- Scipy.fun_ (Oracle.scenario1_dual 10) * 1000000)%Q].
Proof.
  destruct (sweep_profit_scaled Oracle.scenario1 ResolutionApp.base_constraints
              ResolutionApp.base_requirements 10
              {| ResolutionApp.costs := ResolutionApp.base_costs;
                 ResolutionApp.cost_totals := [];
                 ResolutionApp.profit_totals := [];
                 ResolutionApp.table := [] |} []
              (inject_Z 10 :: [12; 15]%Q)
              (Oracle.scenario1_primal 10) (Oracle.scenario1_dual 10))
    as (st' & Hrun & Hc & Hp & _).
  - reflexivity.
  - split; reflexivity.
  - split; reflexivity.
  - exists st'. repeat split; assumption.
Defined.

(** ** Fourier-Motzkin elimination *)

Section FourierMotzkin.
Import LP Fourier.
Local Open Scope Q_scope.
Variable R : list (list Q).
Variable d : list Q.

Lemma dot_update (row x : list Q) (k : nat) (v : Q) :
  (k < length x)%nat ->
  dot row (<[k := v]> x) == dot row x + nth k row 0 * (v - nth k x 0).
Proof.
  revert x k. induction row as [|a row IH]; intros x k Hk.
  - cbn. destruct k; ring.
  - destruct x as [|t x]; [cbn in Hk; lia|].
    destruct k as [|k]; cbn.
    + ring.
    + rewrite IH by (cbn in Hk; lia). ring.
Qed.

Lemma lhs_update (m x : list Q) (k : nat) (v : Q) :
  (k < length x)%nat ->
  lhs R m (<[k := v]> x) == lhs R m x + coef R k m * (v - nth k x 0).
Proof.
  intros Hk. unfold lhs, coef. revert m.
  induction R as [|row R' IH]; intros m.
  - cbn. rewrite !dot_nil_r. ring.
  - destruct m as [|a m]; cbn; [ring|].
    rewrite IH, (dot_update row x k v Hk). ring.
Qed.

Lemma lhs_combine (k : nat) (p q x : list Q) :
  lhs R (combine R k p q) x
  == - coef R k q * lhs R p x + coef R k p * lhs R q x.
Proof. unfold combine, lhs. rewrite dot_vadd, !dot_scale. reflexivity. Qed.

Lemma rhs_combine (k : nat) (p q : list Q) :
  rhs d (combine R k p q) == - coef R k q * rhs d p + coef R k p * rhs d q.
Proof. unfold combine, rhs. rewrite dot_vadd, !dot_scale. reflexivity. Qed.

Lemma coef_combine (j k : nat) (p q : list Q) :
  coef R j (combine R k p q)
  == - coef R k q * coef R j p + coef R k p * coef R j q.
Proof. unfold combine, coef at 1. rewrite dot_vadd, !dot_scale. reflexivity. Qed.

Lemma vadd_nonneg (u v : list Q) :
  Forall (fun a => 0 <= a) u -> Forall (fun a => 0 <= a) v ->
  Forall (fun a => 0 <= a) (vadd u v).
Proof.
  intros Hu. revert v. induction Hu as [|a u Ha Hu IH]; intros v Hv; [exact Hv|].
  destruct Hv as [|b v Hb Hv]; cbn; constructor; auto. lra.
Qed.

Lemma scale_nonneg (k : Q) (u : list Q) :
  0 <= k -> Forall (fun a => 0 <= a) u -> Forall (fun a => 0 <= a) (scale k u).
Proof.
  intros Hk Hu. unfold scale. apply Forall_map.
  eapply Forall_impl; [exact Hu|]. intros a Ha.
  apply Qmult_le_0_compat; assumption.
Qed.

Lemma is_pos_spec (a : Q) : is_pos a = true <-> 0 < a.
Proof.
  unfold is_pos. destruct (Qle_bool a 0) eqn:E; cbn.
  - apply Qle_bool_iff in E. split; [discriminate|lra].
  - split; [|reflexivity]. intros _.
    destruct (Qlt_le_dec 0 a) as [H|H]; [exact H|].
    apply Qle_bool_iff in H. congruence.
Qed.

Lemma is_neg_spec (a : Q) : is_neg a = true <-> a < 0.
Proof.
  unfold is_neg. destruct (Qle_bool 0 a) eqn:E; cbn.
  - apply Qle_bool_iff in E. split; [discriminate|lra].
  - split; [|reflexivity]. intros _.
    destruct (Qlt_le_dec a 0) as [H|H]; [exact H|].
    apply Qle_bool_iff in H. congruence.
Qed.

(** A value between finitely many lower and upper bounds. *)
Lemma between (lows highs : list Q) :
  (forall l h, In l lows -> In h highs -> l <= h) ->
  exists v, (forall l, In l lows -> l <= v) /\ (forall h, In h highs -> v <= h).
Proof.
  induction lows as [|l lows IH]; intros Hlh.
  - clear Hlh. induction highs as [|h highs IH].
    + exists 0. split; intros ? [].
    + destruct IH as (v & _ & Hv).
      destruct (Qlt_le_dec h v) as [Hlt|Hle].
      * exists h. split; [intros ? []|]. intros h' [<-|Hh']; [lra|].
        specialize (Hv h' Hh'). lra.
      * exists v. split; [intros ? []|]. intros h' [<-|Hh']; [lra|auto].
  - destruct IH as (v & Hlo & Hhi).
    { intros l' h Hl' Hh. apply Hlh; [right; exact Hl'|exact Hh]. }
    destruct (Qlt_le_dec v l) as [Hlt|Hle].
    + exists l. split.
      * intros l' [<-|Hl']; [lra|]. specialize (Hlo l' Hl'). lra.
      * intros h Hh. apply Hlh; [left; reflexivity|exact Hh].
    + exists v. split; [|exact Hhi].
      intros l' [<-|Hl']; [lra|auto].
Qed.

Lemma in_elim (k : nat) (S : list (list Q)) (m : list Q) :
  In m (elim R k S) <->
  (In m S /\ coef R k m == 0) \/
  (exists p q, In p S /\ 0 < coef R k p /\ In q S /\ coef R k q < 0 /\
               m = combine R k p q).
Proof.
  unfold elim, zeros_of, pos_of, neg_of.
  rewrite in_app_iff, filter_In, in_flat_map. split.
  - intros [[Hm Hz]|(p & Hp & Hq)].
    + left. split; [exact Hm|apply Qeq_bool_iff, Hz].
    + right. apply filter_In in Hp as [Hp Hpp].
      apply in_map_iff in Hq as (q & <- & Hq).
      apply filter_In in Hq as [Hq Hqn].
      exists p, q. rewrite <- is_pos_spec, <- is_neg_spec. auto.
  - intros [[Hm Hz]|(p & q & Hp & Hpp & Hq & Hqn & ->)].
    + left. split; [exact Hm|apply Qeq_bool_iff, Hz].
    + right. exists p. split.
      * apply filter_In. split; [exact Hp|apply is_pos_spec, Hpp].
      * apply in_map_iff. exists q. split; [reflexivity|].
        apply filter_In. split; [exact Hq|apply is_neg_spec, Hqn].
Qed.

(** Completeness of one step: a point satisfying what is left after
    eliminating variable [k] can be moved along [k] into the solutions. *)
Lemma elim_complete (k : nat) (S : list (list Q)) (x : list Q) :
  (k < length x)%nat ->
  (forall m, In m (elim R k S) -> sat R d m x) ->
  exists v, forall m, In m S -> sat R d m (<[k := v]> x).
Proof.
  intros Hk Hsat.
  set (base := fun m => lhs R m x - coef R k m * nth k x 0).
  set (bound := fun m => (rhs d m - base m) / coef R k m).
  assert (Hbound : forall m, ~ coef R k m == 0 ->
            coef R k m * bound m == rhs d m - base m).
  { intros m Hm. unfold bound. field. exact Hm. }
  destruct (between (map bound (pos_of R k S)) (map bound (neg_of R k S)))
    as (v & Hlo & Hhi).
  { intros l h Hl Hh.
    apply in_map_iff in Hl as (p & <- & Hp).
    apply in_map_iff in Hh as (q & <- & Hq).
    apply filter_In in Hp as [HpS Hpp]. apply is_pos_spec in Hpp.
    apply filter_In in Hq as [HqS Hqn]. apply is_neg_spec in Hqn.
    assert (Hc : sat R d (combine R k p q) x).
    { apply Hsat, in_elim. right. exists p, q. auto. }
    unfold sat in Hc. rewrite rhs_combine, lhs_combine in Hc.
    pose proof (Hbound p ltac:(lra)) as Ep.
    pose proof (Hbound q ltac:(lra)) as Eq.
    unfold base in Ep, Eq.
    apply (Qmult_le_l _ _ (coef R k p * - coef R k q)); [nra|].
    nra. }
  exists v. intros m Hm. unfold sat. rewrite (lhs_update m x k v Hk).
  destruct (Q_dec (coef R k m) 0) as [[Hneg|Hpos]|Hzero].
  - assert (Hin : In (bound m) (map bound (neg_of R k S))).
    { apply in_map. apply filter_In. split; [exact Hm|apply is_neg_spec, Hneg]. }
    specialize (Hhi _ Hin).
    pose proof (Hbound m ltac:(lra)) as E. unfold base in E. nra.
  - assert (Hin : In (bound m) (map bound (pos_of R k S))).
    { apply in_map. apply filter_In. split; [exact Hm|apply is_pos_spec, Hpos]. }
    specialize (Hlo _ Hin).
    pose proof (Hbound m ltac:(lra)) as E. unfold base in E. nra.
  - assert (Hs : sat R d m x).
    { apply Hsat, in_elim. left. split; assumption. }
    unfold sat in Hs. rewrite Hzero. lra.
Qed.

Lemma elim_sound (k : nat) (S : list (list Q)) (x : list Q) :
  (forall m, In m S -> sat R d m x) ->
  forall m, In m (elim R k S) -> sat R d m x.
Proof.
  intros HS m Hm. apply in_elim in Hm as [[Hm _]|(p & q & Hp & Hpp & Hq & Hqn & ->)].
  - apply HS, Hm.
  - unfold sat. rewrite rhs_combine, lhs_combine.
    pose proof (HS p Hp) as Sp. pose proof (HS q Hq) as Sq.
    unfold sat in Sp, Sq. nra.
Qed.

Lemma elim_nonneg (k : nat) (S : list (list Q)) :
  (forall m, In m S -> Forall (fun a => 0 <= a) m) ->
  forall m, In m (elim R k S) -> Forall (fun a => 0 <= a) m.
Proof.
  intros HS m Hm. apply in_elim in Hm as [[Hm _]|(p & q & Hp & Hpp & Hq & Hqn & ->)].
  - apply HS, Hm.
  - unfold combine. apply vadd_nonneg; apply scale_nonneg; auto; lra.
Qed.

Lemma elim_coef_zero (k : nat) (S : list (list Q)) (m : list Q) :
  In m (elim R k S) -> coef R k m == 0.
Proof.
  intros Hm. apply in_elim in Hm as [[_ Hz]|(p & q & _ & _ & _ & _ & ->)].
  - exact Hz.
  - rewrite coef_combine. ring.
Qed.

Lemma elim_coef_keep (j k : nat) (S : list (list Q)) :
  (forall m, In m S -> coef R j m == 0) ->
  forall m, In m (elim R k S) -> coef R j m == 0.
Proof.
  intros HS m Hm. apply in_elim in Hm as [[Hm _]|(p & q & Hp & _ & Hq & _ & ->)].
  - apply HS, Hm.
  - rewrite coef_combine, (HS p Hp), (HS q Hq). ring.
Qed.

Lemma elim_upto_sound (n : nat) (S : list (list Q)) (x : list Q) :
  (forall m, In m S -> sat R d m x) ->
  forall m, In m (elim_upto R n S) -> sat R d m x.
Proof.
  intros HS. induction n as [|n IH]; cbn [elim_upto]; [exact HS|].
  apply elim_sound, IH.
Qed.

Lemma elim_upto_nonneg (n : nat) (S : list (list Q)) :
  (forall m, In m S -> Forall (fun a => 0 <= a) m) ->
  forall m, In m (elim_upto R n S) -> Forall (fun a => 0 <= a) m.
Proof.
  intros HS. induction n as [|n IH]; cbn [elim_upto]; [exact HS|].
  apply elim_nonneg, IH.
Qed.

Lemma elim_upto_coef_zero (n : nat) (S : list (list Q)) :
  forall j, (j < n)%nat ->
  forall m, In m (elim_upto R n S) -> coef R j m == 0.
Proof.
  induction n as [|n IH]; intros j Hj; [lia|]. cbn [elim_upto].
  destruct (Nat.eq_dec j n) as [->|Hne].
  - intros m. apply elim_coef_zero.
  - apply elim_coef_keep, IH. lia.
Qed.

Lemma nth_insert_ne (x : list Q) (j k : nat) (v : Q) :
  j <> k -> nth j (<[k := v]> x) 0 = nth j x 0.
Proof.
  intros Hne. rewrite !nth_lookup, list_lookup_insert_ne by auto. reflexivity.
Qed.

(** Completeness of the whole elimination: a point satisfying what is left
    after eliminating variables [0 .. n-1] can be changed on these
    variables into a solution of the system. *)
Lemma elim_upto_complete (n : nat) (S : list (list Q)) :
  forall x, (n <= length x)%nat ->
  (forall m, In m (elim_upto R n S) -> sat R d m x) ->
  exists x', length x' = length x /\
             (forall j, (n <= j)%nat -> nth j x' 0 = nth j x 0) /\
             forall m, In m S -> sat R d m x'.
Proof.
  induction n as [|n IH]; intros x Hlen Hsat.
  - exists x. auto.
  - cbn [elim_upto] in Hsat.
    destruct (elim_complete n (elim_upto R n S) x ltac:(lia) Hsat) as (v & Hv).
    destruct (IH (<[n := v]> x)) as (x' & Hl & Hagree & Hx').
    { rewrite length_insert. lia. }
    { exact Hv. }
    exists x'. split; [rewrite Hl; apply length_insert|]. split; [|exact Hx'].
    intros j Hj. rewrite Hagree by lia. apply nth_insert_ne. lia.
Qed.

(** Multipliers free of the variables below [n] do not see them. *)
Lemma lhs_agree (n : nat) (m : list Q) :
  (forall j, (j < n)%nat -> coef R j m == 0) ->
  forall x x', length x = length x' ->
  (forall j, (n <= j)%nat -> nth j x 0 = nth j x' 0) ->
  lhs R m x == lhs R m x'.
Proof.
  intros Hm. induction n as [|n IH]; intros x x' Hlen Hagree.
  - assert (x = x') as ->; [|reflexivity].
    apply (nth_ext _ _ 0 0 Hlen). intros j _. apply Hagree. lia.
  - destruct (Nat.lt_ge_cases n (length x)) as [Hn|Hn].
    + rewrite <- (IH ltac:(intros; apply Hm; lia) (<[n := nth n x' 0]> x) x').
      * rewrite (lhs_update m x n _ Hn), (Hm n) by lia. ring.
      * rewrite length_insert. exact Hlen.
      * intros j Hj. destruct (Nat.eq_dec j n) as [->|Hne].
        -- rewrite nth_lookup, list_lookup_insert_eq by exact Hn. reflexivity.
        -- rewrite nth_insert_ne by exact Hne. apply Hagree. lia.
    + apply (IH ltac:(intros; apply Hm; lia)); [exact Hlen|].
      intros j Hj. destruct (Nat.eq_dec j n) as [->|Hne]; [|apply Hagree; lia].
      rewrite !nth_overflow by lia. reflexivity.
Qed.

Lemma dot_zeros (row : list Q) (L : nat) : dot row (repeat 0 L) == 0.
Proof.
  revert L. induction row as [|a row IH]; intros L; [reflexivity|].
  destruct L as [|L]; cbn; [reflexivity|]. rewrite IH. ring.
Qed.

Lemma lhs_zeros (m : list Q) (L : nat) : lhs R m (repeat 0 L) == 0.
Proof.
  unfold lhs. revert m. induction R as [|row R' IH]; intros m.
  - cbn. rewrite dot_nil_r. reflexivity.
  - destruct m as [|a m]; cbn; [reflexivity|]. rewrite IH, dot_zeros. ring.
Qed.

(** The value of multipliers free of the variables below [n] at a point of
    [n + 1] coordinates: the coefficient of the last one times its value. *)
Lemma lhs_last (n : nat) (m x : list Q) :
  (forall j, (j < n)%nat -> coef R j m == 0) ->
  length x = S n ->
  lhs R m x == coef R n m * nth n x 0.
Proof.
  intros Hm Hlen.
  rewrite (lhs_agree n m Hm x (<[n := nth n x 0]> (repeat 0 (S n)))).
  - rewrite lhs_update by (rewrite repeat_length; lia).
    rewrite lhs_zeros, nth_repeat. ring.
  - rewrite length_insert, repeat_length. exact Hlen.
  - intros j Hj. destruct (Nat.eq_dec j n) as [->|Hne].
    + rewrite (nth_lookup (<[n:=_]> _)), list_lookup_insert_eq
        by (rewrite repeat_length; lia). reflexivity.
    + rewrite !nth_overflow; [reflexivity| |];
        rewrite ?length_insert, ?repeat_length; lia.
Qed.

End FourierMotzkin.

(** ** The affine form of Farkas' lemma *)

Section Units.
Import LP Fourier.
Local Open Scope Q_scope.

Lemma units_S (N : nat) : units (S N) = unit 0 :: map (cons 0) (units N).
Proof.
  unfold units. cbn [seq map]. f_equal.
  rewrite <- seq_shift, !List.map_map. reflexivity.
Qed.

(** The unit multipliers are satisfied exactly when every row is. *)
Lemma units_sat (R : list (list Q)) (d x : list Q) :
  length d = length R ->
  (forall m, In m (units (length R)) -> sat R d m x) <->
  Forall2 (fun row di => di <= dot row x) R d.
Proof.
  revert d. induction R as [|row R IH]; intros d Hd.
  - destruct d; [|discriminate]. split; [constructor|intros _ m []].
  - destruct d as [|di d]; [discriminate|]. injection Hd as Hd.
    cbn [length]. rewrite units_S. split.
    + intros H. constructor.
      * specialize (H (unit 0) (or_introl eq_refl)).
        unfold sat, rhs, lhs, unit in H. cbn in H. lra.
      * apply IH; [exact Hd|]. intros m Hm.
        specialize (H (0 :: m) (or_intror (in_map (cons 0) _ _ Hm))).
        unfold sat, rhs, lhs in *. cbn in H. lra.
    + intros H m Hm. inversion H as [|? ? ? ? Hrow Hrest]; subst.
      destruct Hm as [<-|Hm].
      * unfold sat, rhs, lhs, unit. cbn. lra.
      * apply in_map_iff in Hm as (m' & <- & Hm').
        pose proof (proj2 (IH d Hd) Hrest m' Hm') as Hs.
        unfold sat, rhs, lhs in *. cbn. lra.
Qed.

Lemma unit_nonneg (i : nat) : Forall (fun a => 0 <= a) (unit i).
Proof.
  unfold unit. apply Forall_app. split.
  - induction i; cbn; constructor; [lra|assumption].
  - constructor; [lra|constructor].
Qed.

Lemma dot_app (u u' w w' : list Q) :
  length u = length w -> dot (u ++ u') (w ++ w') == dot u w + dot u' w'.
Proof.
  revert w. induction u as [|a u IH]; intros [|b w] Hlen; try discriminate.
  - cbn. ring.
  - cbn. rewrite IH by (cbn in Hlen; lia). ring.
Qed.

(** Splitting the multipliers along an appended right-hand side. *)
Lemma dot_app_r (m v w : list Q) :
  dot m (v ++ w) == dot (take (length v) m) v + dot (drop (length v) m) w.
Proof.
  revert m. induction v as [|b v IH]; intros m.
  - cbn. rewrite drop_0, take_0. cbn. ring.
  - destruct m as [|a m]; [cbn; ring|].
    cbn [length app dot]. rewrite firstn_cons, skipn_cons. cbn [dot].
    rewrite IH. ring.
Qed.

Lemma dot_opp_l (g x : list Q) : dot (map Qopp g) x == - dot g x.
Proof.
  revert x. induction g as [|a g IH]; intros [|t x]; cbn; try ring.
  rewrite IH. ring.
Qed.

Lemma dot_opp_r (y v : list Q) : dot y (map Qopp v) == - dot y v.
Proof.
  revert v. induction y as [|a y IH]; intros [|t v]; cbn; try ring.
  rewrite IH. ring.
Qed.

Lemma dot_comm (u v : list Q) : dot u v == dot v u.
Proof.
  revert v. induction u as [|a u IH]; intros [|b v]; cbn; try ring.
  rewrite IH. ring.
Qed.

Lemma dot_nonneg (u w : list Q) :
  Forall (fun a => 0 <= a) u -> Forall (fun a => 0 <= a) w -> 0 <= dot u w.
Proof.
  intros Hu. revert w. induction Hu as [|a u Ha Hu IH]; intros w Hw; [cbn; lra|].
  destruct Hw as [|b w Hb Hw]; cbn; [lra|]. specialize (IH w Hw). nra.
Qed.

Lemma dot_zeros_l (w : list Q) (L : nat) : dot (repeat 0 L) w == 0.
Proof.
  revert w. induction L as [|L IH]; intros w; [reflexivity|].
  destruct w as [|b w]; cbn; [reflexivity|]. rewrite IH. ring.
Qed.

Lemma dot_pad (y w : list Q) (k : nat) : dot (y ++ repeat 0 k) w == dot y w.
Proof.
  revert w. induction y as [|a y IH]; intros w.
  - cbn [app]. rewrite dot_zeros_l. reflexivity.
  - destruct w as [|b w]; cbn; [reflexivity|]. rewrite IH. reflexivity.
Qed.

Lemma dot_single (m : list Q) (a : Q) : dot m [a] == nth 0 m 0 * a.
Proof. destruct m as [|b m]; cbn; [ring|]. destruct m; cbn; ring. Qed.

Lemma nth_nonneg (m : list Q) (i : nat) :
  Forall (fun a => 0 <= a) m -> 0 <= nth i m 0.
Proof.
  intros Hm. revert i. induction Hm as [|a m Ha Hm IH]; intros [|i]; cbn; auto; lra.
Qed.

Lemma list_exists_or_none {A} (P : A -> Prop) (l : list A) :
  (forall a, P a \/ ~ P a) ->
  (exists a, In a l /\ P a) \/ (forall a, In a l -> ~ P a).
Proof.
  intros Hdec. induction l as [|a l IH].
  - right. intros a [].
  - destruct (Hdec a) as [Ha|Ha]; [left; exists a; split; [left; reflexivity|exact Ha]|].
    destruct IH as [(b & Hb & HPb)|Hnone].
    + left. exists b. split; [right; exact Hb|exact HPb].
    + right. intros b [<-|Hb]; [exact Ha|apply Hnone, Hb].
Qed.

(** A value strictly below [gamma] and above finitely many values that
    are themselves strictly below [gamma]. *)
Lemma below_strict (bounds : list Q) (gamma : Q) :
  (forall b, In b bounds -> b < gamma) ->
  exists t, t < gamma /\ forall b, In b bounds -> b <= t.
Proof.
  induction bounds as [|b bounds IH]; intros Hb.
  - exists (gamma - 1). split; [lra|intros ? []].
  - destruct IH as (t & Ht & Hle); [intros b' Hb'; apply Hb; right; exact Hb'|].
    pose proof (Hb b (or_introl eq_refl)) as Hbg.
    destruct (Qlt_le_dec t b) as [Hlt|Hge].
    + exists b. split; [exact Hbg|]. intros b' [<-|Hb']; [lra|].
      specialize (Hle b' Hb'). lra.
    + exists t. split; [exact Ht|]. intros b' [<-|Hb']; [lra|auto].
Qed.

Lemma split_last (n : nat) (x : list Q) :
  length x = S n -> x = take n x ++ [nth n x 0].
Proof.
  intros Hlen. rewrite <- (take_drop n x) at 1. f_equal.
  destruct (drop n x) as [|t rest] eqn:E.
  - apply (f_equal length) in E. rewrite length_drop in E. cbn in E. lia.
  - assert (rest = []) as ->.
    { apply (f_equal length) in E. rewrite length_drop in E. cbn in E.
      destruct rest; [reflexivity|cbn in E; lia]. }
    f_equal. rewrite <- (take_drop n x) at 1.
    rewrite app_nth2 by (rewrite length_take; lia).
    rewrite length_take, E. replace (n - n `min` length x)%nat with 0%nat by lia.
    reflexivity.
Qed.

End Units.

Section Farkas.
Import LP Fourier.
Local Open Scope Q_scope.

Lemma dot_const_zero {A} (m : list Q) (l : list A) :
  dot m (map (fun _ => 0) l) == 0.
Proof.
  revert m. induction l as [|a l IH]; intros [|k m]; cbn; try reflexivity.
  rewrite IH. ring.
Qed.

(** The columns of the extended system: the old ones with the opposite of
    [g] below, and the column of [t]. *)
Lemma extend_column_old (n : nat) (R : list (list Q)) (g : list Q) (j : nat) :
  Forall (fun row => length row = n) R -> length g = n -> (j < n)%nat ->
  map (fun row => nth j row 0) (extend R g)
  = map (fun row => nth j row 0) R ++ [- nth j g 0].
Proof.
  intros Hrows Hg Hj. unfold extend.
  rewrite List.map_app, List.map_map. cbn [map]. f_equal.
  - apply map_ext_in. intros row Hrow.
    rewrite Forall_forall in Hrows.
    apply app_nth1. rewrite (Hrows row); [exact Hj|].
    apply list_elem_of_In, Hrow.
  - f_equal. rewrite app_nth1 by (rewrite length_map; lia).
    rewrite (nth_indep _ 0 (- 0)) by (rewrite length_map; lia).
    apply (List.map_nth Qopp).
Qed.

Lemma extend_column_new (n : nat) (R : list (list Q)) (g : list Q) :
  Forall (fun row => length row = n) R -> length g = n ->
  map (fun row => nth n row 0) (extend R g)
  = map (fun _ => 0) R ++ [1].
Proof.
  intros Hrows Hg. unfold extend.
  rewrite List.map_app, List.map_map. cbn [map]. f_equal.
  - apply map_ext_in. intros row Hrow.
    rewrite Forall_forall in Hrows.
    rewrite app_nth2; rewrite (Hrows row) by (apply list_elem_of_In, Hrow);
      [|lia].
    rewrite Nat.sub_diag. reflexivity.
  - f_equal. rewrite app_nth2; rewrite length_map, Hg; [|lia].
    rewrite Nat.sub_diag. reflexivity.
Qed.

Lemma coef_extend_old (n : nat) (R : list (list Q)) (g m : list Q) (j : nat) :
  Forall (fun row => length row = n) R -> length g = n -> (j < n)%nat ->
  coef (extend R g) j m
  == coef R j (take (length R) m) - nth 0 (drop (length R) m) 0 * nth j g 0.
Proof.
  intros Hrows Hg Hj. unfold coef.
  rewrite (extend_column_old n R g j Hrows Hg Hj), dot_app_r, length_map, dot_single.
  ring.
Qed.

Lemma coef_extend_new (n : nat) (R : list (list Q)) (g m : list Q) :
  Forall (fun row => length row = n) R -> length g = n ->
  coef (extend R g) n m == nth 0 (drop (length R) m) 0.
Proof.
  intros Hrows Hg. unfold coef.
  rewrite (extend_column_new n R g Hrows Hg), dot_app_r, length_map, dot_single.
  rewrite dot_const_zero. ring.
Qed.

Lemma rhs_extend (d m : list Q) :
  rhs (d ++ [0]) m == dot (take (length d) m) d.
Proof. unfold rhs. rewrite dot_app_r, dot_single. ring. Qed.

(** Solutions of the extended system: solutions of the old one together
    with a value [t >= g . x]. *)
Lemma extended_feasible (n : nat) (R : list (list Q)) (g x : list Q) (t : Q) :
  Forall (fun row => length row = n) R -> length g = n -> length x = n ->
  forall d,
    Forall2 (fun row di => di <= dot row (x ++ [t])) (extend R g) (d ++ [0]) <->
    Forall2 (fun row di => di <= dot row x) R d /\ dot g x <= t.
Proof.
  intros Hrows Hg Hx. unfold extend.
  assert (Hlast : 0 <= dot (map Qopp g ++ [1]) (x ++ [t]) <-> dot g x <= t).
  { rewrite dot_app by (rewrite length_map; lia). rewrite dot_opp_l. cbn. lra. }
  induction Hrows as [|row R Hrow Hrows IH]; intros d.
  - cbn [map app]. destruct d as [|di d]; cbn [app].
    + split.
      * intros H. inversion H; subst. split; [constructor|apply Hlast; assumption].
      * intros [_ H]. constructor; [apply Hlast, H|constructor].
    + split.
      * intros H. inversion H as [|? ? ? ? _ Hnil]; subst.
        destruct d; inversion Hnil.
      * intros [H _]. inversion H.
  - cbn [map app]. destruct d as [|di d]; cbn [app].
    + split.
      * intros H. inversion H as [|? ? ? ? _ Hnil]; subst.
        destruct (map _ R); inversion Hnil.
      * intros [H _]. inversion H.
    + assert (Hhead : dot (row ++ [0]) (x ++ [t]) == dot row x).
      { rewrite dot_app by lia. cbn. ring. }
      split.
      * intros H. inversion H as [|? ? ? ? Hd Hrest]; subst.
        apply IH in Hrest as [Hrest Ht].
        split; [constructor; [rewrite <- Hhead; exact Hd|exact Hrest]|exact Ht].
      * intros [H Ht]. inversion H as [|? ? ? ? Hd Hrest]; subst.
        constructor; [rewrite Hhead; exact Hd|]. apply IH. split; assumption.
Qed.

(** Farkas' lemma, affine form.  If the system [R x >= d] in [n] variables
    has a solution and all its solutions satisfy [g . x >= gamma], then this
    inequality is a non-negative combination of the rows: there are
    multipliers [y >= 0] with [y^T R = g] and [y . d >= gamma]. *)
Lemma farkas_affine (n : nat) (R : list (list Q)) (d g : list Q) (gamma : Q) :
  Forall (fun row => length row = n) R -> length g = n ->
  (exists x0, length x0 = n /\ Forall2 (fun row di => di <= dot row x0) R d) ->
  (forall x, length x = n -> Forall2 (fun row di => di <= dot row x) R d ->
             gamma <= dot g x) ->
  exists y, length y = length R /\
            Forall (fun a => 0 <= a) y /\
            (forall j, (j < n)%nat -> coef R j y == nth j g 0) /\
            gamma <= dot y d.
Proof.
  intros Hrows Hg (x0 & Hx0 & Hfeas0) Himp.
  pose proof (Forall2_length _ _ _ Hfeas0) as Hd.
  set (N := length R) in *.
  set (Rp := extend R g). set (dp := d ++ [0]).
  assert (HRp : length Rp = S N).
  { unfold Rp, extend. rewrite length_app, length_map. cbn. fold N. lia. }
  assert (Hdp : length dp = length Rp).
  { unfold dp. rewrite length_app, HRp. cbn. lia. }
  set (Sn := elim_upto Rp n (units (S N))).
  assert (Hnn : forall m, In m Sn -> Forall (fun a => 0 <= a) m).
  { apply elim_upto_nonneg. intros m Hm. apply in_map_iff in Hm as (i & <- & _).
    apply unit_nonneg. }
  assert (Hz : forall m, In m Sn -> forall j, (j < n)%nat -> coef Rp j m == 0).
  { intros m Hm j Hj. exact (elim_upto_coef_zero Rp n _ j Hj m Hm). }
  assert (Hval : forall m x, In m Sn -> length x = S n ->
            lhs Rp m x == nth 0 (drop N m) 0 * nth n x 0).
  { intros m x Hm Hx. rewrite (lhs_last Rp n m x (Hz m Hm) Hx).
    unfold Rp. rewrite (coef_extend_new n R g m Hrows Hg). reflexivity. }
  assert (Hlam : forall m, In m Sn -> 0 <= nth 0 (drop N m) 0).
  { intros m Hm. apply nth_nonneg, Forall_drop, Hnn, Hm. }
  assert (Hrhs : forall m, rhs dp m == dot (take N m) d).
  { intros m. unfold dp. rewrite rhs_extend, <- Hd. reflexivity. }
  (* the known solution bounds every consequence *)
  assert (Hp0 : forall m, In m Sn ->
            dot (take N m) d <= nth 0 (drop N m) 0 * dot g x0).
  { intros m Hm.
    assert (Hs : sat Rp dp m (x0 ++ [dot g x0])).
    { apply (elim_upto_sound Rp dp n (units (S N))); [|exact Hm].
      rewrite <- HRp. apply units_sat; [exact Hdp|].
      apply (extended_feasible n R g x0 (dot g x0) Hrows Hg Hx0).
      split; [exact Hfeas0|lra]. }
    unfold sat in Hs. rewrite Hrhs, (Hval m) in Hs; [|exact Hm|].
    - rewrite app_nth2, Hx0, Nat.sub_diag in Hs by lia. exact Hs.
    - rewrite length_app, Hx0. cbn. lia. }
  destruct (list_exists_or_none
              (fun m => 0 < nth 0 (drop N m) 0 /\
                        gamma * nth 0 (drop N m) 0 <= dot (take N m) d) Sn)
    as [(m & Hm & Hpos & Hgood)|Hnone].
  { intros m.
    destruct (Qlt_le_dec 0 (nth 0 (drop N m) 0)) as [H1|H1]; [|right; lra].
    destruct (Qlt_le_dec (dot (take N m) d) (gamma * nth 0 (drop N m) 0))
      as [H2|H2]; [right; lra|left; split; assumption]. }
  - (* a consequence bounding [t] from below by [gamma]: scale it *)
    set (lam := nth 0 (drop N m) 0) in *.
    exists (pad N (scale (/ lam) (take N m))).
    assert (Hilam : 0 <= / lam) by (apply Qinv_le_0_compat; lra).
    split; [|split; [|split]].
    + unfold pad. rewrite length_app, repeat_length.
      assert (length (scale (/ lam) (take N m)) <= N)%nat; [|lia].
      unfold scale. rewrite length_map, length_take. lia.
    + unfold pad. apply Forall_app. split.
      * apply scale_nonneg; [exact Hilam|]. apply Forall_take, Hnn, Hm.
      * apply Forall_forall. intros a Ha.
        apply list_elem_of_In, repeat_spec in Ha. subst. lra.
    + intros j Hj. unfold coef, pad. rewrite dot_pad, dot_scale.
      pose proof (Hz m Hm j Hj) as Hzj. unfold Rp in Hzj.
      rewrite (coef_extend_old n R g m j Hrows Hg Hj) in Hzj.
      fold N lam in Hzj. unfold coef in Hzj.
      assert (E : dot (take N m) (map (fun row => nth j row 0) R)
                  == lam * nth j g 0) by lra.
      rewrite E. field. lra.
    + unfold pad. rewrite dot_pad, dot_scale.
      apply (Qmult_le_l _ _ lam); [exact Hpos|].
      assert (E : lam * (/ lam * dot (take N m) d) == dot (take N m) d)
        by (field; lra).
      rewrite E. lra.
  - (* otherwise some [t < gamma] extends to a solution *)
    exfalso.
    set (lamof := fun m : list Q => nth 0 (drop N m) 0).
    set (bound := fun m : list Q => dot (take N m) d / lamof m).
    destruct (below_strict
                (map bound (List.filter (fun m => is_pos (lamof m)) Sn)) gamma)
      as (t0 & Ht0 & Hbounds).
    { intros b Hb. apply in_map_iff in Hb as (m & <- & Hm).
      apply filter_In in Hm as [Hm Hpos]. apply is_pos_spec in Hpos.
      unfold bound. apply Qlt_shift_div_r; [exact Hpos|].
      destruct (Qlt_le_dec (dot (take N m) d) (gamma * lamof m)) as [H|H];
        [exact H|].
      exfalso. apply (Hnone m Hm). split; assumption. }
    set (q := repeat 0 n ++ [t0]).
    assert (Hq : length q = S n).
    { unfold q. rewrite length_app, repeat_length. cbn. lia. }
    assert (Hqn : nth n q 0 = t0).
    { unfold q. rewrite app_nth2, repeat_length, Nat.sub_diag;
        [reflexivity|rewrite repeat_length; lia]. }
    assert (Hsat : forall m, In m Sn -> sat Rp dp m q).
    { intros m Hm. unfold sat. rewrite Hrhs, (Hval m q Hm Hq), Hqn.
      fold (lamof m).
      destruct (Qlt_le_dec 0 (lamof m)) as [Hpos|Hle].
      - assert (Hb : bound m <= t0).
        { apply Hbounds, in_map, filter_In.
          split; [exact Hm|apply is_pos_spec, Hpos]. }
        assert (E : lamof m * bound m == dot (take N m) d)
          by (unfold bound; field; lra).
        rewrite <- E. nra.
      - pose proof (Hlam m Hm) as H0. pose proof (Hp0 m Hm) as H1.
        fold (lamof m) in H0, H1.
        assert (Hzero : lamof m == 0) by lra.
        rewrite Hzero in *. lra. }
    destruct (elim_upto_complete Rp dp n (units (S N)) q ltac:(lia) Hsat)
      as (x' & Hlen' & Hagree & Hx').
    rewrite <- HRp in Hx'. apply units_sat in Hx'; [|exact Hdp].
    rewrite (split_last n x') in Hx' by lia.
    rewrite Hagree, Hqn in Hx' by lia.
    apply (extended_feasible n R g (take n x') t0 Hrows Hg) in Hx'
      as [Hfeas Ht]; [|rewrite length_take; lia].
    specialize (Himp (take n x') ltac:(rewrite length_take; lia) Hfeas).
    lra.
Qed.

End Farkas.

(** ** Strong duality for a [linprog] call *)

Section StrongDuality.
Import LP Fourier.
Local Open Scope Q_scope.

Lemma identity_rows (n : nat) : Forall (fun row => length row = n) (identity n).
Proof.
  induction n as [|n IH]; cbn [identity]; constructor.
  - cbn. rewrite repeat_length. reflexivity.
  - apply Forall_map. eapply Forall_impl; [exact IH|].
    intros row Hrow. cbn. rewrite Hrow. reflexivity.
Qed.

Lemma identity_length (n : nat) : length (identity n) = n.
Proof. induction n as [|n IH]; cbn; [reflexivity|]. rewrite length_map, IH. reflexivity. Qed.

(** [I x >= 0] says [x >= 0]. *)
Lemma identity_feasible (n : nat) (x : list Q) :
  length x = n ->
  Forall2 (fun row di => di <= dot row x) (identity n) (repeat 0 n) <->
  Forall (fun v => 0 <= v) x.
Proof.
  revert x. induction n as [|n IH]; intros x Hx.
  - destruct x; [|discriminate]. split; constructor.
  - destruct x as [|t x]; [discriminate|]. injection Hx as Hx.
    cbn [identity repeat].
    assert (Hhead : dot (1 :: repeat 0 n) (t :: x) == t).
    { cbn. rewrite dot_zeros_l. ring. }
    assert (Htail : Forall2 (fun row di => di <= dot row (t :: x))
                      (map (cons 0) (identity n)) (repeat 0 n) <->
                    Forall2 (fun row di => di <= dot row x) (identity n) (repeat 0 n)).
    { generalize (identity n) (repeat 0 n). intros rows.
      induction rows as [|row rows IHr]; intros [|di ds]; cbn [map];
        split; intros H; inversion H; subst; constructor;
        try (apply IHr; assumption); cbn in *; lra. }
    split.
    + intros H. inversion H as [|? ? ? ? Hd Hrest]; subst.
      constructor; [lra|]. apply IH; [reflexivity|]. apply Htail, Hrest.
    + intros H. inversion H as [|? ? Ht Hrest]; subst.
      constructor; [lra|]. apply Htail, IH; [reflexivity|assumption].
Qed.

Lemma identity_column (n j : nat) (z : list Q) :
  (j < n)%nat ->
  dot z (map (fun row => nth j row 0) (identity n)) == nth j z 0.
Proof.
  revert j z. induction n as [|n IH]; intros j z Hj; [lia|].
  cbn [identity map]. rewrite List.map_map.
  destruct z as [|a z]; [destruct j; reflexivity|].
  destruct j as [|j]; cbn [nth dot].
  - rewrite dot_const_zero. ring.
  - rewrite nth_repeat. cbn [nth] in *. rewrite IH by lia. ring.
Qed.

(** The [<=] form of a call and the [>=] form of the elimination. *)
Lemma negated_rows_feasible (A_ub : list (list Q)) (x : list Q) :
  forall b_ub,
    Forall2 (fun row di => di <= dot row x) (map (map Qopp) A_ub) (map Qopp b_ub) <->
    Forall2 (fun row b => dot row x <= b) A_ub b_ub.
Proof.
  induction A_ub as [|row A IH]; intros [|b bs]; cbn [map];
    split; intros H; inversion H; subst; constructor;
    try (apply IH; assumption).
  - rewrite dot_opp_l in *. lra.
  - rewrite dot_opp_l. lra.
Qed.

Lemma column_negated (j : nat) (A : list (list Q)) :
  Np.column j (map (map Qopp) A) = map Qopp (Np.column j A).
Proof.
  unfold Np.column. rewrite !List.map_map. apply map_ext. intros row.
  exact (List.map_nth Qopp row 0 j).
Qed.

(** Strong duality, existence part: an optimum [xs] of
    [min c.x  s.t.  A_ub x <= b_ub, x >= 0] comes with multipliers [y >= 0]
    such that [c + A_ub^T y >= 0] and [c . xs <= - y . b_ub]. *)
Lemma lp_strong_duality (n : nat) (c : list Q) (A_ub : list (list Q))
    (b_ub xs : list Q) :
  Forall (fun row => length row = n) A_ub -> length c = n -> length xs = n ->
  feasible A_ub b_ub xs ->
  (forall x', length x' = n -> feasible A_ub b_ub x' -> dot c xs <= dot c x') ->
  exists y, length y = length A_ub /\
            Forall (fun a => 0 <= a) y /\
            (forall j, (j < n)%nat -> 0 <= nth j c 0 + dot y (Np.column j A_ub)) /\
            dot c xs <= - dot y b_ub.
Proof.
  intros Hrows Hc Hxs [HA Hnn] Hopt.
  pose proof (Forall2_length _ _ _ HA) as Hlen.
  set (R := map (map Qopp) A_ub ++ identity n).
  set (d := map Qopp b_ub ++ repeat 0 n).
  assert (Hfeas : forall x, length x = n ->
            (Forall2 (fun row di => di <= dot row x) R d <-> feasible A_ub b_ub x)).
  { intros x Hx. unfold R, d, feasible. split.
    - intros H. apply Forall2_app_inv in H; [|rewrite !length_map; exact Hlen].
      destruct H as [H1 H2]. split.
      + apply negated_rows_feasible, H1.
      + apply (identity_feasible n x Hx), H2.
    - intros [H1 H2]. apply Forall2_app.
      + apply negated_rows_feasible, H1.
      + apply (identity_feasible n x Hx), H2. }
  destruct (farkas_affine n R d c (dot c xs)) as (mu & Hmu & Hpos & Hcoef & Hval).
  - unfold R. apply Forall_app. split; [|apply identity_rows].
    apply Forall_map. eapply Forall_impl; [exact Hrows|].
    intros row Hrow. cbn. rewrite length_map. exact Hrow.
  - exact Hc.
  - exists xs. split; [exact Hxs|]. apply Hfeas; [exact Hxs|]. split; assumption.
  - intros x Hx Hx'. apply Hopt; [exact Hx|]. apply Hfeas; assumption.
  - set (m := length A_ub) in *.
    assert (HmuL : length mu = (m + n)%nat).
    { rewrite Hmu. unfold R. rewrite length_app, length_map, identity_length.
      reflexivity. }
    exists (take m mu). split; [rewrite length_take; lia|].
    split; [apply Forall_take, Hpos|]. split.
    + intros j Hj. specialize (Hcoef j Hj). unfold coef, R in Hcoef.
      rewrite List.map_app, dot_app_r, !length_map in Hcoef. fold m in Hcoef.
      rewrite (identity_column n j _ Hj) in Hcoef.
      change (map (fun row => nth j row 0) (map (map Qopp) A_ub))
        with (Np.column j (map (map Qopp) A_ub)) in Hcoef.
      rewrite column_negated, dot_opp_r in Hcoef.
      pose proof (nth_nonneg (drop m mu) j (Forall_drop _ _ _ Hpos)) as Hz.
      lra.
    + unfold rhs, d in Hval. rewrite dot_app_r, length_map in Hval.
      rewrite <- Hlen in Hval. fold m in Hval.
      rewrite dot_opp_r, dot_zeros in Hval. lra.
Qed.

Lemma nth_vadd (u v : list Q) (j : nat) :
  nth j (vadd u v) 0 == nth j u 0 + nth j v 0.
Proof.
  revert v j. induction u as [|a u IH]; intros v j.
  - cbn. destruct j; ring.
  - destruct v as [|b v]; [cbn [vadd]; destruct j; cbn; ring|].
    destruct j as [|j]; cbn; [ring|apply IH].
Qed.

Lemma nth_scale (k : Q) (u : list Q) (j : nat) :
  nth j (scale k u) 0 == k * nth j u 0.
Proof.
  revert j. induction u as [|a u IH]; intros [|j]; cbn; try ring. apply IH.
Qed.

(** Entry [j] of [A^T y] is [y] against column [j] of [A]. *)
Lemma nth_comb (y : list Q) (A : list (list Q)) (j : nat) :
  nth j (comb y A) 0 == dot y (Np.column j A).
Proof.
  revert A. induction y as [|k y IH]; intros A.
  - cbn. destruct j; reflexivity.
  - destruct A as [|row A]; [cbn; destruct j; reflexivity|].
    cbn [comb Np.column map dot]. rewrite nth_vadd, nth_scale, IH. reflexivity.
Qed.

Lemma dot_slack_nonneg_nth (x c a : list Q) :
  length c = length x ->
  (forall j, (j < length x)%nat -> 0 <= nth j c 0 + nth j a 0) ->
  Forall (fun v => 0 <= v) x ->
  0 <= dot c x + dot a x.
Proof.
  revert c a. induction x as [|t x IH]; intros c a Hlen Hslack Hx.
  - rewrite !dot_nil_r. lra.
  - destruct c as [|c0 c]; [discriminate|].
    inversion Hx as [|? ? Ht Hx']; subst.
    pose proof (Hslack 0%nat ltac:(cbn; lia)) as H0.
    destruct a as [|a0 a].
    + specialize (IH c [] ltac:(cbn in Hlen; lia)).
      cbn in *.
      assert (0 <= dot c x + 0).
      { apply IH; [|exact Hx']. intros j Hj.
        specialize (Hslack (S j) ltac:(lia)). cbn in Hslack.
        destruct j; exact Hslack. }
      nra.
    + specialize (IH c a ltac:(cbn in Hlen; lia)).
      cbn in *.
      assert (0 <= dot c x + dot a x).
      { apply IH; [|exact Hx']. intros j Hj.
        exact (Hslack (S j) ltac:(lia)). }
      nra.
Qed.

(** Weak duality with the slack stated column by column. *)
Lemma weak_duality_columns (n : nat) (c : list Q) (A_ub : list (list Q))
    (b_ub x y : list Q) :
  length c = n -> length x = n ->
  feasible A_ub b_ub x ->
  Forall (fun k => 0 <= k) y ->
  (forall j, (j < n)%nat -> 0 <= nth j c 0 + dot y (Np.column j A_ub)) ->
  - dot y b_ub <= dot c x.
Proof.
  intros Hc Hx [HA Hnn] Hy Hslack.
  assert (H1 : 0 <= dot c x + dot (comb y A_ub) x).
  { apply dot_slack_nonneg_nth; [lia| |exact Hnn].
    intros j Hj. rewrite nth_comb. apply Hslack. lia. }
  rewrite dot_comb in H1.
  assert (H2 : dot y (map (fun row => dot row x) A_ub) <= dot y b_ub).
  { apply dot_le_compat; [exact Hy|].
    clear -HA. induction HA; cbn; constructor; assumption. }
  lra.
Qed.

Lemma rectangular_rows (A : list (list Q)) :
  Np.rectangular A = true -> Forall (fun row => length row = Np.ncols A) A.
Proof.
  destruct A as [|r rs]; cbn; [constructor|]. intros H.
  constructor; [reflexivity|].
  rewrite forallb_forall in H. apply Forall_forall. intros row Hrow.
  apply Nat.eqb_eq, H, list_elem_of_In, Hrow.
Qed.

Lemma transpose_inv (A At : list (list Q)) :
  Np.transpose A = Py.Ok At ->
  Np.rectangular A = true /\
  At = map (fun j => Np.column j A) (seq 0 (Np.ncols A)).
Proof.
  unfold Np.transpose. destruct (Np.rectangular A); [|discriminate].
  intros [= <-]. split; reflexivity.
Qed.

Lemma Forall2_tabulate {A} (P : A -> Q -> Prop) (f : nat -> A) (c : list Q) :
  forall s,
    Forall2 P (map f (seq s (length c))) c <->
    (forall j, (j < length c)%nat -> P (f (s + j)%nat) (nth j c 0)).
Proof.
  induction c as [|c0 c IH]; intros s; cbn [length seq map].
  - split; [intros _ j Hj; lia|constructor].
  - split.
    + intros H. inversion H as [|? ? ? ? H0 Hrest]; subst.
      intros [|j] Hj; [rewrite Nat.add_0_r; exact H0|].
      rewrite Nat.add_succ_r. apply (proj1 (IH (S s)) Hrest j). lia.
    + intros H. constructor.
      * specialize (H 0%nat ltac:(lia)). rewrite Nat.add_0_r in H. exact H.
      * apply IH. intros j Hj. specialize (H (S j) ltac:(lia)).
        rewrite Nat.add_succ_r in H. exact H.
Qed.

(** Strong duality for the pair of calls the program makes: when the
    solver returns exact optima for the primal [(c, -A, -b)] and for the
    dual [(-b, A^T, c)], the minimal cost is the opposite of the dual
    objective value. *)
Lemma duality_gap_zero (c : list Q) (A At : list (list Q)) (b : list Q)
    (r1 r2 : Scipy.OptimizeResult) :
  Np.transpose A = Py.Ok At ->
  optimal c (map (fun row => map (fun v => - v) row) A) (map (fun r => - r) b) r1 ->
  optimal (map (fun r => - r) b) At c r2 ->
  Scipy.fun_ r1 == - Scipy.fun_ r2.
Proof.
  intros Ht [Hl1 Hf1 Hv1 Hleast1] [Hl2 Hf2 Hv2 Hleast2].
  apply transpose_inv in Ht as [Hrect ->].
  set (n := length c) in *.
  set (nA := map (fun row => map (fun v => - v) row) A) in *.
  set (nb := map (fun r => - r) b) in *.
  set (xs := Scipy.x r1) in *. set (yd := Scipy.x r2) in *.
  assert (Hcols : Np.ncols A = n).
  { destruct Hf2 as [H _]. apply Forall2_length in H.
    rewrite length_map, length_seq in H. exact H. }
  rewrite Hcols in *.
  assert (Hrows : Forall (fun row => length row = n) nA).
  { unfold nA. apply Forall_map. rewrite <- Hcols.
    eapply Forall_impl; [apply rectangular_rows, Hrect|].
    intros row Hrow. cbn. rewrite length_map. exact Hrow. }
  assert (Hcolumn : forall j y, dot y (Np.column j nA) == - dot (Np.column j A) y).
  { intros j y. unfold nA.
    change (fun row => map (fun v => - v) row) with (map Qopp).
    rewrite column_negated, dot_opp_r, (dot_comm y). reflexivity. }
  assert (Hdual : forall y,
            Forall2 (fun row cj => dot row y <= cj)
              (map (fun j => Np.column j A) (seq 0 n)) c <->
            (forall j, (j < n)%nat -> 0 <= nth j c 0 + dot y (Np.column j nA))).
  { intros y. unfold n. rewrite (Forall2_tabulate _ _ c 0%nat).
    split; intros H j Hj; specialize (H j Hj); cbn [Nat.add] in *;
      rewrite Hcolumn in *; lra. }
  assert (Hnb : forall y, dot nb y == - dot b y).
  { intros y. unfold nb. change (fun r => - r) with Qopp. apply dot_opp_l. }
  assert (Hnb' : forall y, dot y nb == - dot y b).
  { intros y. unfold nb. change (fun r => - r) with Qopp. apply dot_opp_r. }
  (* cost <= profit: multipliers of the primal optimum are dual-admissible *)
  destruct (lp_strong_duality n c nA nb xs Hrows eq_refl Hl1 Hf1)
    as (y & Hy & Hynn & Hyslack & Hyval).
  { intros x' Hx' Hfx'. apply Hleast1; assumption. }
  assert (Hyd : dot nb yd <= dot nb y).
  { apply Hleast2.
    - rewrite Hy. unfold nA, nb. rewrite !length_map.
      destruct Hf1 as [H _]. apply Forall2_length in H.
      unfold nA, nb in H. rewrite !length_map in H. exact H.
    - split; [apply Hdual, Hyslack|exact Hynn]. }
  (* profit <= cost: the dual optimum certifies a lower bound *)
  assert (Hweak : - dot yd nb <= dot c xs).
  { destruct Hf2 as [Hf2 Hydnn].
    apply (weak_duality_columns n c nA nb xs yd eq_refl Hl1 Hf1 Hydnn).
    apply Hdual, Hf2. }
  rewrite Hv1, Hv2. rewrite !Hnb in *. rewrite !Hnb' in *.
  rewrite (dot_comm yd b) in Hweak. rewrite (dot_comm y b) in Hyval. lra.
Qed.

End StrongDuality.

(** ** Strong duality of the formulated pair *)

Section Duality.
Import Question Generalisation.
Local Open Scope Q_scope.
Variable linprog : Scipy.linprog_t.

Lemma dual_exact_generalized costs constraints requirements r :
  Call.dual_exact linprog costs constraints requirements r <->
  Call.gdual_exact linprog costs constraints requirements r.
Proof.
  unfold Call.dual_exact, Call.gdual_exact, DualProblem.init,
    GeneralizedDualProblem.init.
  destruct (Np.transpose constraints) as [At|e].
  - split; intros (d & [= <-] & H); eexists; (split; [reflexivity|]);
      cbn in *; rewrite copy_rows in *; exact H.
  - split; intros (d & Hd & _); discriminate.
Qed.

Lemma primal_exact_generalized costs constraints requirements r :
  Call.primal_exact linprog costs constraints requirements r <->
  Call.gprimal_exact linprog costs constraints requirements r.
Proof. reflexivity. Qed.


(** An exact answer is an answer within 0. *)
Lemma exact_within_zero (c : list Q) (A_ub : list (list Q)) (b_ub : list Q)
    (r : Scipy.OptimizeResult) :
  LP.exact_at linprog c A_ub b_ub r -> Accuracy.within_at 0 linprog c A_ub b_ub r.
Proof.
  intros (Hr & Hs & Hopt). split; [exact Hr|]. split; [exact Hs|].
  exists r. split; [exact Hopt|].
  apply Qabs_Qle_condition. split; lra.
Qed.


End Duality.






(** ** The sweeps against a solver of finite accuracy *)


Section CoverageWithin.
Import Question Builtins.
Local Open Scope Q_scope.
Variable linprog : Scipy.linprog_t.
Variables R1 R2 : Z -> Scipy.OptimizeResult.



End CoverageWithin.



(** ** The placeholder policy of the sweeps *)

Section Placeholder.
Import Question Generalisation Builtins.
Local Open Scope Q_scope.
Variable linprog : Scipy.linprog_t.






End Placeholder.





(* ===================================================================== *)
(** * Further properties of the code *)
(* ===================================================================== *)

(** ** Rounding does not depend on how a rational is written *)

Section Rounding.
Local Open Scope Q_scope.

Lemma compare_scaled (a b dx dy : Z) :
  (0 < dx)%Z -> (0 < dy)%Z -> (a * dy = b * dx)%Z ->
  (a ?= dx)%Z = (b ?= dy)%Z.
Proof.
  intros Hx Hy Heq.
  destruct (Z.compare_spec a dx), (Z.compare_spec b dy); try reflexivity; nia.
Qed.

Lemma round_half_even_proper (x y : Q) :
  x == y -> Py.round_half_even x = Py.round_half_even y.
Proof.
  intros Hxy. unfold Py.round_half_even.
  assert (Hq : (Qnum x / Z.pos (Qden x) = Qnum y / Z.pos (Qden y))%Z).
  { pose proof (Qfloor_comp x y Hxy) as H.
    destruct x, y. exact H. }
  assert (Hc : (2 * (Qnum x mod Z.pos (Qden x)) ?= Z.pos (Qden x))%Z
               = (2 * (Qnum y mod Z.pos (Qden y)) ?= Z.pos (Qden y))%Z).
  { unfold Qeq in Hxy.
    rewrite !Z.mod_eq by discriminate. rewrite <- Hq.
    apply compare_scaled; [reflexivity|reflexivity|]. nia. }
  rewrite Hc, Hq. reflexivity.
Qed.

Lemma round_proper (x y : Q) (n : nat) : x == y -> Py.round x n = Py.round y n.
Proof.
  intros Hxy. unfold Py.round.
  set (s := inject_Z (10 ^ Z.of_nat n)).
  rewrite (round_half_even_proper (x * s) (y * s)); [reflexivity|].
  rewrite Hxy. reflexivity.
Qed.

End Rounding.

(** ** Formulation, continued *)

Section FormulationMore.
Import Question Generalisation LP.
Local Open Scope Q_scope.

Lemma Qopp_twice (q : Q) : - - q = q.
Proof. destruct q as [a b]. unfold Qopp. cbn. rewrite Z.opp_involutive. reflexivity. Qed.

Lemma negate_twice_vector (v : list Q) :
  map (fun r => - r) (map (fun r => - r) v) = v.
Proof.
  induction v as [|a v IH]; cbn; [reflexivity|]. rewrite Qopp_twice, IH. reflexivity.
Qed.

(** X1.  Building a primal problem from the coefficients of a primal
    problem gives back the constraint matrix and the requirement vector
    one started from, entry for entry: the sign conversion is its own
    inverse, in both variants. *)
Theorem negate_twice_restores
    (costs : list Q) (constraints : list (list Q)) (requirements : list Q) :
  let p := PrimalProblem.init costs constraints requirements in
  let p2 := PrimalProblem.init (PrimalProblem.costs p)
              (PrimalProblem.constraints p) (PrimalProblem.requirements p) in
  let g := GeneralizedPrimalProblem.init costs constraints requirements in
  let g2 := GeneralizedPrimalProblem.init (GeneralizedPrimalProblem.costs g)
              (GeneralizedPrimalProblem.constraints g)
              (GeneralizedPrimalProblem.requirements g) in
  PrimalProblem.constraints p2 = constraints /\
  PrimalProblem.requirements p2 = requirements /\
  GeneralizedPrimalProblem.constraints g2 = constraints /\
  GeneralizedPrimalProblem.requirements g2 = requirements.
Proof.
  cbn.
  assert (H : map (fun row => map (fun c => - c) row)
                (map (fun row => map (fun c => - c) row) constraints)
              = constraints).
  { induction constraints as [|row A IH]; cbn; [reflexivity|].
    rewrite negate_twice_vector, IH. reflexivity. }
  rewrite H, negate_twice_vector. repeat split.
Qed.

(** X2.  The generalized classes are the basic ones: on every input the
    constructors store the same coefficients (or raise the same
    exception), and on the same answer of the solver [solve] returns the
    same pair; only the diagnostic line differs. *)
Theorem generalized_agrees_with_basic
    (linprog : Scipy.linprog_t)
    (costs : list Q) (constraints : list (list Q)) (requirements : list Q)
    (out : Py.stdout) :
  let p := PrimalProblem.init costs constraints requirements in
  let g := GeneralizedPrimalProblem.init costs constraints requirements in
  (GeneralizedPrimalProblem.costs g = PrimalProblem.costs p /\
   GeneralizedPrimalProblem.constraints g = PrimalProblem.constraints p /\
   GeneralizedPrimalProblem.requirements g = PrimalProblem.requirements p /\
   fst (GeneralizedPrimalProblem.solve linprog g out)
   = fst (PrimalProblem.solve linprog p out)) /\
  match DualProblem.init costs constraints requirements,
        GeneralizedDualProblem.init costs constraints requirements with
  | Py.Ok d, Py.Ok gd =>
      GeneralizedDualProblem.costs gd = DualProblem.costs d /\
      GeneralizedDualProblem.constraints gd = DualProblem.constraints d /\
      GeneralizedDualProblem.requirements gd = DualProblem.requirements d /\
      fst (GeneralizedDualProblem.solve linprog gd out)
      = fst (DualProblem.solve linprog d out)
  | Py.Raise e, Py.Raise e' => e = e'
  | _, _ => False
  end.
Proof.
  split.
  - cbn. repeat split.
    unfold GeneralizedPrimalProblem.solve, PrimalProblem.solve, Py.bind, Py.lift.
    cbn. destruct (linprog _ _ _) as [r|e]; [|reflexivity].
    destruct (Scipy.success r); reflexivity.
  - unfold DualProblem.init, GeneralizedDualProblem.init.
    destruct (Np.transpose constraints) as [At|e]; [|reflexivity].
    cbn. rewrite copy_rows. repeat split.
    unfold GeneralizedDualProblem.solve, DualProblem.solve, Py.bind, Py.lift.
    cbn. rewrite ?copy_rows.
    destruct (linprog _ _ _) as [r|e]; [|reflexivity].
    destruct (Scipy.success r); reflexivity.
Qed.

Lemma negated_call_feasible (A : list (list Q)) (b x : list Q) :
  Forall2 (fun row bi => dot row x <= bi)
    (map (fun row => map (fun c => - c) row) A) (map (fun r => - r) b) <->
  Forall2 (fun row r => r <= dot row x) A b.
Proof.
  revert b. induction A as [|row A IH]; intros [|r b]; cbn [map];
    split; intros H; inversion H; subst; constructor;
    try (apply IH; assumption).
  - change (fun c => - c) with Qopp in *. rewrite dot_opp_l in *. lra.
  - change (fun c => - c) with Qopp. rewrite dot_opp_l. lra.
Qed.

(** X3.  What the negation achieves: a vector is admissible for the
    coefficients the primal constructors store exactly when it is
    non-negative and supplies, for every weapon type, at least the
    required quantity. *)
Theorem primal_feasible_meaning
    (costs : list Q) (constraints : list (list Q)) (requirements x : list Q) :
  let p := PrimalProblem.init costs constraints requirements in
  feasible (PrimalProblem.constraints p) (PrimalProblem.requirements p) x <->
  Forall2 (fun row r => r <= dot row x) constraints requirements /\
  Forall (fun v => 0 <= v) x.
Proof.
  cbn. unfold feasible. rewrite negated_call_feasible. reflexivity.
Qed.

End FormulationMore.

Section DualMeaning.
Import Question Generalisation LP.
Local Open Scope Q_scope.

Lemma dual_init_inv costs constraints requirements d :
  DualProblem.init costs constraints requirements = Py.Ok d ->
  Np.rectangular constraints = true /\
  d = {| DualProblem.costs := map (fun r => - r) requirements;
         DualProblem.constraints :=
           map (fun j => Np.column j constraints) (seq 0 (Np.ncols constraints));
         DualProblem.requirements := costs |}.
Proof.
  unfold DualProblem.init.
  destruct (Np.transpose constraints) as [At|e] eqn:Ht; [|discriminate].
  apply transpose_inv in Ht as [Hrect ->]. intros [= <-].
  split; [exact Hrect|reflexivity].
Qed.

(** X4.  What the transposition achieves: when the constraint matrix has
    one column per lot, a vector of unit prices is admissible for the
    coefficients the dual constructor stores exactly when it is
    non-negative and, for every lot, the weapons the lot contains are
    worth at most the cost of the lot. *)
Theorem dual_feasible_meaning
    (costs : list Q) (constraints : list (list Q)) (requirements y : list Q) :
  Np.rectangular constraints = true ->
  Np.ncols constraints = length costs ->
  exists d,
    DualProblem.init costs constraints requirements = Py.Ok d /\
    (feasible (DualProblem.constraints d) (DualProblem.requirements d) y <->
     (forall j, (j < length costs)%nat ->
        dot (Np.column j constraints) y <= nth j costs 0) /\
     Forall (fun v => 0 <= v) y).
Proof.
  intros Hrect Hcols. unfold DualProblem.init, Np.transpose. rewrite Hrect.
  eexists. split; [reflexivity|]. cbn. unfold feasible. rewrite Hcols.
  rewrite (Forall2_tabulate (fun row cj => dot row y <= cj)
             (fun j => Np.column j constraints) costs 0%nat).
  reflexivity.
Qed.

Lemma pair_weak_duality
    (costs : list Q) (constraints : list (list Q)) (requirements : list Q)
    (d : DualProblem.t) (x y : list Q) :
  DualProblem.init costs constraints requirements = Py.Ok d ->
  length x = length costs ->
  feasible (map (fun row => map (fun c => - c) row) constraints)
    (map (fun r => - r) requirements) x ->
  feasible (DualProblem.constraints d) (DualProblem.requirements d) y ->
  dot requirements y <= dot costs x.
Proof.
  intros Hd Hx Hfx Hfy.
  apply dual_init_inv in Hd as [Hrect ->]. cbn in *.
  destruct Hfy as [Hrows Hynn].
  assert (Hcols : Np.ncols constraints = length costs).
  { apply Forall2_length in Hrows. rewrite length_map, length_seq in Hrows.
    exact Hrows. }
  rewrite Hcols in Hrows.
  rewrite (Forall2_tabulate (fun row cj => dot row y <= cj)
             (fun j => Np.column j constraints) costs 0%nat) in Hrows.
  pose proof (weak_duality_columns (length costs) costs
                (map (fun row => map (fun c => - c) row) constraints)
                (map (fun r => - r) requirements) x y eq_refl Hx Hfx Hynn) as Hw.
  change (fun r => - r) with Qopp in Hw.
  change (fun row => map Qopp row) with (map Qopp) in Hw.
  rewrite dot_opp_r in Hw.
  rewrite (dot_comm requirements y).
  assert (Hslack : forall j, (j < length costs)%nat ->
            0 <= nth j costs 0 + dot y (Np.column j (map (map Qopp) constraints))).
  { intros j Hj. specialize (Hrows j Hj). cbn [Nat.add] in Hrows.
    rewrite column_negated, dot_opp_r, (dot_comm y). lra. }
  specialize (Hw Hslack). lra.
Qed.

(** X5.  Weak duality of the pair the constructors build from one triple:
    whatever admissible points a solver returns for the two problems, the
    value of the requirements at the dual point is at most the cost of the
    primal point. *)
Theorem formulated_weak_duality
    (costs : list Q) (constraints : list (list Q)) (requirements : list Q)
    (d : DualProblem.t) (x y : list Q) :
  DualProblem.init costs constraints requirements = Py.Ok d ->
  length x = length costs ->
  feasible
    (PrimalProblem.constraints (PrimalProblem.init costs constraints requirements))
    (PrimalProblem.requirements (PrimalProblem.init costs constraints requirements))
    x ->
  feasible (DualProblem.constraints d) (DualProblem.requirements d) y ->
  dot requirements y <= dot costs x.
Proof.
  intros Hd Hx Hfx Hfy.
  exact (pair_weak_duality costs constraints requirements d x y Hd Hx Hfx Hfy).
Qed.

(** X6.  Non-negativity.  When the solver answers the primal with an
    admissible point and its value, [solve] returns non-negative lot
    quantities that meet every requirement, and a non-negative cost if the
    costs are non-negative; when it so answers the dual, [solve] returns
    non-negative unit prices, and a non-negative profit if the
    requirements are non-negative. *)
Theorem solved_values_nonneg
    (linprog : Scipy.linprog_t)
    (costs : list Q) (constraints : list (list Q)) (requirements : list Q)
    (d : DualProblem.t) (r1 r2 : Scipy.OptimizeResult) (out : Py.stdout) :
  let p := PrimalProblem.init costs constraints requirements in
  DualProblem.init costs constraints requirements = Py.Ok d ->
  LP.succeeds_at linprog (PrimalProblem.costs p) (PrimalProblem.constraints p)
    (PrimalProblem.requirements p) r1 ->
  LP.sound (PrimalProblem.costs p) (PrimalProblem.constraints p)
    (PrimalProblem.requirements p) r1 ->
  LP.succeeds_at linprog (DualProblem.costs d) (DualProblem.constraints d)
    (DualProblem.requirements d) r2 ->
  LP.sound (DualProblem.costs d) (DualProblem.constraints d)
    (DualProblem.requirements d) r2 ->
  exists lots cost prices profit,
    PrimalProblem.solve linprog p out = (Py.Ok (Some lots, Some cost), out) /\
    DualProblem.solve linprog d out = (Py.Ok (Some prices, Some profit), out) /\
    Forall (fun v => 0 <= v) lots /\
    Forall2 (fun row r => r <= dot row lots) constraints requirements /\
    (Forall (fun c => 0 <= c) costs -> 0 <= cost) /\
    Forall (fun v => 0 <= v) prices /\
    (Forall (fun r => 0 <= r) requirements -> 0 <= profit) /\
    profit <= cost.
Proof.
  intros p Hd Hs1 (Hl1 & Hf1 & Hv1) Hs2 (Hl2 & Hf2 & Hv2).
  exists (Scipy.x r1), (Scipy.fun_ r1), (Scipy.x r2), (- Scipy.fun_ r2).
  split; [apply primal_solve_success, Hs1|].
  split; [apply dual_solve_success, Hs2|].
  pose proof (pair_weak_duality costs constraints requirements d
                (Scipy.x r1) (Scipy.x r2) Hd Hl1 Hf1 Hf2) as Hweak.
  destruct Hf1 as [Hmeet Hnn1]. cbn in Hmeet.
  rewrite negated_call_feasible in Hmeet.
  apply dual_init_inv in Hd as [_ ->]. cbn in *.
  change (fun r => - r) with Qopp in Hv2. rewrite dot_opp_l in Hv2.
  destruct Hf2 as [_ Hnn2].
  split; [exact Hnn1|]. split; [exact Hmeet|].
  split; [intros Hc; rewrite Hv1; apply dot_nonneg; assumption|].
  split; [exact Hnn2|].
  split; [intros Hr; rewrite Hv2;
          setoid_replace (- - dot requirements (Scipy.x r2))
            with (dot requirements (Scipy.x r2)) using relation Qeq by ring;
          apply dot_nonneg; assumption|].
  rewrite Hv1, Hv2. lra.
Qed.

End DualMeaning.

(** Scenario 1 at price 10: the dual is built and the unit prices of the
    stand-in solver are admissible. *)
Lemma dual_feasible_meaning_witness :
  exists d,
    Question.DualProblem.init ResolutionApp.base_costs
      ResolutionApp.base_constraints ResolutionApp.base_requirements = Py.Ok d /\
    (LP.feasible (Question.DualProblem.constraints d)
       (Question.DualProblem.requirements d) (Oracle.scenario1_prices 10) <->
     (forall j, (j < length ResolutionApp.base_costs)%nat ->
        (LP.dot (Np.column j ResolutionApp.base_constraints)
           (Oracle.scenario1_prices 10)
         <= nth j ResolutionApp.base_costs 0)%Q) /\
     Forall (fun v => (0 <= v)%Q) (Oracle.scenario1_prices 10)).
Proof.
  exact (dual_feasible_meaning ResolutionApp.base_costs
           ResolutionApp.base_constraints ResolutionApp.base_requirements
           (Oracle.scenario1_prices 10) eq_refl eq_refl).
Defined.

(** Scenario 1 at price 10, with the lots and unit prices of the stand-in
    solver. *)
Lemma formulated_weak_duality_witness :
  (LP.dot ResolutionApp.base_requirements (Oracle.scenario1_prices 10)
   <= LP.dot ResolutionApp.base_costs (Oracle.scenario1_lots 10))%Q.
Proof.
  refine (formulated_weak_duality ResolutionApp.base_costs
            ResolutionApp.base_constraints ResolutionApp.base_requirements
            _ (Oracle.scenario1_lots 10) (Oracle.scenario1_prices 10)
            eq_refl eq_refl _ _);
    apply feasibleb_sound; vm_compute; reflexivity.
Defined.

(** Scenario 1 at price 10 against its exact stand-in solver. *)
Lemma solved_values_nonneg_witness :
  exists lots cost prices profit,
    Question.PrimalProblem.solve Oracle.scenario1
      (Question.PrimalProblem.init ResolutionApp.base_costs
         ResolutionApp.base_constraints ResolutionApp.base_requirements) []
    = (Py.Ok (Some lots, Some cost), []) /\
    Forall (fun v => (0 <= v)%Q) lots /\
    Forall (fun v => (0 <= v)%Q) prices /\
    (0 <= profit)%Q /\ (profit <= cost)%Q.
Proof.
  destruct (solved_values_nonneg Oracle.scenario1 ResolutionApp.base_costs
              ResolutionApp.base_constraints ResolutionApp.base_requirements
              _ (Oracle.scenario1_primal 10) (Oracle.scenario1_dual 10) []
              eq_refl)
    as (lots & cost & prices & profit & H1 & _ & H3 & _ & _ & H6 & H7 & H8).
  - split; reflexivity.
  - split; [reflexivity|]. split; [|reflexivity].
    apply feasibleb_sound; vm_compute; reflexivity.
  - split; reflexivity.
  - split; [reflexivity|]. split; [|reflexivity].
    apply feasibleb_sound; vm_compute; reflexivity.
  - exists lots, cost, prices, profit.
    split; [exact H1|]. split; [exact H3|]. split; [exact H6|].
    split; [|exact H8].
    apply H7. repeat constructor; discriminate.
Defined.

(** ** The sweeps, read backwards *)

Section BasicSweepConverse.
Import Question Builtins.
Variable linprog : Scipy.linprog_t.
Variable constraints : list (list Q).
Variable requirements : list Q.

(** The state an iteration ends in when both solves succeed. *)
Lemma sweep_body_success_state price st out c1 r1 r2 :
  setitem (ResolutionApp.costs st) 0 (inject_Z price) = Py.Ok c1 ->
  Call.succeeded (Call.primal linprog c1 constraints requirements) r1 ->
  Call.succeeded (Call.dual linprog c1 constraints requirements) r2 ->
  exists row,
    ResolutionApp.sweep_body linprog constraints requirements price st out
    = (Py.Ok {| ResolutionApp.costs := c1;
                ResolutionApp.cost_totals :=
                  ResolutionApp.cost_totals st ++ [Some (Scipy.fun_ r1)];
                ResolutionApp.profit_totals :=
                  ResolutionApp.profit_totals st
                  ++ [(- Scipy.fun_ r2 * 1000000)%Q];
                ResolutionApp.table := ResolutionApp.table st ++ [row] |}, out) /\
    ResolutionApp.sr_price row = price.
Proof.
  intros Hset [Hp Hps] [Hd Hds].
  destruct (dual_call_init linprog _ _ _ _ Hd) as (d & Hinit & Hlin).
  unfold ResolutionApp.sweep_body.
  unfold Py.bind at 1. unfold Py.lift at 1. rewrite Hset.
  unfold Py.bind at 1.
  rewrite (primal_solve_success linprog _ r1) by (split; assumption).
  unfold Py.bind at 1. unfold Py.lift at 1. rewrite Hinit.
  unfold Py.bind at 1.
  rewrite (dual_solve_success linprog _ r2) by (split; assumption).
  cbn. eexists. split; reflexivity.
Qed.

(** An iteration that ends normally: both solves succeeded. *)
Lemma sweep_body_inv price st out st' out' :
  ResolutionApp.sweep_body linprog constraints requirements price st out
  = (Py.Ok st', out') ->
  exists c1 r1 r2,
    setitem (ResolutionApp.costs st) 0 (inject_Z price) = Py.Ok c1 /\
    Call.succeeded (Call.primal linprog c1 constraints requirements) r1 /\
    Call.succeeded (Call.dual linprog c1 constraints requirements) r2 /\
    out' = out /\
    ResolutionApp.costs st' = c1 /\
    ResolutionApp.cost_totals st'
    = ResolutionApp.cost_totals st ++ [Some (Scipy.fun_ r1)] /\
    ResolutionApp.profit_totals st'
    = ResolutionApp.profit_totals st ++ [(- Scipy.fun_ r2 * 1000000)%Q] /\
    length (ResolutionApp.table st') = S (length (ResolutionApp.table st)).
Proof.
  intros H.
  destruct (setitem (ResolutionApp.costs st) 0 (inject_Z price)) as [c1|e] eqn:Hset.
  2:{ unfold ResolutionApp.sweep_body, Py.bind, Py.lift in H. rewrite Hset in H.
      discriminate. }
  destruct (Call.primal linprog c1 constraints requirements) as [r1|e] eqn:Hp.
  2:{ unfold ResolutionApp.sweep_body, Py.bind, Py.lift in H. rewrite Hset in H.
      unfold PrimalProblem.solve, Py.bind, Py.lift in H.
      unfold Call.primal in Hp. rewrite Hp in H. discriminate. }
  destruct (Call.dual linprog c1 constraints requirements) as [r2|e] eqn:Hd.
  2:{ unfold ResolutionApp.sweep_body, Py.bind, Py.lift in H. rewrite Hset in H.
      unfold PrimalProblem.solve, Py.bind, Py.lift in H.
      unfold Call.primal in Hp. rewrite Hp in H.
      unfold Call.dual in Hd.
      destruct (DualProblem.init c1 constraints requirements) as [d|e'] eqn:Hi.
      - unfold DualProblem.solve, Py.bind, Py.lift in H. rewrite Hd in H.
        destruct (Scipy.success r1); cbn in H; discriminate.
      - destruct (Scipy.success r1); cbn in H; discriminate. }
  destruct (Scipy.success r1) eqn:Hs1, (Scipy.success r2) eqn:Hs2.
  - destruct (sweep_body_success_state price st out c1 r1 r2 Hset
                (conj Hp Hs1) (conj Hd Hs2)) as (row & Hrun & _).
    exists c1, r1, r2.
    split; [reflexivity|]. split; [split; assumption|]. split; [split; assumption|].
    rewrite Hrun in H. injection H as <- <-. cbn.
    rewrite length_app, Nat.add_comm. repeat split.
  - destruct (sweep_body_failure linprog constraints requirements price st out
                c1 r1 r2 Hset Hp Hd (or_intror Hs2)) as (o & Hf).
    rewrite Hf in H. discriminate.
  - destruct (sweep_body_failure linprog constraints requirements price st out
                c1 r1 r2 Hset Hp Hd (or_introl Hs1)) as (o & Hf).
    rewrite Hf in H. discriminate.
  - destruct (sweep_body_failure linprog constraints requirements price st out
                c1 r1 r2 Hset Hp Hd (or_introl Hs1)) as (o & Hf).
    rewrite Hf in H. discriminate.
Qed.

(** A loop that ends normally: both solves succeeded at every price. *)
Lemma basic_sweep_inv (ps : list Z) (rest : list Q) :
  forall st out st' out' c0,
    ResolutionApp.costs st = c0 :: rest ->
    Py.for_each ps (ResolutionApp.sweep_body linprog constraints requirements) st out
    = (Py.Ok st', out') ->
    exists rs : list (Scipy.OptimizeResult * Scipy.OptimizeResult),
      out' = out /\
      Forall2 (fun p rr =>
                 Call.succeeded
                   (Call.primal linprog (inject_Z p :: rest) constraints requirements)
                   (fst rr) /\
                 Call.succeeded
                   (Call.dual linprog (inject_Z p :: rest) constraints requirements)
                   (snd rr)) ps rs /\
      length (ResolutionApp.table st')
      = (length (ResolutionApp.table st) + length ps)%nat /\
      ResolutionApp.cost_totals st'
      = ResolutionApp.cost_totals st
        ++ map (fun rr => Some (Scipy.fun_ (fst rr))) rs /\
      ResolutionApp.profit_totals st'
      = ResolutionApp.profit_totals st
        ++ map (fun rr => (- Scipy.fun_ (snd rr) * 1000000)%Q) rs.
Proof.
  induction ps as [|p ps IH]; intros st out st' out' c0 Hcosts Hrun.
  - cbn in Hrun. injection Hrun as <- <-. exists []. cbn.
    rewrite !app_nil_r, Nat.add_0_r. repeat split. constructor.
  - cbn [Py.for_each] in Hrun. unfold Py.bind at 1 in Hrun.
    destruct (ResolutionApp.sweep_body linprog constraints requirements p st out)
      as [[st1|e] out1] eqn:Hbody; [|discriminate].
    destruct (sweep_body_inv p st out st1 out1 Hbody)
      as (c1 & r1 & r2 & Hset & Hp & Hd & -> & Hc1 & Hct & Hpt & Htab).
    rewrite Hcosts in Hset. injection Hset as <-.
    destruct (IH st1 out st' out' (inject_Z p) Hc1 Hrun)
      as (rs & -> & Hall & Ht' & Hct' & Hpt').
    exists ((r1, r2) :: rs).
    split; [reflexivity|].
    split; [constructor; [split; assumption|exact Hall]|].
    split; [cbn [length]; lia|].
    rewrite Hct', Hpt', Hct, Hpt. cbn [map fst snd]. rewrite <- !app_assoc.
    split; reflexivity.
Qed.

End BasicSweepConverse.

(** The basic sweep, when it returns. *)
Lemma study_price_variation_inv
    (linprog : Scipy.linprog_t) (out out' : Py.stdout)
    (rows : list ResolutionApp.SweepRow) (plot : ResolutionApp.PlotCall) :
  ResolutionApp.study_price_variation linprog out = (Py.Ok (rows, plot), out') ->
  out' = out /\
  length rows = 29%nat /\
  ResolutionApp.plot_prices plot = Py.range 1 30 /\
  forall i p, Py.range 1 30 !! i = Some p ->
    exists r1 r2,
      Call.succeeded
        (Call.primal linprog (inject_Z p :: [12; 15]%Q)
           ResolutionApp.base_constraints ResolutionApp.base_requirements) r1 /\
      Call.succeeded
        (Call.dual linprog (inject_Z p :: [12; 15]%Q)
           ResolutionApp.base_constraints ResolutionApp.base_requirements) r2 /\
      ResolutionApp.plot_costs plot !! i = Some (Some (Scipy.fun_ r1)) /\
      ResolutionApp.plot_profits plot !! i
      = Some (- Scipy.fun_ r2 * 1000000)%Q.
Proof.
  unfold ResolutionApp.study_price_variation. unfold Py.bind at 1.
  destruct (Py.for_each _ _ _ out) as [[st|e] out1] eqn:Hrun; [|discriminate].
  intros [= <- <- <-].
  destruct (basic_sweep_inv linprog ResolutionApp.base_constraints
              ResolutionApp.base_requirements (Py.range 1 30) [12; 15]%Q
              {| ResolutionApp.costs := ResolutionApp.base_costs;
                 ResolutionApp.cost_totals := [];
                 ResolutionApp.profit_totals := [];
                 ResolutionApp.table := [] |} out st out1 10%Q eq_refl Hrun)
    as (rs & -> & Hall & Htab & Hct & Hpt).
  cbn [ResolutionApp.table ResolutionApp.cost_totals ResolutionApp.profit_totals
       ResolutionApp.plot_prices ResolutionApp.plot_costs
       ResolutionApp.plot_profits app length] in *.
  split; [reflexivity|]. split; [rewrite Htab; reflexivity|].
  split; [reflexivity|].
  intros i p Hi.
  destruct (Forall2_lookup_l _ _ _ _ _ Hall Hi) as ([r1 r2] & Hrs & H1 & H2).
  exists r1, r2. split; [exact H1|]. split; [exact H2|].
  rewrite Hct, Hpt.
  split.
  - exact (lookup_map_some (fun rr => Some (Scipy.fun_ (fst rr))) _ _ _ Hrs).
  - exact (lookup_map_some (fun rr => (- Scipy.fun_ (snd rr) * 1000000)%Q)
             _ _ _ Hrs).
Qed.

(** X7.  The basic sweep returns only if the solver reported success for
    the primal and for the dual at every price 1..29: no solve has then
    printed its failure diagnostic, the table has one row per price, and
    at each price the cost is recorded as returned and the profit times
    1000000. *)
Theorem basic_sweep_returns_on_success_only
    (linprog : Scipy.linprog_t) (out out' : Py.stdout)
    (rows : list ResolutionApp.SweepRow) (plot : ResolutionApp.PlotCall) :
  ResolutionApp.study_price_variation linprog out = (Py.Ok (rows, plot), out') ->
  out' = out /\
  length rows = 29%nat /\
  ResolutionApp.plot_prices plot = Py.range 1 30 /\
  forall i p, Py.range 1 30 !! i = Some p ->
    exists r1 r2,
      Call.succeeded
        (Call.primal linprog (inject_Z p :: [12; 15]%Q)
           ResolutionApp.base_constraints ResolutionApp.base_requirements) r1 /\
      Call.succeeded
        (Call.dual linprog (inject_Z p :: [12; 15]%Q)
           ResolutionApp.base_constraints ResolutionApp.base_requirements) r2 /\
      ResolutionApp.plot_costs plot !! i = Some (Some (Scipy.fun_ r1)) /\
      ResolutionApp.plot_profits plot !! i
      = Some (- Scipy.fun_ r2 * 1000000)%Q.
Proof.
  intros Hrun.
  exact (study_price_variation_inv linprog out out' rows plot Hrun).
Qed.

(** Scenario 1 against its exact stand-in solver. *)
Lemma basic_sweep_returns_on_success_only_witness :
  exists rows plot,
    ResolutionApp.study_price_variation Oracle.scenario1 []
    = (Py.Ok (rows, plot), []) /\
    length rows = 29%nat.
Proof.
  destruct (ResolutionApp.study_price_variation Oracle.scenario1 [])
    as [[[rows plot]|e] out'] eqn:Hrun; [|vm_compute in Hrun; discriminate].
  destruct (basic_sweep_returns_on_success_only Oracle.scenario1 [] out' rows plot
              Hrun) as (-> & Hrows & _).
  exists rows, plot. split; [reflexivity|exact Hrows].
Defined.

Section BasicSweepFailure.
Import Question Builtins.
Variable linprog : Scipy.linprog_t.
Variables R1 R2 : Z -> Scipy.OptimizeResult.
Variable constraints : list (list Q).
Variable requirements : list Q.

(** A loop in which some solve reports failure ends at the first such
    price. *)
Lemma basic_sweep_failure (ps : list Z) (rest : list Q) :
  (forall p, In p ps ->
     Call.primal linprog (inject_Z p :: rest) constraints requirements
     = Py.Ok (R1 p) /\
     Call.dual linprog (inject_Z p :: rest) constraints requirements
     = Py.Ok (R2 p)) ->
  (exists p, In p ps /\
     (Scipy.success (R1 p) = false \/ Scipy.success (R2 p) = false)) ->
  forall st out c0,
    ResolutionApp.costs st = c0 :: rest ->
    exists out',
      Py.for_each ps (ResolutionApp.sweep_body linprog constraints requirements)
        st out
      = (Py.Raise Py.TypeError, out').
Proof.
  induction ps as [|p ps IH]; intros Hall (q & Hq & Hfail) st out c0 Hcosts.
  - destruct Hq.
  - destruct (Hall p (or_introl eq_refl)) as [Hp Hd].
    assert (Hset : setitem (ResolutionApp.costs st) 0 (inject_Z p)
                   = Py.Ok (inject_Z p :: rest)).
    { rewrite Hcosts. reflexivity. }
    cbn [Py.for_each]. unfold Py.bind at 1.
    destruct (Scipy.success (R1 p)) eqn:Hs1.
    + destruct (Scipy.success (R2 p)) eqn:Hs2.
      * destruct (sweep_body_success linprog constraints requirements p st out
                    _ _ _ Hset (conj Hp Hs1) (conj Hd Hs2))
          as (st1 & Hrun & Hc1 & _).
        rewrite Hrun.
        apply (IH (fun r Hr => Hall r (or_intror Hr))) with (c0 := inject_Z p);
          [|exact Hc1].
        exists q. split; [|exact Hfail].
        destruct Hq as [<-|Hq]; [|exact Hq].
        exfalso. destruct Hfail as [Hf|Hf]; congruence.
      * destruct (sweep_body_failure linprog constraints requirements p st out
                    _ _ _ Hset Hp Hd (or_intror Hs2)) as (out' & Hrun).
        rewrite Hrun. exists out'. reflexivity.
    + destruct (sweep_body_failure linprog constraints requirements p st out
                  _ _ _ Hset Hp Hd (or_introl Hs1)) as (out' & Hrun).
      rewrite Hrun. exists out'. reflexivity.
Qed.

End BasicSweepFailure.

(** X8.  With a solver that answers every call of the basic sweep, a
    single price in 1..29 at which the primal or the dual solve reports
    failure makes the whole sweep end with [TypeError]: no table and no
    plot are produced, whatever the other prices gave. *)
Theorem basic_sweep_stops_at_failure
    (linprog : Scipy.linprog_t) (R1 R2 : Z -> Scipy.OptimizeResult)
    (out : Py.stdout) :
  (forall p, In p (Py.range 1 30) ->
     Call.primal linprog (inject_Z p :: [12; 15]%Q)
       ResolutionApp.base_constraints ResolutionApp.base_requirements
     = Py.Ok (R1 p) /\
     Call.dual linprog (inject_Z p :: [12; 15]%Q)
       ResolutionApp.base_constraints ResolutionApp.base_requirements
     = Py.Ok (R2 p)) ->
  (exists p, In p (Py.range 1 30) /\
     (Scipy.success (R1 p) = false \/ Scipy.success (R2 p) = false)) ->
  exists out',
    ResolutionApp.study_price_variation linprog out
    = (Py.Raise Py.TypeError, out').
Proof.
  intros Hall Hfail.
  destruct (basic_sweep_failure linprog R1 R2 ResolutionApp.base_constraints
              ResolutionApp.base_requirements (Py.range 1 30) [12; 15]%Q
              Hall Hfail
              {| ResolutionApp.costs := ResolutionApp.base_costs;
                 ResolutionApp.cost_totals := [];
                 ResolutionApp.profit_totals := [];
                 ResolutionApp.table := [] |} out 10%Q eq_refl)
    as (out' & Hrun).
  exists out'. unfold ResolutionApp.study_price_variation.
  unfold Py.bind at 1. rewrite Hrun. reflexivity.
Qed.

(** Scenario 1 against a solver that reports failure on every call. *)
Lemma basic_sweep_stops_at_failure_witness :
  exists out',
    ResolutionApp.study_price_variation Oracle.always_fails []
    = (Py.Raise Py.TypeError, out').
Proof.
  apply (basic_sweep_stops_at_failure Oracle.always_fails
           (fun _ => {| Scipy.success := false; Scipy.x := []; Scipy.fun_ := 0%Q |})
           (fun _ => {| Scipy.success := false; Scipy.x := []; Scipy.fun_ := 0%Q |})
           []).
  - intros p _. split; reflexivity.
  - exists 29%Z. split; [vm_compute; tauto|left; reflexivity].
Defined.

Section GeneralizedSweepConverse.
Import Generalisation Builtins.
Variable linprog : Scipy.linprog_t.
Variable costs : list Q.
Variable constraints : list (list Q).
Variable requirements : list Q.

(** An iteration that ends normally has written the first cost and
    transposed the constraints, and has added one entry to each
    trajectory. *)
Lemma gsweep_body_inv p st out st' out' :
  GeneralisationApp.sweep_body linprog costs constraints requirements p st out
  = (Py.Ok st', out') ->
  costs <> [] /\ Np.rectangular constraints = true /\
  length (GeneralisationApp.cost_totals st')
  = S (length (GeneralisationApp.cost_totals st)) /\
  length (GeneralisationApp.profit_totals st')
  = S (length (GeneralisationApp.profit_totals st)).
Proof.
  unfold GeneralisationApp.sweep_body.
  unfold Py.bind at 1. unfold Py.lift at 1.
  destruct costs as [|c0 rest]; [discriminate|].
  cbn [setitem length Nat.ltb Nat.leb].
  unfold Py.bind at 1.
  destruct (GeneralizedPrimalProblem.solve _ _ out) as [[[lots cost]|e] out1];
    [|discriminate].
  unfold Py.bind at 1. unfold Py.lift at 1.
  destruct (GeneralizedDualProblem.init _ constraints requirements) as [d|e] eqn:Hd;
    [|discriminate].
  unfold Py.bind at 1.
  destruct (GeneralizedDualProblem.solve _ _ out1) as [[[prices profit]|e] out2];
    [|discriminate].
  intros [= <- <-]. cbn.
  split; [discriminate|]. split.
  - unfold GeneralizedDualProblem.init in Hd.
    destruct (Np.transpose constraints) eqn:Ht; [|discriminate].
    apply transpose_inv in Ht as [Hr _]. exact Hr.
  - rewrite !length_app. cbn. split; lia.
Qed.

Lemma gsweep_inv (ps : list Z) :
  forall st out st' out',
    Py.for_each ps
      (GeneralisationApp.sweep_body linprog costs constraints requirements) st out
    = (Py.Ok st', out') ->
    length (GeneralisationApp.cost_totals st')
    = (length (GeneralisationApp.cost_totals st) + length ps)%nat /\
    length (GeneralisationApp.profit_totals st')
    = (length (GeneralisationApp.profit_totals st) + length ps)%nat /\
    (ps <> [] -> costs <> [] /\ Np.rectangular constraints = true).
Proof.
  induction ps as [|p ps IH]; intros st out st' out' Hrun.
  - cbn in Hrun. injection Hrun as <- <-. cbn. rewrite !Nat.add_0_r.
    split; [reflexivity|]. split; [reflexivity|]. intros H. destruct H. reflexivity.
  - cbn [Py.for_each] in Hrun. unfold Py.bind at 1 in Hrun.
    destruct (GeneralisationApp.sweep_body linprog costs constraints requirements
                p st out) as [[st1|e] out1] eqn:Hbody; [|discriminate].
    destruct (gsweep_body_inv p st out st1 out1 Hbody) as (Hne & Hrect & Hc & Hp).
    destruct (IH st1 out1 st' out' Hrun) as (Hc' & Hp' & _).
    cbn [length]. split; [lia|]. split; [lia|]. intros _. split; assumption.
Qed.

End GeneralizedSweepConverse.

(** What a sweep that returns has been given and hands over. *)
Lemma study_sensitivity_inv
    (linprog : Scipy.linprog_t) (costs : list Q) (constraints : list (list Q))
    (requirements : list Q) (out out' : Py.stdout)
    (plot : GeneralisationApp.PlotCall) :
  GeneralisationApp.study_sensitivity linprog costs constraints requirements out
  = (Py.Ok plot, out') ->
  costs <> [] /\
  Np.rectangular constraints = true /\
  GeneralisationApp.plot_prices plot = Py.range 1 31 /\
  length (GeneralisationApp.plot_prices plot) = 30%nat /\
  length (GeneralisationApp.plot_costs plot) = 30%nat /\
  length (GeneralisationApp.plot_profits plot) = 30%nat.
Proof.
  unfold GeneralisationApp.study_sensitivity. unfold Py.bind at 1.
  destruct (GeneralisationApp.banner _ out) as [[[]|e] out0]; [|discriminate].
  unfold Py.bind at 1.
  destruct (Py.for_each _ _ _ out0) as [[st|e] out1] eqn:Hrun; [|discriminate].
  intros [= <- <-].
  destruct (gsweep_inv linprog costs constraints requirements (Py.range 1 31)
              _ out0 st out1 Hrun) as (Hc & Hp & Hne).
  destruct Hne as [Hne Hrect]; [discriminate|].
  cbn [GeneralisationApp.plot_prices GeneralisationApp.plot_costs
       GeneralisationApp.plot_profits].
  split; [exact Hne|]. split; [exact Hrect|]. split; [reflexivity|].
  split; [reflexivity|]. split; [rewrite Hc|rewrite Hp]; reflexivity.
Qed.

(** X9.  Whenever the generalized sweep returns, whatever the solver
    answered, it was given a non-empty cost vector and a rectangular
    constraint matrix, and it hands the plot the prices 1..30 with a cost
    and a profit trajectory of 30 entries each. *)
Theorem generalized_sweep_shape
    (linprog : Scipy.linprog_t) (costs : list Q) (constraints : list (list Q))
    (requirements : list Q) (out out' : Py.stdout)
    (plot : GeneralisationApp.PlotCall) :
  GeneralisationApp.study_sensitivity linprog costs constraints requirements out
  = (Py.Ok plot, out') ->
  costs <> [] /\
  Np.rectangular constraints = true /\
  GeneralisationApp.plot_prices plot = Py.range 1 31 /\
  length (GeneralisationApp.plot_prices plot) = 30%nat /\
  length (GeneralisationApp.plot_costs plot) = 30%nat /\
  length (GeneralisationApp.plot_profits plot) = 30%nat.
Proof.
  intros Hrun.
  exact (study_sensitivity_inv linprog costs constraints requirements out out'
           plot Hrun).
Qed.

(** Scenario 1 against a solver that reports failure on every call. *)
Lemma generalized_sweep_shape_witness :
  exists plot out',
    GeneralisationApp.study_sensitivity Oracle.always_fails
      ResolutionApp.base_costs ResolutionApp.base_constraints
      ResolutionApp.base_requirements []
    = (Py.Ok plot, out') /\
    length (GeneralisationApp.plot_costs plot) = 30%nat.
Proof.
  destruct (GeneralisationApp.study_sensitivity Oracle.always_fails
              ResolutionApp.base_costs ResolutionApp.base_constraints
              ResolutionApp.base_requirements [])
    as [[plot|e] out'] eqn:Hrun; [|vm_compute in Hrun; discriminate].
  exists plot, out'. split; [reflexivity|].
  exact (proj1 (proj2 (proj2 (proj2 (proj2
           (generalized_sweep_shape Oracle.always_fails _ _ _ [] out' plot Hrun)))))).
Defined.

(** X10.  The generalized sweep on an empty cost vector: after the three
    lines of the banner, the write to the first cost ends the first
    iteration with [IndexError], before any problem is built or solved,
    so whatever the solver is. *)
Theorem generalized_sweep_empty_costs
    (linprog : Scipy.linprog_t) (constraints : list (list Q))
    (requirements : list Q) (out : Py.stdout) :
  exists l1 l2 l3,
    GeneralisationApp.study_sensitivity linprog [] constraints requirements out
    = (Py.Raise Py.IndexError, out ++ [l1; l2; l3]).
Proof.
  eexists _, _, _. cbn. rewrite <- !app_assoc. reflexivity.
Qed.

(** ** The sweeps against an exact solver *)

Section ExactSweeps.
Import Question Generalisation Builtins LP.
Local Open Scope Q_scope.
Variable linprog : Scipy.linprog_t.

Lemma recorded_success (r : Scipy.OptimizeResult) (v : Q) :
  Scipy.success r = true -> recorded r v == v.
Proof.
  intros Hs. unfold recorded, or_zero. rewrite Hs.
  destruct (Qeq_bool v 0) eqn:E; [|reflexivity].
  apply Qeq_bool_iff in E. symmetry. exact E.
Qed.

(** Cost and profit agree when both problems are answered exactly. *)
Lemma exact_pair_agree costs constraints requirements r1 r2 :
  Call.primal_exact linprog costs constraints requirements r1 ->
  Call.dual_exact linprog costs constraints requirements r2 ->
  Scipy.fun_ r1 == - Scipy.fun_ r2.
Proof.
  intros (_ & _ & Hopt1) (d & Hdi & _ & _ & Hopt2).
  unfold DualProblem.init in Hdi.
  destruct (Np.transpose constraints) as [At|e] eqn:Ht; [|discriminate].
  injection Hdi as <-. cbn in Hopt1, Hopt2.
  exact (duality_gap_zero costs constraints At requirements r1 r2 Ht Hopt1 Hopt2).
Qed.

(** X11.  The generalized sweep against a solver that answers the primal
    and the dual of every price 1..30 by exact optima, on any data with a
    non-empty cost vector: it returns, the cost and the profit recorded at
    each price are equal, and the cost trajectory never decreases as the
    price of the first lot grows. *)
Theorem generalized_sweep_exact
    (R1 R2 : Z -> Scipy.OptimizeResult)
    (c0 : Q) (rest : list Q) (constraints : list (list Q))
    (requirements : list Q) (out : Py.stdout) :
  (forall p, In p (Py.range 1 31) ->
     Call.gprimal_exact linprog (inject_Z p :: rest) constraints requirements
       (R1 p) /\
     Call.gdual_exact linprog (inject_Z p :: rest) constraints requirements
       (R2 p)) ->
  exists plot out',
    GeneralisationApp.study_sensitivity linprog (c0 :: rest) constraints
      requirements out
    = (Py.Ok plot, out') /\
    (forall i c g,
       GeneralisationApp.plot_costs plot !! i = Some c ->
       GeneralisationApp.plot_profits plot !! i = Some g ->
       c == g) /\
    (forall i j ci cj, (i <= j)%nat ->
       GeneralisationApp.plot_costs plot !! i = Some ci ->
       GeneralisationApp.plot_costs plot !! j = Some cj ->
       ci <= cj).
Proof.
  intros Hall.
  assert (Hans : forall p, In p (Py.range 1 31) ->
            Call.gprimal linprog (inject_Z p :: rest) constraints requirements
            = Py.Ok (R1 p) /\
            Call.gdual linprog (inject_Z p :: rest) constraints requirements
            = Py.Ok (R2 p)).
  { intros p Hp. destruct (Hall p Hp) as [(Hr1 & _) (d & Hd & Hr2 & _)].
    split; [exact Hr1|]. unfold Call.gdual. rewrite Hd. exact Hr2. }
  unfold GeneralisationApp.study_sensitivity.
  unfold Py.bind at 1.
  destruct (GeneralisationApp.banner _ out) as [[[]|e] out0] eqn:Hb;
    [|cbv in Hb; discriminate].
  unfold Py.bind at 1.
  destruct (gsweep_run linprog R1 R2 constraints requirements (Py.range 1 31)
              c0 rest Hans
              {| GeneralisationApp.cost_totals := [];
                 GeneralisationApp.profit_totals := [] |} out0) as (out' & Hrun).
  rewrite Hrun. eexists _, out'. split; [reflexivity|].
  cbn [GeneralisationApp.plot_costs GeneralisationApp.plot_profits
       GeneralisationApp.cost_totals GeneralisationApp.profit_totals app].
  assert (Hcost : forall i c,
            map (fun p => recorded (R1 p) (Scipy.fun_ (R1 p))) (Py.range 1 31) !! i
            = Some c ->
            exists p, Py.range 1 31 !! i = Some p /\ c == Scipy.fun_ (R1 p)).
  { intros i c Hi. change (map ?f ?l) with (f <$> l) in Hi.
    rewrite list_lookup_fmap in Hi. apply fmap_Some in Hi as (p & Hp & ->).
    exists p. split; [exact Hp|].
    destruct (Hall p (lookup_In _ _ _ Hp)) as [(_ & Hs & _) _].
    apply recorded_success, Hs. }
  split.
  - intros i c g Hc Hg.
    destruct (Hcost i c Hc) as (p & Hp & ->).
    rewrite (lookup_map_some _ _ _ _ Hp) in Hg. injection Hg as <-.
    destruct (Hall p (lookup_In _ _ _ Hp)) as [H1 H2].
    assert (Hs2 : Scipy.success (R2 p) = true)
      by (destruct H2 as (d & _ & _ & Hs & _); exact Hs).
    rewrite (recorded_success _ _ Hs2).
    apply (exact_pair_agree (inject_Z p :: rest) constraints requirements).
    + exact H1.
    + apply dual_exact_generalized. exact H2.
  - intros i j ci cj Hij Hi Hj.
    destruct (Hcost i ci Hi) as (p & Hp & ->).
    destruct (Hcost j cj Hj) as (q & Hq & ->).
    pose proof (range_lookup _ _ _ _ Hp) as Ep.
    pose proof (range_lookup _ _ _ _ Hq) as Eq.
    destruct (Hall p (lookup_In _ _ _ Hp)) as [(_ & _ & Hop) _].
    destruct (Hall q (lookup_In _ _ _ Hq)) as [(_ & _ & Hoq) _].
    eapply optimum_monotone_in_first_cost; [|exact Hop|exact Hoq].
    rewrite <- Zle_Qle. lia.
Qed.

(** X12.  The basic sweep against a solver that answers the primal and the
    dual of every price 1..29 by exact optima: it returns with no failure
    diagnostic printed, and at every price the profit handed to the plot
    is 1000000 times the cost handed to the plot, so the two curves of the
    figure are drawn on scales a million apart. *)
Theorem basic_sweep_exact_scale
    (R1 R2 : Z -> Scipy.OptimizeResult) (out : Py.stdout) :
  (forall p, In p (Py.range 1 30) ->
     Call.primal_exact linprog (inject_Z p :: [12; 15])
       ResolutionApp.base_constraints ResolutionApp.base_requirements (R1 p) /\
     Call.dual_exact linprog (inject_Z p :: [12; 15])
       ResolutionApp.base_constraints ResolutionApp.base_requirements (R2 p)) ->
  exists rows plot,
    ResolutionApp.study_price_variation linprog out = (Py.Ok (rows, plot), out) /\
    forall i c g,
      ResolutionApp.plot_costs plot !! i = Some (Some c) ->
      ResolutionApp.plot_profits plot !! i = Some g ->
      g == 1000000 * c.
Proof.
  intros Hall.
  assert (Hsucc : forall p, In p (Py.range 1 30) ->
            Call.succeeded
              (Call.primal linprog (inject_Z p :: [12; 15])
                 ResolutionApp.base_constraints ResolutionApp.base_requirements)
              (R1 p) /\
            Call.succeeded
              (Call.dual linprog (inject_Z p :: [12; 15])
                 ResolutionApp.base_constraints ResolutionApp.base_requirements)
              (R2 p)).
  { intros p Hp. destruct (Hall p Hp) as [(Hr & Hs & _) Hd].
    split; [split; assumption|apply dual_exact_succeeded, Hd]. }
  destruct (basic_sweep_run linprog R1 R2 ResolutionApp.base_constraints
              ResolutionApp.base_requirements (Py.range 1 30) [12; 15] Hsucc
              {| ResolutionApp.costs := ResolutionApp.base_costs;
                 ResolutionApp.cost_totals := [];
                 ResolutionApp.profit_totals := [];
                 ResolutionApp.table := [] |} out 10 eq_refl)
    as (st' & Hrun & Hct & Hpt).
  cbn [ResolutionApp.cost_totals ResolutionApp.profit_totals app] in Hct, Hpt.
  unfold ResolutionApp.study_price_variation, Py.bind. rewrite Hrun.
  eexists _, _. split; [reflexivity|].
  cbn [ResolutionApp.plot_costs ResolutionApp.plot_profits].
  rewrite Hct, Hpt.
  intros i c g Hc Hg.
  change (map ?f ?l) with (f <$> l) in Hc.
  rewrite list_lookup_fmap in Hc. apply fmap_Some in Hc as (p & Hp & [= ->]).
  rewrite (lookup_map_some _ _ _ _ Hp) in Hg. injection Hg as <-.
  destruct (Hall p (lookup_In _ _ _ Hp)) as [H1 H2].
  rewrite (exact_pair_agree _ _ _ _ _ H1 H2). ring.
Qed.

End ExactSweeps.

(** The stand-in solver of scenario 1 is exact wherever its answers
    certify each other. *)
Lemma scenario1_exact_at (p : Z) :
  Oracle.scenario1_certified p = true ->
  Call.primal_exact Oracle.scenario1 (inject_Z p :: [12; 15]%Q)
    ResolutionApp.base_constraints ResolutionApp.base_requirements
    (Oracle.scenario1_primal p) /\
  Call.dual_exact Oracle.scenario1 (inject_Z p :: [12; 15]%Q)
    ResolutionApp.base_constraints ResolutionApp.base_requirements
    (Oracle.scenario1_dual p).
Proof.
  intros Hall.
  unfold Oracle.scenario1_certified in Hall.
  apply andb_prop in Hall as [Hprimal Hdual].
  split.
  - unfold Call.primal_exact, LP.exact_at. cbn zeta.
    split; [reflexivity|]. split; [reflexivity|].
    apply (certifies_optimal _ _ _ _ _ Hprimal).
  - unfold Call.dual_exact.
    destruct (Question.DualProblem.init _ _ _) as [d|e] eqn:Hd; [|discriminate].
    exists d. split; [reflexivity|].
    injection Hd as <-.
    split; [reflexivity|]. split; [reflexivity|].
    apply (certifies_optimal _ _ _ _ _ Hdual).
Qed.

(** Scenario 1 against its exact stand-in solver. *)
Lemma generalized_sweep_exact_witness :
  exists plot out',
    GeneralisationApp.study_sensitivity Oracle.scenario1
      ResolutionApp.base_costs ResolutionApp.base_constraints
      ResolutionApp.base_requirements []
    = (Py.Ok plot, out') /\
    (forall i c g,
       GeneralisationApp.plot_costs plot !! i = Some c ->
       GeneralisationApp.plot_profits plot !! i = Some g ->
       (c == g)%Q).
Proof.
  destruct (generalized_sweep_exact Oracle.scenario1
              Oracle.scenario1_primal Oracle.scenario1_dual
              10%Q [12; 15]%Q ResolutionApp.base_constraints
              ResolutionApp.base_requirements [])
    as (plot & out' & Hrun & Heq & _).
  { intros p Hp.
    assert (Hall : forallb Oracle.scenario1_certified (Py.range 1 31) = true)
      by (vm_compute; reflexivity).
    rewrite forallb_forall in Hall.
    destruct (scenario1_exact_at p (Hall p Hp)) as [H1 H2].
    split; [exact H1|].
    apply (dual_exact_generalized Oracle.scenario1), H2. }
  exists plot, out'. split; [exact Hrun|exact Heq].
Defined.

(** Scenario 1 against its exact stand-in solver. *)
Lemma basic_sweep_exact_scale_witness :
  exists rows plot,
    ResolutionApp.study_price_variation Oracle.scenario1 []
    = (Py.Ok (rows, plot), []) /\
    (forall i c g,
       ResolutionApp.plot_costs plot !! i = Some (Some c) ->
       ResolutionApp.plot_profits plot !! i = Some g ->
       (g == 1000000 * c)%Q).
Proof.
  apply (basic_sweep_exact_scale Oracle.scenario1
           Oracle.scenario1_primal Oracle.scenario1_dual []).
  intros p Hp. apply scenario1_exact, Hp.
Defined.

(** ** The tables of the generalized script *)

Section Tables.
Import Builtins Builtins2 LP.
Local Open Scope Q_scope.

Lemma zip2_length {A B} (a : list A) (b : list B) :
  length (zip2 a b) = Nat.min (length a) (length b).
Proof.
  revert b. induction a as [|u a IH]; intros [|v b]; cbn; try reflexivity.
  rewrite IH. reflexivity.
Qed.

Lemma zip2_lookup {A B} (a : list A) (b : list B) (i : nat) (u : A) (v : B) :
  zip2 a b !! i = Some (u, v) -> a !! i = Some u /\ b !! i = Some v.
Proof.
  revert b i. induction a as [|u' a IH]; intros [|v' b] i; try (destruct i; discriminate).
  destruct i as [|i]; cbn.
  - intros [= <- <-]. split; reflexivity.
  - apply IH.
Qed.

Lemma zip3_length {A B C} (a : list A) (b : list B) (c : list C) :
  length (zip3 a b c)
  = Nat.min (length a) (Nat.min (length b) (length c)).
Proof.
  revert b c. induction a as [|u a IH]; intros [|v b] [|w c]; cbn;
    try reflexivity.
  rewrite IH. reflexivity.
Qed.

Lemma zip4_length {A B C D} (a : list A) (b : list B) (c : list C) (d : list D) :
  length (zip4 a b c d)
  = Nat.min (Nat.min (length a) (length b)) (Nat.min (length c) (length d)).
Proof.
  revert b c d. induction a as [|u a IH]; intros [|v b] [|w c] [|x d]; cbn;
    try reflexivity; try lia.
  rewrite IH. reflexivity.
Qed.

Lemma enumerate_length {A} (s : nat) (l : list A) :
  length (enumerate s l) = length l.
Proof.
  revert s. induction l as [|a l IH]; intros s; cbn; [reflexivity|].
  rewrite IH. reflexivity.
Qed.

Lemma enumerate_lookup {A} (s : nat) (l : list A) (i : nat) (ia : nat * A) :
  enumerate s l !! i = Some ia -> fst ia = (s + i)%nat /\ l !! i = Some (snd ia).
Proof.
  revert s i. induction l as [|a l IH]; intros s i; [destruct i; discriminate|].
  destruct i as [|i]; cbn.
  - intros [= <-]. split; [cbn; lia|reflexivity].
  - intros H. destruct (IH _ _ H) as [H1 H2]. split; [lia|exact H2].
Qed.

Lemma banner_prints (width : nat) (title : string) (out : Py.stdout) :
  exists l1 l2 l3, banner width title out = (Py.Ok tt, out ++ [l1; l2; l3]).
Proof.
  eexists _, _, _. cbv [banner Py.bind Py.print]. rewrite <- !app_assoc.
  reflexivity.
Qed.

Lemma primal_loop_fold (l : list (nat * (Q * Q)))
    (acc : list GeneralisationMain.PrimalRow * Q) :
  fst (fold_left GeneralisationMain.primal_step l acc)
  = fst acc ++
    map (fun iqc : nat * (Q * Q) =>
           {| GeneralisationMain.pr_lot := fst iqc;
              GeneralisationMain.pr_quantity := Py.round (fst (snd iqc)) 2;
              GeneralisationMain.pr_unit_cost := snd (snd iqc);
              GeneralisationMain.pr_total :=
                Py.round (fst (snd iqc) * snd (snd iqc)) 2 |}) l /\
  snd (fold_left GeneralisationMain.primal_step l acc)
  == snd acc + dot (map (fun iqc => fst (snd iqc)) l)
                   (map (fun iqc => snd (snd iqc)) l).
Proof.
  revert acc. induction l as [|[i [q c]] l IH]; intros acc.
  - cbn. rewrite app_nil_r. split; [reflexivity|ring].
  - cbn [fold_left]. destruct (IH (GeneralisationMain.primal_step acc (i, (q, c))))
      as [IH1 IH2].
    rewrite IH1, IH2. cbn. rewrite <- app_assoc. split; [reflexivity|ring].
Qed.

Lemma dot_zip2 (s : nat) (u v : list Q) :
  dot (map (fun iqc : nat * (Q * Q) => fst (snd iqc)) (enumerate s (zip2 u v)))
      (map (fun iqc : nat * (Q * Q) => snd (snd iqc)) (enumerate s (zip2 u v)))
  = dot u v.
Proof.
  revert s v. induction u as [|a u IH]; intros s [|b v]; cbn; try reflexivity.
  rewrite IH. reflexivity.
Qed.

(** The primal table on a solution. *)
Lemma primal_table_spec (lots costs : list Q) (out : Py.stdout) :
  exists table l1 l2 l3,
    GeneralisationMain.display_primal_solution (Some lots) costs out
    = (Py.Ok (table, Py.round (dot lots costs) 2), out ++ [l1; l2; l3]) /\
    length table = Nat.min (length lots) (length costs) /\
    forall i row, table !! i = Some row ->
      GeneralisationMain.pr_lot row = S i /\
      (exists q, lots !! i = Some q /\
         GeneralisationMain.pr_quantity row = Py.round q 2) /\
      costs !! i = Some (GeneralisationMain.pr_unit_cost row).
Proof.
  unfold GeneralisationMain.display_primal_solution.
  unfold Py.bind at 1.
  destruct (banner_prints 110
    "                  QUESTION 1 : Quelle est la solution optimale pour le Client (minimiser les coûts)"
    out) as (l1 & l2 & l3 & ->).
  cbn [Py.not_none]. unfold Py.bind, Py.ret.
  unfold GeneralisationMain.primal_loop.
  destruct (primal_loop_fold (enumerate 1 (zip2 lots costs)) (nil, 0)) as [H1 H2].
  destruct (fold_left _ _ _) as [table total]. cbn [fst snd] in H1, H2.
  rewrite dot_zip2 in H2.
  exists table, l1, l2, l3. split.
  { do 3 f_equal. apply round_proper. rewrite H2. ring. }
  subst table. cbn [app]. split.
  { rewrite length_map, enumerate_length. apply zip2_length. }
  intros i row Hi.
  change (map ?f ?l) with (f <$> l) in Hi. rewrite list_lookup_fmap in Hi.
  apply fmap_Some in Hi as ([n [q c]] & Hi & ->). cbn.
  apply enumerate_lookup in Hi as [Hn Hz]. cbn in Hn, Hz.
  apply zip2_lookup in Hz as [Hq Hc].
  split; [exact Hn|]. split; [exists q; split; [exact Hq|reflexivity]|exact Hc].
Qed.

(** X13.  The primal table of the generalized script, given a solution:
    after the three lines of the banner it shows one row per lot that has
    both a quantity and a cost, numbered from 1, and the total under the
    table is the scalar product of the quantities and the unit costs,
    rounded to 2 decimals. *)
Theorem display_primal_solution_total (lots costs : list Q) (out : Py.stdout) :
  exists table l1 l2 l3,
    GeneralisationMain.display_primal_solution (Some lots) costs out
    = (Py.Ok (table, Py.round (dot lots costs) 2), out ++ [l1; l2; l3]) /\
    length table = Nat.min (length lots) (length costs) /\
    forall i row, table !! i = Some row ->
      GeneralisationMain.pr_lot row = S i /\
      (exists q, lots !! i = Some q /\
         GeneralisationMain.pr_quantity row = Py.round q 2) /\
      costs !! i = Some (GeneralisationMain.pr_unit_cost row).
Proof. exact (primal_table_spec lots costs out). Qed.

Lemma dual_total_dot (armes : list string) (prices requirements : list Q) (s : Q) :
  fold_left (fun (s : Q) (apr : string * Q * Q) =>
               let '(_, price, req) := apr in s + price * req)
    (zip3 armes prices requirements) s
  == s + dot (take (length armes) prices) requirements.
Proof.
  revert prices requirements s.
  induction armes as [|a armes IH]; intros prices requirements s.
  - cbn. rewrite take_0. cbn. ring.
  - destruct prices as [|p prices]; [cbn; ring|].
    destruct requirements as [|r requirements].
    + cbn [zip3 fold_left length]. rewrite firstn_cons. cbn. ring.
    + cbn [zip3 fold_left length]. rewrite firstn_cons, IH. cbn. ring.
Qed.

(** The dual table on a solution. *)
Lemma dual_table_spec
    (prices requirements : list Q) (armes : list string) (out : Py.stdout) :
  exists table total out',
    GeneralisationApp.display_dual_solution (Some prices) requirements armes out
    = (Py.Ok (table, total), out') /\
    length table
    = Nat.min (length armes) (Nat.min (length prices) (length requirements)) /\
    total == dot (take (length armes) prices) requirements /\
    ((length prices <= length armes)%nat -> total == dot prices requirements).
Proof.
  unfold GeneralisationApp.display_dual_solution.
  unfold Py.bind at 1.
  destruct (GeneralisationApp.banner _ out) as [[[]|e] out0] eqn:Hb;
    [|cbv in Hb; discriminate].
  cbn [Py.not_none]. unfold Py.bind, Py.ret.
  destruct (dual_step_fold (zip3 armes prices requirements) (nil, 0)) as [H1 H2].
  destruct (fold_left GeneralisationApp.dual_step _ _) as [table total].
  cbn [fst snd] in H1, H2.
  exists table, total, out0. split; [reflexivity|].
  split; [subst table; cbn [app]; rewrite length_map; apply zip3_length|].
  assert (Ht : total == dot (take (length armes) prices) requirements).
  { rewrite H2, dual_total_dot. ring. }
  split; [exact Ht|].
  intros Hle. rewrite Ht, take_ge by exact Hle. reflexivity.
Qed.

(** X14.  The dual table of the generalized script returns, unrounded,
    the scalar product of the unit prices and the requirements over the
    weapons that have a name: a price beyond the last name is left out of
    the total, and with a name for every price the total is the full
    scalar product. *)
Theorem display_dual_solution_total
    (prices requirements : list Q) (armes : list string) (out : Py.stdout) :
  exists table total out',
    GeneralisationApp.display_dual_solution (Some prices) requirements armes out
    = (Py.Ok (table, total), out') /\
    length table
    = Nat.min (length armes) (Nat.min (length prices) (length requirements)) /\
    total == dot (take (length armes) prices) requirements /\
    ((length prices <= length armes)%nat -> total == dot prices requirements).
Proof. exact (dual_table_spec prices requirements armes out). Qed.

Lemma compare_loop_fold (l : list (nat * (Q * Q * Q * Q)))
    (acc : list GeneralisationMain.CompareRow * Q * Q) :
  length (fst (fst (fold_left GeneralisationMain.compare_step l acc)))
  = (length (fst (fst acc)) + length l)%nat /\
  snd (fst (fold_left GeneralisationMain.compare_step l acc))
  == snd (fst acc)
     + dot (map (fun r => fst (fst (fst (snd r)))) l)
           (map (fun r => snd (fst (fst (snd r)))) l) /\
  snd (fold_left GeneralisationMain.compare_step l acc)
  == snd acc
     + dot (map (fun r => snd (fst (snd r))) l)
           (map (fun r => snd (snd r)) l).
Proof.
  revert acc. induction l as [|[i [[[lot cost] price] req]] l IH]; intros acc.
  - cbn. split; [lia|]. split; ring.
  - cbn [fold_left].
    destruct (IH (GeneralisationMain.compare_step acc (i, (lot, cost, price, req))))
      as (IH1 & IH2 & IH3).
    rewrite IH1, IH2, IH3. destruct acc as [[table tc] tb]. cbn.
    rewrite length_app. cbn. split; [lia|]. split; ring.
Qed.

Lemma dot_zip4_costs (s : nat) (a b c d : list Q) :
  dot (map (fun r : nat * (Q * Q * Q * Q) => fst (fst (fst (snd r))))
         (enumerate s (zip4 a b c d)))
      (map (fun r : nat * (Q * Q * Q * Q) => snd (fst (fst (snd r))))
         (enumerate s (zip4 a b c d)))
  = dot (take (length (zip4 a b c d)) a) b.
Proof.
  revert s b c d. induction a as [|u a IH]; intros s [|v b] [|w c] [|x d];
    try (cbn; rewrite ?take_0; reflexivity).
  cbn [zip4 enumerate map length fst snd]. rewrite firstn_cons. cbn [dot].
  rewrite IH. reflexivity.
Qed.

Lemma dot_zip4_benefits (s : nat) (a b c d : list Q) :
  dot (map (fun r : nat * (Q * Q * Q * Q) => snd (fst (snd r)))
         (enumerate s (zip4 a b c d)))
      (map (fun r : nat * (Q * Q * Q * Q) => snd (snd r))
         (enumerate s (zip4 a b c d)))
  = dot (take (length (zip4 a b c d)) c) d.
Proof.
  revert s b c d. induction a as [|u a IH]; intros s [|v b] [|w c] [|x d];
    try (cbn; rewrite ?take_0; reflexivity).
  cbn [zip4 enumerate map length fst snd]. rewrite firstn_cons. cbn [dot].
  rewrite IH. reflexivity.
Qed.

(** The comparative table on two solutions. *)
Lemma compare_table_spec
    (lots costs prices requirements : list Q) (armes : list string)
    (out : Py.stdout) :
  let k := Nat.min (Nat.min (length lots) (length costs))
             (Nat.min (length prices) (length requirements)) in
  exists table l1 l2 l3,
    GeneralisationMain.display_comparative_table (Some lots) costs (Some prices)
      armes requirements out
    = (Py.Ok (table,
              Py.round (dot (take k lots) costs) 2,
              Py.round (dot (take k prices) requirements) 2),
       out ++ [l1; l2; l3]) /\
    length table = k.
Proof.
  intros k.
  unfold GeneralisationMain.display_comparative_table.
  unfold Py.bind at 1.
  destruct (banner_prints 110 "                  QUESTION 3 : COMPARAISON PRIMAL / DUAL"
              out) as (l1 & l2 & l3 & ->).
  cbn [Py.not_none]. unfold Py.bind, Py.ret.
  unfold GeneralisationMain.compare_loop.
  destruct (compare_loop_fold (enumerate 1 (zip4 lots costs prices requirements))
              (nil, 0, 0)) as (H1 & H2 & H3).
  destruct (fold_left _ _ _) as [[table tc] tb]. cbn [fst snd length] in H1, H2, H3.
  rewrite dot_zip4_costs in H2. rewrite dot_zip4_benefits in H3.
  rewrite enumerate_length in H1. rewrite zip4_length in H1, H2, H3.
  fold k in H1, H2, H3.
  exists table, l1, l2, l3. split; [|exact H1].
  do 3 f_equal; [f_equal|]; apply round_proper; [rewrite H2|rewrite H3]; ring.
Qed.

(** X15.  The comparative table pairs the lots with the weapons row by
    row: it has as many rows as the shortest of quantities, costs, prices
    and requirements, and both totals run over these rows only.  With
    fewer lots than weapons, the total benefit under the table leaves out
    the weapons beyond the number of lots.  The weapon names are not
    read. *)
Theorem comparative_table_truncates
    (lots costs prices requirements : list Q) (armes : list string)
    (out : Py.stdout) :
  let k := Nat.min (Nat.min (length lots) (length costs))
             (Nat.min (length prices) (length requirements)) in
  exists table l1 l2 l3,
    GeneralisationMain.display_comparative_table (Some lots) costs (Some prices)
      armes requirements out
    = (Py.Ok (table,
              Py.round (dot (take k lots) costs) 2,
              Py.round (dot (take k prices) requirements) 2),
       out ++ [l1; l2; l3]) /\
    length table = k.
Proof. exact (compare_table_spec lots costs prices requirements armes out). Qed.

End Tables.

Section LotTableCases.
Import Builtins Builtins2.
Variable constraints : list (list Q).

Lemma cells_ok (i : nat) (row : list Q) (out : Py.stdout) :
  constraints !! i = Some row ->
  forall n s, (s + n <= length row)%nat ->
    traverse (LotTable.cell constraints i) (seq s n) out = (Py.Ok (take n (drop s row)), out).
Proof.
  intros Hrow. induction n as [|n IH]; intros s Hle.
  - cbn. rewrite take_0. reflexivity.
  - cbn [seq traverse]. unfold Py.bind at 1. unfold LotTable.cell at 1.
    unfold Py.bind at 1, Py.lift at 1, getitem at 1. rewrite Hrow.
    unfold Py.lift, getitem.
    destruct (row !! s) as [v|] eqn:Hv.
    2:{ apply lookup_ge_None in Hv. lia. }
    unfold Py.bind at 1. rewrite IH by lia. cbn.
    rewrite (drop_S _ _ _ Hv). rewrite firstn_cons. reflexivity.
Qed.

Lemma cells_short (i : nat) (row : list Q) (out : Py.stdout) :
  constraints !! i = Some row ->
  forall n s, (s <= length row)%nat -> (length row < s + n)%nat ->
    traverse (LotTable.cell constraints i) (seq s n) out = (Py.Raise Py.IndexError, out).
Proof.
  intros Hrow. induction n as [|n IH]; intros s Hs Hlt; [lia|].
  cbn [seq traverse]. unfold Py.bind at 1. unfold LotTable.cell at 1.
  unfold Py.bind at 1, Py.lift at 1, getitem at 1. rewrite Hrow.
  unfold Py.lift, getitem.
  destruct (row !! s) as [v|] eqn:Hv; [|reflexivity].
  apply lookup_lt_Some in Hv.
  unfold Py.bind at 1. rewrite IH by lia. reflexivity.
Qed.

Lemma cells_no_row (i : nat) (out : Py.stdout) :
  constraints !! i = None ->
  forall n s, traverse (LotTable.cell constraints i) (seq s (S n)) out = (Py.Raise Py.IndexError, out).
Proof.
  intros Hrow n s. cbn [seq traverse]. unfold Py.bind at 1. unfold LotTable.cell at 1.
  unfold Py.bind at 1, Py.lift at 1, getitem at 1. rewrite Hrow. reflexivity.
Qed.

Lemma lot_row_cases (n i : nat) (arme : string) (out : Py.stdout) :
  GeneralisationMain.lot_row constraints n (i, arme) out
  = if Nat.eqb n 0 || LotTable.row_ok constraints n i
    then (Py.Ok (arme, take n (nth i constraints [])), out)
    else (Py.Raise Py.IndexError, out).
Proof.
  unfold GeneralisationMain.lot_row. unfold Py.bind at 1.
  change (fun j : nat =>
            let* row := Py.lift (getitem constraints i) in Py.lift (getitem row j))
    with (LotTable.cell constraints i).
  destruct n as [|n].
  - cbn. rewrite take_0. reflexivity.
  - cbn [Nat.eqb orb]. unfold LotTable.row_ok.
    destruct (constraints !! i) as [row|] eqn:Hrow.
    + rewrite (nth_lookup_Some _ _ [] _ Hrow).
      destruct (Nat.leb_spec (S n) (length row)) as [Hle|Hlt].
      * rewrite (cells_ok i row out Hrow (S n) 0) by lia.
        rewrite drop_0. reflexivity.
      * rewrite (cells_short i row out Hrow (S n) 0) by lia. reflexivity.
    + rewrite (cells_no_row i out Hrow). reflexivity.
Qed.

Lemma lot_rows_cases (n : nat) (armes : list string) (out : Py.stdout) :
  forall s,
    traverse (GeneralisationMain.lot_row constraints n) (enumerate s armes) out
    = if Nat.eqb n 0
         || forallb (LotTable.row_ok constraints n) (seq s (length armes))
      then (Py.Ok (map (fun ia : nat * string =>
                          (snd ia, take n (nth (fst ia) constraints [])))
                     (enumerate s armes)), out)
      else (Py.Raise Py.IndexError, out).
Proof.
  induction armes as [|a armes IH]; intros s.
  - cbn. rewrite orb_true_r. reflexivity.
  - cbn [enumerate traverse length seq forallb map fst snd].
    unfold Py.bind at 1. rewrite lot_row_cases.
    destruct (Nat.eqb n 0) eqn:Hn.
    + cbn [orb]. unfold Py.bind at 1. rewrite IH. cbn [orb]. reflexivity.
    + cbn [orb]. destruct (LotTable.row_ok constraints n s); cbn [andb].
      * unfold Py.bind at 1. rewrite IH. cbn [orb].
        destruct (forallb _ _); reflexivity.
      * reflexivity.
Qed.

End LotTableCases.

(** The table of the lots, case by case. *)
Lemma lot_table_spec
    (constraints : list (list Q)) (costs : list Q) (armes : list string)
    (out : Py.stdout) :
  GeneralisationMain.display_lot_table constraints costs armes out
  = (if LotTable.indexable constraints (length costs) armes
     then (Py.Ok (LotTable.rows constraints (length costs) armes, costs), out)
     else (Py.Raise Py.IndexError, out)) /\
  ((length armes <= length constraints)%nat ->
   Forall (fun row => (length costs <= length row)%nat) constraints ->
   LotTable.indexable constraints (length costs) armes = true) /\
  ((length constraints < length armes)%nat -> costs <> [] ->
   LotTable.indexable constraints (length costs) armes = false).
Proof.
  split; [|split].
  - unfold GeneralisationMain.display_lot_table. unfold Py.bind at 1.
    rewrite lot_rows_cases. unfold LotTable.indexable, LotTable.rows.
    destruct (_ || _); reflexivity.
  - intros Hlen Hrows. unfold LotTable.indexable.
    apply orb_true_iff. right. apply forallb_forall. intros i Hi.
    apply in_seq in Hi. unfold LotTable.row_ok.
    destruct (constraints !! i) as [row|] eqn:Hrow.
    + apply Nat.leb_le.
      rewrite Forall_forall in Hrows. apply Hrows.
      apply list_elem_of_lookup. exists i. exact Hrow.
    + apply lookup_ge_None in Hrow. lia.
  - intros Hlen Hne. unfold LotTable.indexable.
    apply orb_false_iff. split.
    + destruct costs; [contradiction|reflexivity].
    + apply not_true_is_false. intros Hall.
      rewrite forallb_forall in Hall.
      specialize (Hall (length constraints)).
      unfold LotTable.row_ok in Hall.
      rewrite (proj2 (lookup_ge_None constraints (length constraints)))
        in Hall by lia.
      discriminate Hall. apply in_seq. lia.
Qed.

(** X16.  The table of the lots indexes the matrix by weapon and by lot:
    it returns, printing nothing of its own before the table, exactly when
    there is no lot or every named weapon has a row with a cell for each
    cost; its rows are then the names followed by the first [len(costs)]
    cells of the weapon's row, and the last row is the cost vector.
    Otherwise it ends with [IndexError].  In particular a matrix with a
    long enough row for every name is accepted, and one more name than
    rows is refused as soon as there is a lot. *)
Theorem display_lot_table_cases
    (constraints : list (list Q)) (costs : list Q) (armes : list string)
    (out : Py.stdout) :
  GeneralisationMain.display_lot_table constraints costs armes out
  = (if LotTable.indexable constraints (length costs) armes
     then (Py.Ok (LotTable.rows constraints (length costs) armes, costs), out)
     else (Py.Raise Py.IndexError, out)) /\
  ((length armes <= length constraints)%nat ->
   Forall (fun row => (length costs <= length row)%nat) constraints ->
   LotTable.indexable constraints (length costs) armes = true) /\
  ((length constraints < length armes)%nat -> costs <> [] ->
   LotTable.indexable constraints (length costs) armes = false).
Proof. exact (lot_table_spec constraints costs armes out). Qed.

(** ** [main] of the generalized script *)

Section GeneralizedMain.
Import Generalisation Builtins Builtins2 LP.
Local Open Scope Q_scope.
Variable linprog : Scipy.linprog_t.

Lemma gprimal_solve_inv p out lots cost out' :
  GeneralizedPrimalProblem.solve linprog p out = (Py.Ok (lots, cost), out') ->
  exists r,
    linprog (GeneralizedPrimalProblem.costs p)
      (GeneralizedPrimalProblem.constraints p)
      (GeneralizedPrimalProblem.requirements p) = Py.Ok r /\
    lots = (if Scipy.success r then Some (Scipy.x r) else None) /\
    cost = (if Scipy.success r then Some (Scipy.fun_ r) else None).
Proof.
  destruct (linprog (GeneralizedPrimalProblem.costs p)
              (GeneralizedPrimalProblem.constraints p)
              (GeneralizedPrimalProblem.requirements p)) as [r|e] eqn:Hr.
  - rewrite (gprimal_solve_cases linprog p r out Hr). intros H.
    exists r. split; [reflexivity|].
    destruct (Scipy.success r); injection H as <- <- _; split; reflexivity.
  - unfold GeneralizedPrimalProblem.solve, Py.bind, Py.lift. rewrite Hr.
    discriminate.
Qed.

Lemma gdual_solve_inv d out prices profit out' :
  GeneralizedDualProblem.solve linprog d out = (Py.Ok (prices, profit), out') ->
  exists r,
    linprog (GeneralizedDualProblem.costs d)
      (GeneralizedDualProblem.constraints d)
      (GeneralizedDualProblem.requirements d) = Py.Ok r /\
    prices = (if Scipy.success r then Some (Scipy.x r) else None) /\
    profit = (if Scipy.success r then Some (- Scipy.fun_ r) else None).
Proof.
  destruct (linprog (GeneralizedDualProblem.costs d)
              (GeneralizedDualProblem.constraints d)
              (GeneralizedDualProblem.requirements d)) as [r|e] eqn:Hr.
  - rewrite (gdual_solve_cases linprog d r out Hr). intros H.
    exists r. split; [reflexivity|].
    destruct (Scipy.success r); injection H as <- <- _; split; reflexivity.
  - unfold GeneralizedDualProblem.solve, Py.bind, Py.lift. rewrite Hr.
    discriminate.
Qed.

(** Without a solution the tables end with [TypeError], after their
    banner. *)
Lemma display_primal_solution_none costs out :
  exists out',
    GeneralisationMain.display_primal_solution None costs out
    = (Py.Raise Py.TypeError, out').
Proof.
  unfold GeneralisationMain.display_primal_solution. unfold Py.bind at 1.
  destruct (banner_prints 110
    "                  QUESTION 1 : Quelle est la solution optimale pour le Client (minimiser les coûts)"
    out) as (l1 & l2 & l3 & ->).
  eexists. reflexivity.
Qed.

Lemma display_dual_solution_none requirements armes out :
  exists out',
    GeneralisationApp.display_dual_solution None requirements armes out
    = (Py.Raise Py.TypeError, out').
Proof.
  unfold GeneralisationApp.display_dual_solution. unfold Py.bind at 1.
  destruct (GeneralisationApp.banner _ out) as [[[]|e] out0] eqn:Hb;
    [|cbv in Hb; discriminate].
  eexists. reflexivity.
Qed.

Lemma lot_table_stdout constraints costs armes out r out' :
  GeneralisationMain.display_lot_table constraints costs armes out = (r, out') ->
  out' = out.
Proof.
  destruct (lot_table_spec constraints costs armes out) as [E _].
  rewrite E. destruct (LotTable.indexable _ _ _); intros [= _ <-]; reflexivity.
Qed.

(** [main] step by step, when it returns. *)
Lemma gmain_inv data out shown out' :
  GeneralisationMain.main linprog data out = (Py.Ok shown, out') ->
  exists r1 r2 o1 o2 o3 o4,
    Call.succeeded
      (Call.gprimal linprog (GeneralisationMain.costs data)
         (GeneralisationMain.constraints data)
         (GeneralisationMain.requirements data)) r1 /\
    Call.succeeded
      (Call.gdual linprog (GeneralisationMain.costs data)
         (GeneralisationMain.constraints data)
         (GeneralisationMain.requirements data)) r2 /\
    GeneralisationMain.display_lot_table (GeneralisationMain.constraints data)
      (GeneralisationMain.costs data) (GeneralisationMain.armes data) o1
    = (Py.Ok (GeneralisationMain.lot_table shown), o1) /\
    GeneralisationMain.display_primal_solution (Some (Scipy.x r1))
      (GeneralisationMain.costs data) o1
    = (Py.Ok (GeneralisationMain.primal_table shown), o2) /\
    GeneralisationApp.display_dual_solution (Some (Scipy.x r2))
      (GeneralisationMain.requirements data) (GeneralisationMain.armes data) o2
    = (Py.Ok (GeneralisationMain.dual_table shown), o3) /\
    GeneralisationMain.display_comparative_table (Some (Scipy.x r1))
      (GeneralisationMain.costs data) (Some (Scipy.x r2))
      (GeneralisationMain.armes data) (GeneralisationMain.requirements data) o3
    = (Py.Ok (GeneralisationMain.compare_table shown), o4) /\
    GeneralisationApp.study_sensitivity linprog (GeneralisationMain.costs data)
      (GeneralisationMain.constraints data) (GeneralisationMain.requirements data) o4
    = (Py.Ok (GeneralisationMain.sweep shown), out').
Proof.
  unfold GeneralisationMain.main.
  unfold Py.bind at 1.
  destruct (banner_prints 80
    "               GÉNÉRALISATION D'UN PROBLÈME D'OPTIMISATION LINÉAIRE" out)
    as (l1 & l2 & l3 & ->).
  set (o1 := out ++ [l1; l2; l3]).
  unfold Py.bind at 1.
  destruct (GeneralisationMain.display_lot_table _ _ _ o1) as [[t0|e] o1'] eqn:H0;
    [|discriminate].
  pose proof (lot_table_stdout _ _ _ _ _ _ H0) as ->.
  unfold Py.bind at 1.
  destruct (GeneralizedPrimalProblem.solve _ _ o1) as [[[lots cost]|e] o1'] eqn:H1;
    [|discriminate].
  destruct (gprimal_solve_inv _ _ _ _ _ H1) as (r1 & Hr1 & -> & ->).
  rewrite (gprimal_solve_cases linprog _ r1 o1 Hr1) in H1.
  unfold Py.bind at 1.
  destruct (GeneralisationMain.display_primal_solution _ _ o1') as [[t1|e] o2] eqn:H2;
    [|discriminate].
  destruct (Scipy.success r1) eqn:Hs1.
  2:{ destruct (display_primal_solution_none (GeneralisationMain.costs data) o1')
        as (o & Ho). rewrite Ho in H2. discriminate. }
  injection H1 as <-.
  unfold Py.bind at 1. unfold Py.lift at 1.
  destruct (GeneralizedDualProblem.init _ _ _) as [d|e] eqn:Hd; [|discriminate].
  unfold Py.bind at 1.
  destruct (GeneralizedDualProblem.solve _ _ o2) as [[[prices profit]|e] o2'] eqn:H3;
    [|discriminate].
  destruct (gdual_solve_inv _ _ _ _ _ H3) as (r2 & Hr2 & -> & ->).
  rewrite (gdual_solve_cases linprog _ r2 o2 Hr2) in H3.
  unfold Py.bind at 1.
  destruct (GeneralisationApp.display_dual_solution _ _ _ o2') as [[t2|e] o3] eqn:H4;
    [|discriminate].
  destruct (Scipy.success r2) eqn:Hs2.
  2:{ destruct (display_dual_solution_none (GeneralisationMain.requirements data)
                  (GeneralisationMain.armes data) o2') as (o & Ho).
      rewrite Ho in H4. discriminate. }
  injection H3 as <-.
  unfold Py.bind at 1.
  destruct (GeneralisationMain.display_comparative_table _ _ _ _ _ o3)
    as [[t3|e] o4] eqn:H5; [|discriminate].
  unfold Py.bind at 1.
  destruct (GeneralisationApp.study_sensitivity _ _ _ _ o4) as [[s|e] o5] eqn:H6;
    [|discriminate].
  intros [= <- <-]. cbn.
  exists r1, r2, o1, o2, o3, o4.
  split; [split; assumption|].
  split; [unfold Call.gdual; rewrite Hd; split; assumption|].
  repeat split; assumption.
Qed.

(** X17.  The generalized [main] returns only if the table of the lots
    could be indexed, the cost vector is not empty, the matrix is
    rectangular, and the solver reported success for the primal and for
    the dual of the data.  The total under the primal table is then the
    scalar product of the solver's quantities and the costs, rounded to 2
    decimals, the total of the dual table is the scalar product of the
    solver's prices of the named weapons and the requirements, and the
    sweep hands 30 entries per trajectory to the plot. *)
Theorem generalized_main_returns
    (data : GeneralisationMain.Data) (out out' : Py.stdout)
    (shown : GeneralisationMain.Shown) :
  GeneralisationMain.main linprog data out = (Py.Ok shown, out') ->
  LotTable.indexable (GeneralisationMain.constraints data)
    (length (GeneralisationMain.costs data)) (GeneralisationMain.armes data)
  = true /\
  GeneralisationMain.costs data <> [] /\
  Np.rectangular (GeneralisationMain.constraints data) = true /\
  exists r1 r2,
    Call.succeeded
      (Call.gprimal linprog (GeneralisationMain.costs data)
         (GeneralisationMain.constraints data)
         (GeneralisationMain.requirements data)) r1 /\
    Call.succeeded
      (Call.gdual linprog (GeneralisationMain.costs data)
         (GeneralisationMain.constraints data)
         (GeneralisationMain.requirements data)) r2 /\
    snd (GeneralisationMain.primal_table shown)
    = Py.round (dot (Scipy.x r1) (GeneralisationMain.costs data)) 2 /\
    snd (GeneralisationMain.dual_table shown)
    == dot (take (length (GeneralisationMain.armes data)) (Scipy.x r2))
         (GeneralisationMain.requirements data) /\
    length (GeneralisationApp.plot_costs (GeneralisationMain.sweep shown)) = 30%nat /\
    length (GeneralisationApp.plot_profits (GeneralisationMain.sweep shown)) = 30%nat.
Proof.
  intros Hrun.
  destruct (gmain_inv data out shown out' Hrun)
    as (r1 & r2 & o1 & o2 & o3 & o4 & Hs1 & Hs2 & H0 & H1 & H2 & H3 & H4).
  destruct (study_sensitivity_inv linprog _ _ _ _ _ _ H4)
    as (Hne & Hrect & _ & _ & Hc & Hp).
  split.
  { destruct (lot_table_spec (GeneralisationMain.constraints data)
                (GeneralisationMain.costs data) (GeneralisationMain.armes data) o1)
      as [E _].
    rewrite E in H0. destruct (LotTable.indexable _ _ _); [reflexivity|discriminate]. }
  split; [exact Hne|]. split; [exact Hrect|].
  exists r1, r2. split; [exact Hs1|]. split; [exact Hs2|].
  split.
  { destruct (primal_table_spec (Scipy.x r1) (GeneralisationMain.costs data) o1)
      as (table & l1 & l2 & l3 & E & _).
    rewrite E in H1. injection H1 as <- _. reflexivity. }
  split.
  { destruct (dual_table_spec (Scipy.x r2) (GeneralisationMain.requirements data)
                (GeneralisationMain.armes data) o2)
      as (table & total & o & E & _ & Ht & _).
    rewrite E in H2. injection H2 as <- _. exact Ht. }
  split; assumption.
Qed.

(** X18.  The sentinel of a failed solve is not handled by the generalized
    [main]: when the table of the lots can be indexed and the solver
    answers the primal and the dual of the data, a reported failure of
    either makes [main] end with [TypeError], in the table of the problem
    that failed, and the sweep is never reached. *)
Theorem generalized_main_unsolved
    (data : GeneralisationMain.Data) (out : Py.stdout)
    (r1 r2 : Scipy.OptimizeResult) :
  LotTable.indexable (GeneralisationMain.constraints data)
    (length (GeneralisationMain.costs data)) (GeneralisationMain.armes data)
  = true ->
  Call.gprimal linprog (GeneralisationMain.costs data)
    (GeneralisationMain.constraints data) (GeneralisationMain.requirements data)
  = Py.Ok r1 ->
  Call.gdual linprog (GeneralisationMain.costs data)
    (GeneralisationMain.constraints data) (GeneralisationMain.requirements data)
  = Py.Ok r2 ->
  Scipy.success r1 = false \/ Scipy.success r2 = false ->
  exists out',
    GeneralisationMain.main linprog data out = (Py.Raise Py.TypeError, out').
Proof.
  intros Hidx Hr1 Hr2 Hfail.
  destruct (gdual_call_init linprog _ _ _ _ Hr2) as (d & Hd & Hlin).
  unfold GeneralisationMain.main.
  unfold Py.bind at 1.
  destruct (banner_prints 80
    "               GÉNÉRALISATION D'UN PROBLÈME D'OPTIMISATION LINÉAIRE" out)
    as (l1 & l2 & l3 & ->).
  set (o1 := out ++ [l1; l2; l3]).
  unfold Py.bind at 1.
  destruct (lot_table_spec (GeneralisationMain.constraints data)
              (GeneralisationMain.costs data) (GeneralisationMain.armes data) o1)
    as [E _].
  rewrite E, Hidx.
  unfold Py.bind at 1.
  rewrite (gprimal_solve_cases linprog _ r1 o1 Hr1).
  destruct (Scipy.success r1) eqn:Hs1.
  - destruct Hfail as [Hf|Hs2]; [discriminate|].
    unfold Py.bind at 1.
    destruct (primal_table_spec (Scipy.x r1) (GeneralisationMain.costs data) o1)
      as (table & m1 & m2 & m3 & E1 & _).
    rewrite E1.
    unfold Py.bind at 1. unfold Py.lift at 1. rewrite Hd.
    unfold Py.bind at 1.
    rewrite (gdual_solve_cases linprog _ r2 _ Hlin), Hs2.
    unfold Py.bind at 1.
    destruct (display_dual_solution_none (GeneralisationMain.requirements data)
                (GeneralisationMain.armes data)
                ((o1 ++ [m1; m2; m3]) ++ ["Aucune solution optimale trouvée"]))
      as (o & Ho).
    rewrite Ho. exists o. reflexivity.
  - unfold Py.bind at 1.
    destruct (display_primal_solution_none (GeneralisationMain.costs data)
                (o1 ++ ["Aucune solution optimale trouvée"])) as (o & Ho).
    rewrite Ho. exists o. reflexivity.
Qed.

(** X19.  The totals the generalized [main] shows agree when the solver
    answers the primal and the dual of the data by exact optima and every
    weapon has a name: the total under the primal table is the total the
    dual table returns, rounded to 2 decimals; and with no more lots than
    weapons, the cost total under the comparative table is the one under
    the primal table. *)
Theorem generalized_main_totals_agree
    (data : GeneralisationMain.Data) (out out' : Py.stdout)
    (shown : GeneralisationMain.Shown) (r1 r2 : Scipy.OptimizeResult) :
  GeneralisationMain.main linprog data out = (Py.Ok shown, out') ->
  Call.gprimal_exact linprog (GeneralisationMain.costs data)
    (GeneralisationMain.constraints data) (GeneralisationMain.requirements data) r1 ->
  Call.gdual_exact linprog (GeneralisationMain.costs data)
    (GeneralisationMain.constraints data) (GeneralisationMain.requirements data) r2 ->
  (length (GeneralisationMain.requirements data)
   <= length (GeneralisationMain.armes data))%nat ->
  snd (GeneralisationMain.primal_table shown)
  = Py.round (snd (GeneralisationMain.dual_table shown)) 2 /\
  ((length (GeneralisationMain.costs data)
    <= length (GeneralisationMain.requirements data))%nat ->
   snd (fst (GeneralisationMain.compare_table shown))
   = snd (GeneralisationMain.primal_table shown)).
Proof.
  intros Hrun Hp Hd Hnames.
  destruct (gmain_inv data out shown out' Hrun)
    as (s1 & s2 & o1 & o2 & o3 & o4 & Hs1 & Hs2 & H0 & H1 & H2 & H3 & H4).
  assert (s1 = r1) as ->.
  { destruct Hs1 as [Ha _]. destruct Hp as [Hb _]. unfold Call.gprimal in Ha.
    cbn zeta in Hb. rewrite Ha in Hb. injection Hb as ->. reflexivity. }
  assert (s2 = r2) as ->.
  { destruct Hs2 as [Ha _]. destruct Hd as (d & Hd & Hb & _).
    unfold Call.gdual in Ha. rewrite Hd in Ha. rewrite Ha in Hb.
    injection Hb as ->. reflexivity. }
  pose proof (exact_pair_agree linprog _ _ _ r1 r2 Hp
                (proj2 (dual_exact_generalized linprog _ _ _ _) Hd)) as Hgap.
  destruct Hp as (_ & _ & [Hl1 _ Hv1 _]).
  destruct Hd as (d & Hdi & _ & _ & [Hl2 _ Hv2 _]).
  unfold GeneralizedDualProblem.init in Hdi.
  destruct (Np.transpose _) as [At|e]; [|discriminate].
  injection Hdi as <-. cbn in Hl1, Hv1, Hl2, Hv2.
  rewrite length_map in Hl2.
  destruct (primal_table_spec (Scipy.x r1) (GeneralisationMain.costs data) o1)
    as (table & l1 & l2 & l3 & E1 & _).
  rewrite E1 in H1. injection H1 as <- _.
  destruct (dual_table_spec (Scipy.x r2) (GeneralisationMain.requirements data)
              (GeneralisationMain.armes data) o2)
    as (table2 & total & o & E2 & _ & _ & Ht).
  rewrite E2 in H2. injection H2 as <- _.
  cbn [snd].
  assert (Hcost : dot (Scipy.x r1) (GeneralisationMain.costs data) == total).
  { rewrite Ht by lia.
    change (fun r => - r) with Qopp in Hv2. rewrite dot_opp_l in Hv2.
    rewrite (dot_comm (Scipy.x r1)), (dot_comm (Scipy.x r2)).
    rewrite <- Hv1, Hgap, Hv2. ring. }
  split; [apply round_proper, Hcost|].
  intros Hnm.
  destruct (compare_table_spec (Scipy.x r1) (GeneralisationMain.costs data)
              (Scipy.x r2) (GeneralisationMain.requirements data)
              (GeneralisationMain.armes data) o3)
    as (table3 & m1 & m2 & m3 & E3 & _).
  rewrite E3 in H3. injection H3 as <- _. cbn [fst snd].
  rewrite take_ge by lia. reflexivity.
Qed.

End GeneralizedMain.

(** Scenario 1 against its exact stand-in solver. *)
Lemma generalized_main_returns_witness :
  exists shown out',
    GeneralisationMain.main Oracle.scenario1 Scenario.data [] = (Py.Ok shown, out') /\
    length (GeneralisationApp.plot_costs (GeneralisationMain.sweep shown)) = 30%nat.
Proof.
  destruct (GeneralisationMain.main Oracle.scenario1 Scenario.data [])
    as [[shown|e] out'] eqn:Hrun; [|vm_compute in Hrun; discriminate].
  exists shown, out'. split; [reflexivity|].
  destruct (generalized_main_returns Oracle.scenario1 Scenario.data [] out' shown
              Hrun) as (_ & _ & _ & r1 & r2 & _ & _ & _ & _ & Hc & _).
  exact Hc.
Defined.

(** Scenario 1 against a solver that reports failure on every call. *)
Lemma generalized_main_unsolved_witness :
  exists out',
    GeneralisationMain.main Oracle.always_fails Scenario.data []
    = (Py.Raise Py.TypeError, out').
Proof.
  apply (generalized_main_unsolved Oracle.always_fails Scenario.data []
           {| Scipy.success := false; Scipy.x := []; Scipy.fun_ := 0%Q |}
           {| Scipy.success := false; Scipy.x := []; Scipy.fun_ := 0%Q |}).
  - reflexivity.
  - reflexivity.
  - reflexivity.
  - left. reflexivity.
Defined.

(** Scenario 1 against its exact stand-in solver. *)
Lemma generalized_main_totals_agree_witness :
  exists shown out',
    GeneralisationMain.main Oracle.scenario1 Scenario.data [] = (Py.Ok shown, out') /\
    snd (GeneralisationMain.primal_table shown)
    = Py.round (snd (GeneralisationMain.dual_table shown)) 2.
Proof.
  destruct (GeneralisationMain.main Oracle.scenario1 Scenario.data [])
    as [[shown|e] out'] eqn:Hrun; [|vm_compute in Hrun; discriminate].
  exists shown, out'. split; [reflexivity|].
  assert (H10 : In 10%Z (Py.range 1 30)) by (vm_compute; tauto).
  destruct (scenario1_exact 10 H10) as [H1 H2].
  refine (proj1 (generalized_main_totals_agree Oracle.scenario1 Scenario.data []
                   out' shown (Oracle.scenario1_primal 10) (Oracle.scenario1_dual 10)
                   Hrun H1 _ _)).
  - apply (dual_exact_generalized Oracle.scenario1). exact H2.
  - cbn. lia.
Defined.

(** ** The 3-d figure of the basic script *)

Section Figure.
Import Builtins2 Graphique.

Lemma plane_step_cases (a : list Q) (bi : Q) (color label : string)
    (acc : list string) (out : Py.stdout) :
  Graphique.plane_step (a, bi, color, label) acc out
  = match a !! 2%nat with
    | Some a2 =>
        (Py.Ok (if Qeq_bool a2 0 then acc
                else acc ++ [String.append "Contrainte " label]), out)
    | None => (Py.Raise Py.IndexError, out)
    end.
Proof.
  unfold Graphique.plane_step, Py.bind, Py.lift, getitem.
  destruct (a !! 2%nat) as [a2|]; [|reflexivity].
  destruct (Qeq_bool a2 0); reflexivity.
Qed.

Lemma planes_inv (l : list (list Q * Q * string * string)) :
  forall acc out leg out',
    Py.for_each l Graphique.plane_step acc out = (Py.Ok leg, out') ->
    out' = out /\
    (length leg <= length acc + length l)%nat /\
    Forall (fun r => (3 <= length (fst (fst (fst r))))%nat) l.
Proof.
  induction l as [|[[[a bi] color] label] l IH]; intros acc out leg out' Hrun.
  - cbn in Hrun. injection Hrun as <- <-. cbn. split; [reflexivity|].
    split; [lia|constructor].
  - cbn [Py.for_each] in Hrun. unfold Py.bind at 1 in Hrun.
    rewrite plane_step_cases in Hrun.
    destruct (a !! 2%nat) as [a2|] eqn:Ha; [|discriminate].
    apply lookup_lt_Some in Ha.
    destruct (IH _ _ _ _ Hrun) as (-> & Hlen & Hall).
    split; [reflexivity|]. split.
    + destruct (Qeq_bool a2 0); [|rewrite length_app in Hlen]; cbn [length] in *; lia.
    + constructor; [cbn; lia|exact Hall].
Qed.

Lemma planes_run (l : list (list Q * Q * string * string)) :
  Forall (fun r => (3 <= length (fst (fst (fst r))))%nat) l ->
  forall acc out,
    exists leg, Py.for_each l Graphique.plane_step acc out = (Py.Ok leg, out).
Proof.
  induction 1 as [|[[[a bi] color] label] l Ha Hall IH]; intros acc out.
  - exists acc. reflexivity.
  - cbn [Py.for_each]. unfold Py.bind at 1. rewrite plane_step_cases.
    cbn in Ha.
    destruct (a !! 2%nat) as [a2|] eqn:E.
    + apply IH.
    + apply lookup_ge_None in E. lia.
Qed.

Lemma zip4_firsts {A B C D} (a : list A) (b : list B) (c : list C) (d : list D) :
  map (fun r : A * B * C * D => fst (fst (fst r))) (zip4 a b c d)
  = take (length (zip4 a b c d)) a.
Proof.
  revert b c d. induction a as [|u a IH]; intros [|v b] [|w c] [|x d];
    try (cbn; rewrite ?take_0; reflexivity).
  cbn [zip4 map length fst]. rewrite firstn_cons, IH. reflexivity.
Qed.

Lemma planes_rows (A : list (list Q)) (b : list Q) :
  Forall (fun r : list Q * Q * string * string =>
            (3 <= length (fst (fst (fst r))))%nat)
    (zip4 A b Graphique.colors Graphique.labels) <->
  Forall (fun row => (3 <= length row)%nat)
    (take (Nat.min (Nat.min (length A) (length b)) 5) A).
Proof.
  rewrite <- (Forall_map (fun r : list Q * Q * string * string => fst (fst (fst r)))
                (fun row => (3 <= length row)%nat)).
  rewrite zip4_firsts, zip4_length. reflexivity.
Qed.

(** The figure, when it is drawn. *)
Lemma plot_3d_graph_inv A b res out g out' :
  Graphique.plot_3d_graph A b res out = (Py.Ok g, out') ->
  out' = out /\
  res = Some [fst (fst (Graphique.point g)); snd (fst (Graphique.point g));
              snd (Graphique.point g)] /\
  (length (Graphique.legend g) <= Nat.min (Nat.min (length A) (length b)) 5)%nat /\
  Forall (fun row => (3 <= length row)%nat)
    (take (Nat.min (Nat.min (length A) (length b)) 5) A).
Proof.
  unfold Graphique.plot_3d_graph. unfold Py.bind at 1.
  destruct (Py.for_each _ _ _ out) as [[leg|e] out1] eqn:Hloop; [|discriminate].
  destruct (planes_inv _ _ _ _ _ Hloop) as (-> & Hlen & Hall).
  rewrite zip4_length in Hlen. cbn [length Nat.add] in Hlen.
  apply planes_rows in Hall.
  unfold Py.bind at 1.
  destruct res as [[|x [|y [|z [|t res]]]]|]; try discriminate.
  cbn. intros [= <- <-]. cbn. split; [reflexivity|]. split; [reflexivity|].
  split; [exact Hlen|exact Hall].
Qed.

Lemma plot_3d_graph_run A b x y z out :
  Forall (fun row => (3 <= length row)%nat)
    (take (Nat.min (Nat.min (length A) (length b)) 5) A) ->
  exists leg,
    Graphique.plot_3d_graph A b (Some [x; y; z]) out
    = (Py.Ok {| Graphique.legend := leg; Graphique.point := (x, y, z) |}, out).
Proof.
  intros Hall. apply planes_rows in Hall.
  destruct (planes_run _ Hall [] out) as (leg & Hrun).
  exists leg. unfold Graphique.plot_3d_graph. unfold Py.bind at 1.
  rewrite Hrun. reflexivity.
Qed.

End Figure.

(** X20.  The 3-d figure is drawn exactly when the point has three
    coordinates and each of the rows paired with a colour (the first five
    that also have a requirement) has a third coefficient.  It prints
    nothing, marks the point given, and its legend has at most one entry
    per such row: a sixth constraint is never drawn. *)
Theorem plot_3d_graph_drawn
    (A : list (list Q)) (b : list Q) (out : Py.stdout) :
  let k := Nat.min (Nat.min (length A) (length b)) 5 in
  (forall res g out',
     Graphique.plot_3d_graph A b res out = (Py.Ok g, out') ->
     out' = out /\
     res = Some [fst (fst (Graphique.point g)); snd (fst (Graphique.point g));
                 snd (Graphique.point g)] /\
     (length (Graphique.legend g) <= k)%nat /\
     Forall (fun row => (3 <= length row)%nat) (take k A)) /\
  (forall x y z,
     Forall (fun row => (3 <= length row)%nat) (take k A) ->
     exists leg,
       Graphique.plot_3d_graph A b (Some [x; y; z]) out
       = (Py.Ok {| Graphique.legend := leg; Graphique.point := (x, y, z) |}, out)).
Proof.
  intros k. split.
  - intros res g out' Hrun. exact (plot_3d_graph_inv A b res out g out' Hrun).
  - intros x y z Hall. exact (plot_3d_graph_run A b x y z out Hall).
Qed.

(** ** [main] of the basic script *)

Section BasicMain.
Import Question Builtins Builtins2.
Local Open Scope Q_scope.
Variable linprog : Scipy.linprog_t.

Lemma primal_solve_cases (p : PrimalProblem.t) r out :
  linprog (PrimalProblem.costs p) (PrimalProblem.constraints p)
    (PrimalProblem.requirements p) = Py.Ok r ->
  PrimalProblem.solve linprog p out
  = if Scipy.success r
    then (Py.Ok (Some (Scipy.x r), Some (Scipy.fun_ r)), out)
    else (Py.Ok (None, None), out ++ ["Pas de solution optimale."]).
Proof.
  intros Hr. unfold PrimalProblem.solve, Py.bind, Py.lift.
  rewrite Hr. destruct (Scipy.success r); reflexivity.
Qed.

Lemma dual_solve_cases (d : DualProblem.t) r out :
  linprog (DualProblem.costs d) (DualProblem.constraints d)
    (DualProblem.requirements d) = Py.Ok r ->
  DualProblem.solve linprog d out
  = if Scipy.success r
    then (Py.Ok (Some (Scipy.x r), Some (- Scipy.fun_ r)), out)
    else (Py.Ok (None, None), out ++ ["Pas de solution optimale pour le dual."]).
Proof.
  intros Hr. unfold DualProblem.solve, Py.bind, Py.lift.
  rewrite Hr. destruct (Scipy.success r); reflexivity.
Qed.

Lemma primal_solve_inv p out lots cost out' :
  PrimalProblem.solve linprog p out = (Py.Ok (lots, cost), out') ->
  exists r,
    linprog (PrimalProblem.costs p) (PrimalProblem.constraints p)
      (PrimalProblem.requirements p) = Py.Ok r /\
    PrimalProblem.solve linprog p out
    = if Scipy.success r
      then (Py.Ok (Some (Scipy.x r), Some (Scipy.fun_ r)), out)
      else (Py.Ok (None, None), out ++ ["Pas de solution optimale."]).
Proof.
  destruct (linprog (PrimalProblem.costs p) (PrimalProblem.constraints p)
              (PrimalProblem.requirements p)) as [r|e] eqn:Hr.
  - intros _. exists r. split; [reflexivity|]. apply primal_solve_cases, Hr.
  - unfold PrimalProblem.solve, Py.bind, Py.lift. rewrite Hr. discriminate.
Qed.

Lemma dual_solve_inv d out prices profit out' :
  DualProblem.solve linprog d out = (Py.Ok (prices, profit), out') ->
  exists r,
    linprog (DualProblem.costs d) (DualProblem.constraints d)
      (DualProblem.requirements d) = Py.Ok r /\
    DualProblem.solve linprog d out
    = if Scipy.success r
      then (Py.Ok (Some (Scipy.x r), Some (- Scipy.fun_ r)), out)
      else (Py.Ok (None, None), out ++ ["Pas de solution optimale pour le dual."]).
Proof.
  destruct (linprog (DualProblem.costs d) (DualProblem.constraints d)
              (DualProblem.requirements d)) as [r|e] eqn:Hr.
  - intros _. exists r. split; [reflexivity|]. apply dual_solve_cases, Hr.
  - unfold DualProblem.solve, Py.bind, Py.lift. rewrite Hr. discriminate.
Qed.

Lemma display_primal_results_some lots costs cost out :
  exists table line,
    ResolutionMain.display_primal_results (Some lots) costs (Some cost) out
    = (Py.Ok (table, Py.round cost 4), out ++ [line]) /\
    length table = Nat.min (length lots) (length costs).
Proof.
  eexists _, _. split; [reflexivity|].
  rewrite length_map, enumerate_length. apply zip2_length.
Qed.

Lemma display_primal_results_none costs cost out :
  exists out',
    ResolutionMain.display_primal_results None costs cost out
    = (Py.Raise Py.TypeError, out').
Proof. eexists. reflexivity. Qed.

Lemma display_dual_results_some prices profit out :
  exists table line,
    ResolutionApp.display_dual_results (Some prices) (Some profit) out
    = (Py.Ok (table, Py.round profit 4), out ++ [line]) /\
    length table = Nat.min 5 (length prices).
Proof.
  eexists _, _. split; [reflexivity|].
  rewrite length_map. apply zip2_length.
Qed.

Lemma display_dual_results_none profit out :
  exists out',
    ResolutionApp.display_dual_results None profit out
    = (Py.Raise Py.TypeError, out').
Proof. eexists. reflexivity. Qed.

(** All five planes of scenario 1 are drawn. *)
Lemma base_figure res out :
  Graphique.plot_3d_graph ResolutionApp.base_constraints
    ResolutionApp.base_requirements res out
  = match res with
    | Some [x; y; z] =>
        (Py.Ok {| Graphique.legend :=
                    map (String.append "Contrainte ") Graphique.labels;
                  Graphique.point := (x, y, z) |}, out)
    | Some _ => (Py.Raise Py.ValueError, out)
    | None => (Py.Raise Py.TypeError, out)
    end.
Proof.
  destruct res as [[|x [|y [|z [|t res]]]]|]; reflexivity.
Qed.

(** [main] step by step, when it returns. *)
Lemma main_inv out shown out' :
  ResolutionMain.main linprog out = (Py.Ok shown, out') ->
  exists r1 r2 x y z,
    Call.succeeded
      (Call.primal linprog ResolutionApp.base_costs
         ResolutionApp.base_constraints ResolutionApp.base_requirements) r1 /\
    Call.succeeded
      (Call.dual linprog ResolutionApp.base_costs
         ResolutionApp.base_constraints ResolutionApp.base_requirements) r2 /\
    Scipy.x r1 = [x; y; z] /\
    snd (ResolutionMain.primal_table shown) = Py.round (Scipy.fun_ r1) 4 /\
    length (fst (ResolutionMain.primal_table shown)) = 3%nat /\
    Graphique.point (ResolutionMain.drawing shown) = (x, y, z) /\
    Graphique.legend (ResolutionMain.drawing shown)
    = map (String.append "Contrainte ") Graphique.labels /\
    snd (ResolutionMain.dual_table shown) = Py.round (- Scipy.fun_ r2) 4 /\
    length (fst (ResolutionMain.dual_table shown))
    = Nat.min 5 (length (Scipy.x r2)) /\
    exists o,
      ResolutionApp.study_price_variation linprog o
      = (Py.Ok (ResolutionMain.sweep shown), out').
Proof.
  unfold ResolutionMain.main.
  unfold Py.bind at 1.
  destruct (banner_prints 50 "                  1.  PROBLEME PRIMAL" out)
    as (l1 & l2 & l3 & ->).
  set (o1 := out ++ [l1; l2; l3]).
  unfold Py.bind at 1.
  destruct (PrimalProblem.solve _ _ o1) as [[[lots cost]|e] o1'] eqn:H1;
    [|discriminate].
  destruct (primal_solve_inv _ _ _ _ _ H1) as (r1 & Hr1 & E1).
  rewrite E1 in H1.
  destruct (Scipy.success r1) eqn:Hs1; injection H1 as <- <- <-.
  2:{ unfold Py.bind at 1.
      destruct (display_primal_results_none [10; 12; 15] None
                  (o1 ++ ["Pas de solution optimale."])) as (o & ->).
      discriminate. }
  unfold Py.bind at 1.
  destruct (display_primal_results_some (Scipy.x r1) [10; 12; 15] (Scipy.fun_ r1) o1)
    as (t1 & line1 & -> & Ht1).
  unfold Py.bind at 1.
  change [[500; 300; 800]; [1000; 2000; 1500]; [10; 20; 15]; [100; 80; 15];
          [80; 120; 200]] with ResolutionApp.base_constraints.
  change [100000; 200000; 100; 400; 400] with ResolutionApp.base_requirements.
  rewrite base_figure.
  destruct (Scipy.x r1) as [|x [|y [|z [|t xs]]]] eqn:Hx; try discriminate.
  unfold Py.bind at 1.
  destruct (banner_prints 50 "                 2.  PROBLEME DUAL" (o1 ++ [line1]))
    as (m1 & m2 & m3 & ->).
  set (o2 := (o1 ++ [line1]) ++ [m1; m2; m3]).
  unfold Py.bind at 1. unfold Py.lift at 1.
  destruct (DualProblem.init _ _ _) as [d|e] eqn:Hd; [|discriminate].
  unfold Py.bind at 1.
  destruct (DualProblem.solve _ _ o2) as [[[prices profit]|e] o2'] eqn:H2;
    [|discriminate].
  destruct (dual_solve_inv _ _ _ _ _ H2) as (r2 & Hr2 & E2).
  rewrite E2 in H2.
  destruct (Scipy.success r2) eqn:Hs2; injection H2 as <- <- <-.
  2:{ unfold Py.bind at 1.
      destruct (display_dual_results_none None
                  (o2 ++ ["Pas de solution optimale pour le dual."])) as (o & ->).
      discriminate. }
  unfold Py.bind at 1.
  destruct (display_dual_results_some (Scipy.x r2) (- Scipy.fun_ r2) o2)
    as (t2 & line2 & -> & Ht2).
  unfold Py.bind at 1.
  destruct (banner_prints 60
              "        3.  ÉTUDE DE LA SENSIBILITÉ DU PRIX DU LOT 1" (o2 ++ [line2]))
    as (n1 & n2 & n3 & ->).
  set (o3 := (o2 ++ [line2]) ++ [n1; n2; n3]).
  unfold Py.bind at 1.
  destruct (ResolutionApp.study_price_variation linprog o3) as [[s|e] o4] eqn:H3;
    [|discriminate].
  intros [= <- <-]. cbn [ResolutionMain.primal_table ResolutionMain.drawing
    ResolutionMain.dual_table ResolutionMain.sweep fst snd
    Graphique.point Graphique.legend].
  destruct s as [rows plot].
  destruct (study_price_variation_inv linprog o3 o4 rows plot H3) as (-> & _).
  exists r1, r2, x, y, z.
  split; [split; assumption|].
  split; [unfold Call.dual; change ResolutionApp.base_costs with [10; 12; 15];
          rewrite Hd; split; assumption|].
  split; [exact Hx|]. split; [reflexivity|].
  split; [rewrite Ht1; reflexivity|].
  split; [reflexivity|]. split; [reflexivity|]. split; [reflexivity|].
  split; [exact Ht2|].
  exists o3. exact H3.
Qed.

(** X21.  The basic [main] returns only if the solver reported success
    for the primal and for the dual of scenario 1 and gave the primal
    three quantities.  The total under each table is then the value the
    solver returned, rounded to 4 decimals, and not a sum over the rows;
    the figure marks the three quantities with all five planes in its
    legend, and the sweep table has 29 rows. *)
Theorem basic_main_returns (out out' : Py.stdout) (shown : ResolutionMain.Shown) :
  ResolutionMain.main linprog out = (Py.Ok shown, out') ->
  exists r1 r2 x y z,
    Call.succeeded
      (Call.primal linprog ResolutionApp.base_costs
         ResolutionApp.base_constraints ResolutionApp.base_requirements) r1 /\
    Call.succeeded
      (Call.dual linprog ResolutionApp.base_costs
         ResolutionApp.base_constraints ResolutionApp.base_requirements) r2 /\
    Scipy.x r1 = [x; y; z] /\
    snd (ResolutionMain.primal_table shown) = Py.round (Scipy.fun_ r1) 4 /\
    length (fst (ResolutionMain.primal_table shown)) = 3%nat /\
    Graphique.point (ResolutionMain.drawing shown) = (x, y, z) /\
    length (Graphique.legend (ResolutionMain.drawing shown)) = 5%nat /\
    snd (ResolutionMain.dual_table shown) = Py.round (- Scipy.fun_ r2) 4 /\
    length (fst (ResolutionMain.sweep shown)) = 29%nat.
Proof.
  intros Hrun.
  destruct (main_inv out shown out' Hrun)
    as (r1 & r2 & x & y & z & H1 & H2 & Hx & Ht1 & Hn1 & Hpt & Hleg & Ht2 & _
        & o & Hsweep).
  exists r1, r2, x, y, z.
  split; [exact H1|]. split; [exact H2|]. split; [exact Hx|].
  split; [exact Ht1|]. split; [exact Hn1|]. split; [exact Hpt|].
  split; [rewrite Hleg; reflexivity|]. split; [exact Ht2|].
  destruct (ResolutionMain.sweep shown) as [rows plot].
  destruct (study_price_variation_inv linprog o out' rows plot Hsweep)
    as (_ & Hrows & _).
  exact Hrows.
Qed.

(** X22.  The basic [main] does not handle an unusable answer to the
    first solve: a reported failure ends it with [TypeError] in the primal
    table, the banner, the diagnostic of [solve] and the first line of the
    table being all it has printed; a success with a number of quantities
    other than three ends it with [ValueError] in the figure.  The dual
    is not reached in either case. *)
Theorem basic_main_unsolved (out : Py.stdout) (r1 : Scipy.OptimizeResult) :
  Call.primal linprog ResolutionApp.base_costs ResolutionApp.base_constraints
    ResolutionApp.base_requirements = Py.Ok r1 ->
  (Scipy.success r1 = false ->
   exists l1 l2 l3 l4,
     ResolutionMain.main linprog out
     = (Py.Raise Py.TypeError,
        out ++ [l1; l2; l3; "Pas de solution optimale."; l4])) /\
  (Scipy.success r1 = true -> length (Scipy.x r1) <> 3%nat ->
   exists out',
     ResolutionMain.main linprog out = (Py.Raise Py.ValueError, out')).
Proof.
  intros Hr1. unfold Call.primal in Hr1.
  split.
  - intros Hs1.
    destruct (banner_prints 50 "                  1.  PROBLEME PRIMAL" out)
      as (l1 & l2 & l3 & Hb).
    exists l1, l2, l3. eexists.
    unfold ResolutionMain.main. unfold Py.bind at 1. rewrite Hb.
    unfold Py.bind at 1.
    rewrite (primal_solve_cases _ r1 _ Hr1), Hs1.
    unfold Py.bind at 1. cbn. rewrite <- !app_assoc. reflexivity.
  - intros Hs1 Hlen.
    destruct (banner_prints 50 "                  1.  PROBLEME PRIMAL" out)
      as (l1 & l2 & l3 & Hb).
    unfold ResolutionMain.main. unfold Py.bind at 1. rewrite Hb.
    unfold Py.bind at 1.
    rewrite (primal_solve_cases _ r1 _ Hr1), Hs1.
    unfold Py.bind at 1.
    destruct (display_primal_results_some (Scipy.x r1) [10; 12; 15]
                (Scipy.fun_ r1) (out ++ [l1; l2; l3]))
      as (t1 & line1 & -> & _).
    unfold Py.bind at 1.
    change [[500; 300; 800]; [1000; 2000; 1500]; [10; 20; 15]; [100; 80; 15];
            [80; 120; 200]] with ResolutionApp.base_constraints.
    change [100000; 200000; 100; 400; 400] with ResolutionApp.base_requirements.
    rewrite base_figure.
    eexists.
    destruct (Scipy.x r1) as [|x [|y [|z [|t xs]]]]; try reflexivity.
    cbn in Hlen. contradiction.
Qed.

End BasicMain.

(** Scenario 1 against its exact stand-in solver. *)
Lemma basic_main_returns_witness :
  exists shown out',
    ResolutionMain.main Oracle.scenario1 [] = (Py.Ok shown, out') /\
    length (fst (ResolutionMain.sweep shown)) = 29%nat.
Proof.
  destruct (ResolutionMain.main Oracle.scenario1 [])
    as [[shown|e] out'] eqn:Hrun; [|vm_compute in Hrun; discriminate].
  exists shown, out'. split; [reflexivity|].
  destruct (basic_main_returns Oracle.scenario1 [] out' shown Hrun)
    as (r1 & r2 & x & y & z & _ & _ & _ & _ & _ & _ & _ & _ & Hrows).
  exact Hrows.
Defined.

(** Scenario 1 against a solver that reports failure on every call. *)
Lemma basic_main_unsolved_witness :
  exists l1 l2 l3 l4,
    ResolutionMain.main Oracle.always_fails []
    = (Py.Raise Py.TypeError,
       [] ++ [l1; l2; l3; "Pas de solution optimale."; l4]).
Proof.
  apply (proj1 (basic_main_unsolved Oracle.always_fails []
                  {| Scipy.success := false; Scipy.x := []; Scipy.fun_ := 0%Q |}
                  eq_refl)).
  reflexivity.
Defined.

(** ** The interactive interface *)

Section AskForList.
Import Interface.
Variable str_split : string -> list string.
Variable float_of : string -> option Q.
Variable prompt : string.
Variable length_ : option Z.

Lemma ask_loop_rejects (line : string) (rest out : list string) :
  Lines.accepted str_split float_of length_ line = false ->
  ask_loop str_split float_of prompt length_ (line :: rest) out
  = ask_loop str_split float_of prompt length_ rest
      (out ++ [prompt; Lines.complaint str_split length_ line]).
Proof.
  unfold Lines.accepted, Lines.complaint. cbn [ask_loop].
  destruct (wrong_count length_ (str_split line)); cbn [negb andb].
  - intros _. rewrite <- app_assoc. reflexivity.
  - destruct (mapM float_of (str_split line)); [discriminate|].
    intros _. rewrite <- app_assoc. reflexivity.
Qed.

Lemma ask_loop_takes (line : string) (rest out : list string) :
  Lines.accepted str_split float_of length_ line = true ->
  exists xs,
    mapM float_of (str_split line) = Some xs /\
    (forall n, length_ = Some n -> Z.of_nat (length xs) = n) /\
    ask_loop str_split float_of prompt length_ (line :: rest) out
    = (Return xs, {| stdin := rest; stdout := out ++ [prompt] |}).
Proof.
  unfold Lines.accepted. cbn [ask_loop].
  destruct (wrong_count length_ (str_split line)) eqn:Hw; cbn [negb andb];
    [discriminate|].
  destruct (mapM float_of (str_split line)) as [xs|] eqn:Hm; [|discriminate].
  intros _. exists xs. split; [reflexivity|]. split; [|reflexivity].
  intros n ->. cbn in Hw. apply negb_false_iff, Z.eqb_eq in Hw.
  rewrite <- (length_mapM _ _ _ Hm). exact Hw.
Qed.

Lemma ask_loop_first_accepted (rejected : list string) (line : string)
    (rest : list string) :
  Forall (fun l => Lines.accepted str_split float_of length_ l = false) rejected ->
  Lines.accepted str_split float_of length_ line = true ->
  forall out,
    exists xs,
      mapM float_of (str_split line) = Some xs /\
      (forall n, length_ = Some n -> Z.of_nat (length xs) = n) /\
      ask_loop str_split float_of prompt length_ (rejected ++ line :: rest) out
      = (Return xs,
         {| stdin := rest;
            stdout := out ++ Lines.transcript str_split prompt length_ rejected
                          ++ [prompt] |}).
Proof.
  intros Hrej Hacc. induction Hrej as [|l rejected Hl Hrej IH]; intros out.
  - destruct (ask_loop_takes line rest out Hacc) as (xs & Hm & Hn & Hrun).
    exists xs. split; [exact Hm|]. split; [exact Hn|]. exact Hrun.
  - cbn [app]. rewrite (ask_loop_rejects l _ out Hl).
    destruct (IH (out ++ [prompt; Lines.complaint str_split length_ l]))
      as (xs & Hm & Hn & Hrun).
    exists xs. split; [exact Hm|]. split; [exact Hn|].
    rewrite Hrun. unfold Lines.transcript. cbn [flat_map].
    rewrite <- !app_assoc. reflexivity.
Qed.

Lemma ask_loop_outcomes (lines : list string) :
  forall out,
    match ask_loop str_split float_of prompt length_ lines out with
    | (Return xs, w') =>
        (forall n, length_ = Some n -> Z.of_nat (length xs) = n) /\
        exists rejected line,
          lines = rejected ++ line :: stdin w' /\
          Forall (fun l => Lines.accepted str_split float_of length_ l = false)
            rejected /\
          Lines.accepted str_split float_of length_ line = true /\
          mapM float_of (str_split line) = Some xs
    | (Raise e, w') =>
        e = EOFError /\ stdin w' = [] /\
        Forall (fun l => Lines.accepted str_split float_of length_ l = false) lines
    end.
Proof.
  induction lines as [|line rest IH]; intros out.
  - cbn. split; [reflexivity|]. split; [reflexivity|constructor].
  - destruct (Lines.accepted str_split float_of length_ line) eqn:Hacc.
    + destruct (ask_loop_takes line rest out Hacc) as (xs & Hm & Hn & ->).
      split; [exact Hn|]. exists [], line. cbn.
      split; [reflexivity|]. split; [constructor|]. split; [exact Hacc|exact Hm].
    + rewrite (ask_loop_rejects line rest out Hacc).
      specialize (IH (out ++ [prompt; Lines.complaint str_split length_ line])).
      destruct (ask_loop _ _ _ _ rest _) as [[xs|e] w'].
      * destruct IH as (Hn & rejected & l & -> & Hrej & Hl & Hm).
        split; [exact Hn|]. exists (line :: rejected), l.
        split; [reflexivity|]. split; [constructor; assumption|].
        split; assumption.
      * destruct IH as (-> & Hin & Hall).
        split; [reflexivity|]. split; [exact Hin|constructor; assumption].
Qed.

(** X23.  [ask_for_list] returns the numbers of the first input line that
    has the number of values asked for, all of them numbers.  Every line
    before it is consumed and answered by the prompt and one complaint
    (about the count when the count is wrong, about the format
    otherwise); the lines after it are left unread. *)
Theorem ask_for_list_first_accepted
    (w : world) (rejected : list string) (line : string) (rest : list string) :
  stdin w = rejected ++ line :: rest ->
  Forall (fun l => Lines.accepted str_split float_of length_ l = false) rejected ->
  Lines.accepted str_split float_of length_ line = true ->
  exists xs,
    mapM float_of (str_split line) = Some xs /\
    (forall n, length_ = Some n -> Z.of_nat (length xs) = n) /\
    ask_for_list str_split float_of prompt length_ w
    = (Return xs,
       {| stdin := rest;
          stdout := stdout w ++ Lines.transcript str_split prompt length_ rejected
                             ++ [prompt] |}).
Proof.
  intros Hin Hrej Hacc. unfold ask_for_list. rewrite Hin.
  exact (ask_loop_first_accepted rejected line rest Hrej Hacc (stdout w)).
Qed.

(** X24.  [ask_for_list] has two outcomes only.  Either it returns, with
    exactly the number of values asked for, and then the input before the
    unread lines ends with an accepted line whose numbers it returns; or
    the input ran out before any line was accepted and it ends with
    [EOFError].  A wrong count or a malformed number never escapes as
    [ValueError]. *)
Theorem ask_for_list_outcomes (w : world) :
  match ask_for_list str_split float_of prompt length_ w with
  | (Return xs, w') =>
      (forall n, length_ = Some n -> Z.of_nat (length xs) = n) /\
      exists rejected line,
        stdin w = rejected ++ line :: stdin w' /\
        Forall (fun l => Lines.accepted str_split float_of length_ l = false)
          rejected /\
        Lines.accepted str_split float_of length_ line = true /\
        mapM float_of (str_split line) = Some xs
  | (Raise e, w') =>
      e = EOFError /\ stdin w' = [] /\
      Forall (fun l => Lines.accepted str_split float_of length_ l = false) (stdin w)
  end.
Proof. exact (ask_loop_outcomes (stdin w) (stdout w)). Qed.

End AskForList.

(** Two lines are refused, the third is taken, the fourth is left. *)
Lemma ask_for_list_first_accepted_witness :
  exists xs,
    Interface.ask_for_list Keyboard.str_split Keyboard.float_of "> " (Some 3%Z)
      {| Interface.stdin := ["10 12"; "10 x 15"; "10 12 15"; "7"];
         Interface.stdout := [] |}
    = (Interface.Return xs,
       {| Interface.stdin := ["7"];
          Interface.stdout :=
            [] ++ Lines.transcript Keyboard.str_split "> " (Some 3%Z)
                    ["10 12"; "10 x 15"] ++ ["> "] |}) /\
    xs = [10; 12; 15]%Q.
Proof.
  destruct (ask_for_list_first_accepted Keyboard.str_split Keyboard.float_of
              "> " (Some 3%Z)
              {| Interface.stdin := ["10 12"; "10 x 15"; "10 12 15"; "7"];
                 Interface.stdout := [] |}
              ["10 12"; "10 x 15"] "10 12 15" ["7"] eq_refl)
    as (xs & Hm & _ & Hrun).
  - repeat constructor.
  - reflexivity.
  - exists xs. split; [exact Hrun|].
    vm_compute in Hm. injection Hm as <-. reflexivity.
Defined.

Section InterfaceMain.
Import Interface.
Variable str_split : string -> list string.
Variable float_of : string -> option Q.
Variable int_of : string -> option Z.

Lemma ask_for_list_length prompt n w xs w' :
  ask_for_list str_split float_of prompt (Some n) w = (Return xs, w') ->
  Z.of_nat (length xs) = n.
Proof.
  intros Hrun.
  pose proof (ask_loop_outcomes str_split float_of prompt (Some n)
                (stdin w) (stdout w)) as H.
  unfold ask_for_list in Hrun. rewrite Hrun in H.
  destruct H as [Hn _]. apply Hn. reflexivity.
Qed.

Lemma collect_rows (prompt : Z -> string) (n : Z) (l : list Z) :
  forall w rows w',
    collect (fun i => ask_for_list str_split float_of (prompt i) (Some n)) l w
    = (Return rows, w') ->
    length rows = length l /\
    Forall (fun row : list Q => Z.of_nat (length row) = n) rows.
Proof.
  induction l as [|i l IH]; intros w rows w'.
  - cbn. intros [= <- _]. split; [reflexivity|constructor].
  - cbn [collect]. unfold bind at 1.
    destruct (ask_for_list _ _ _ _ w) as [[row|e] w1] eqn:Hrow; [|discriminate].
    unfold bind at 1.
    destruct (collect _ l w1) as [[rest|e] w2] eqn:Hrest; [|discriminate].
    cbn. intros [= <- _].
    destruct (IH _ _ _ Hrest) as [Hlen Hall].
    split; [cbn; rewrite Hlen; reflexivity|].
    constructor; [exact (ask_for_list_length _ _ _ _ _ Hrow)|exact Hall].
Qed.

Lemma collect_names (prompt : Z -> string) (l : list Z) :
  forall w names w',
    collect (fun i => input (prompt i)) l w = (Return names, w') ->
    length names = length l.
Proof.
  induction l as [|i l IH]; intros w names w'.
  - cbn. intros [= <- _]. reflexivity.
  - cbn [collect]. unfold bind at 1.
    destruct (input _ w) as [[name|e] w1]; [|discriminate].
    unfold bind at 1.
    destruct (collect _ l w1) as [[rest|e] w2] eqn:Hrest; [|discriminate].
    cbn. intros [= <- _]. cbn. rewrite (IH _ _ _ Hrest). reflexivity.
Qed.

Lemma rows_rectangular (A : list (list Q)) (k : nat) :
  Forall (fun row => length row = k) A -> Np.rectangular A = true.
Proof.
  intros H. destruct A as [|r rs]; [reflexivity|].
  inversion H as [|? ? Hr Hrs]; subst. cbn.
  apply forallb_forall. intros row Hrow. apply Nat.eqb_eq.
  rewrite Forall_forall in Hrs. apply Hrs, list_elem_of_In, Hrow.
Qed.

(** The shape of the bundle [main] hands to [json.dump]. *)
Lemma interface_main_inv filepath w data w' :
  main str_split float_of int_of filepath w = (Return data, w') ->
  Forall (fun row => length row = length (costs data)) (constraints data) /\
  length (constraints data) = length (requirements data) /\
  length (armes data) = length (requirements data).
Proof.
  unfold main. unfold bind at 1.
  destruct (print _ w) as [[[]|e] w0]; [|discriminate].
  unfold bind at 1.
  destruct (ask_for_list _ _ _ None w0) as [[costs_|e] w1]; [|discriminate].
  unfold bind at 1.
  destruct (input_int _ _ w1) as [[n|e] w2]; [|discriminate].
  unfold bind at 1.
  destruct (print _ w2) as [[[]|e] w3]; [|discriminate].
  unfold bind at 1.
  destruct (collect _ (Py.range 0 n) w3) as [[rows|e] w4] eqn:Hrows; [|discriminate].
  unfold bind at 1.
  destruct (ask_for_list _ _ _ (Some n) w4) as [[reqs|e] w5] eqn:Hreqs; [|discriminate].
  unfold bind at 1.
  destruct (print _ w5) as [[[]|e] w6]; [|discriminate].
  unfold bind at 1.
  destruct (collect _ (Py.range 0 n) w6) as [[names|e] w7] eqn:Hnames; [|discriminate].
  unfold bind at 1.
  destruct (print _ w7) as [[[]|e] w8]; [|discriminate].
  cbn. intros [= <- _]. cbn.
  destruct (collect_rows _ _ _ _ _ _ Hrows) as [Hlen Hall].
  pose proof (ask_for_list_length _ _ _ _ _ Hreqs) as Hn.
  pose proof (collect_names _ _ _ _ _ Hnames) as Hlen'.
  rewrite range_length in Hlen, Hlen'.
  split.
  - eapply Forall_impl; [exact Hall|]. cbn. intros row Hrow. lia.
  - split; lia.
Qed.

(** X25.  Whatever is typed, a bundle that the interface saves is
    well-shaped: every row of the matrix has one cell per cost, and there
    are as many rows as requirements and as names.  So the matrix is
    rectangular, the dual constructor of the generalized script accepts
    the bundle, and the table of the lots can index it. *)
Theorem interface_main_data (filepath : string) (w w' : world) (data : Data) :
  main str_split float_of int_of filepath w = (Return data, w') ->
  Forall (fun row => length row = length (costs data)) (constraints data) /\
  length (constraints data) = length (requirements data) /\
  length (armes data) = length (requirements data) /\
  Np.rectangular (constraints data) = true /\
  (exists d,
     Generalisation.GeneralizedDualProblem.init (costs data) (constraints data)
       (requirements data) = Py.Ok d) /\
  LotTable.indexable (constraints data) (length (costs data)) (armes data) = true.
Proof.
  intros Hrun.
  destruct (interface_main_inv filepath w data w' Hrun) as (Hrows & Hlen & Hnames).
  pose proof (rows_rectangular _ _ Hrows) as Hrect.
  split; [exact Hrows|]. split; [exact Hlen|]. split; [exact Hnames|].
  split; [exact Hrect|]. split.
  - unfold Generalisation.GeneralizedDualProblem.init, Np.transpose.
    rewrite Hrect. eexists. reflexivity.
  - destruct (lot_table_spec (constraints data) (costs data) (armes data) [])
      as (_ & Hok & _).
    apply Hok; [lia|].
    eapply Forall_impl; [exact Hrows|]. cbn. intros row Hrow. lia.
Qed.

End InterfaceMain.

(** A session in which one row is typed again after a wrong count. *)
Lemma interface_main_data_witness :
  exists data w',
    Interface.main Keyboard.str_split Keyboard.float_of Keyboard.int_of
      "generalisation_data.json" Session.typed
    = (Interface.Return data, w') /\
    Np.rectangular (Interface.constraints data) = true.
Proof.
  destruct (Interface.main Keyboard.str_split Keyboard.float_of Keyboard.int_of
              "generalisation_data.json" Session.typed)
    as [[data|e] w'] eqn:Hrun; [|vm_compute in Hrun; discriminate].
  exists data, w'. split; [reflexivity|].
  exact (proj1 (proj2 (proj2 (proj2
           (interface_main_data Keyboard.str_split Keyboard.float_of
              Keyboard.int_of "generalisation_data.json" Session.typed w' data
              Hrun))))).
Defined.

(** ** The constructors on the store: what a later write reaches *)

Section StoreWrites.
Import Store.

Lemma primal_init_extends (c A b : val) : extends (primal_init c A b).
Proof.
  apply bind_extends; [apply neg_matrix_extends|]. intros cons'.
  apply bind_extends; [apply neg_list_extends|]. intros reqs'.
  apply ret_extends.
Qed.

Lemma setitem_inv (v : val) (i : nat) (x : val) (h h' : heap) :
  StoreWrite.setitem v i x h = Py.Ok (tt, h') ->
  exists l vs, v = VRef l /\ h !! l = Some (OList vs) /\ (i < length vs)%nat /\
               h' = <[l := OList (<[i := x]> vs)]> h.
Proof.
  unfold StoreWrite.setitem. destruct v as [q|l]; [discriminate|].
  destruct (h !! l) as [[vs|rows]|] eqn:Hl; try discriminate.
  destruct (Nat.ltb_spec i (length vs)); [|discriminate].
  intros [= <-]. exists l, vs. repeat split; assumption.
Qed.

Lemma setitem_runs (h : heap) (l : loc) (vs : list val) (i : nat) (x : val) :
  h !! l = Some (OList vs) -> (i < length vs)%nat ->
  StoreWrite.setitem (VRef l) i x h
  = Py.Ok (tt, <[l := OList (<[i := x]> vs)]> h).
Proof.
  intros Hl Hi. unfold StoreWrite.setitem. rewrite Hl.
  destruct (Nat.ltb_spec i (length vs)); [reflexivity|lia].
Qed.

Lemma read_vec_other (h : heap) (l : loc) (o : obj) (v : val) :
  v <> VRef l -> read_vec (<[l := o]> h) v = read_vec h v.
Proof.
  intros Hne. unfold read_vec. destruct v as [q|l']; [reflexivity|].
  rewrite lookup_insert_ne by congruence. reflexivity.
Qed.

Lemma read_vec_written (h : heap) (l : loc) (xs : list Q) (i : nat) (p : Q) :
  read_vec (<[l := OList (<[i := VNum p]> (map VNum xs))]> h) (VRef l)
  = Some (<[i := p]> xs).
Proof.
  unfold read_vec. rewrite lookup_insert_eq.
  change (map VNum xs) with (VNum <$> xs).
  rewrite <- list_fmap_insert. apply read_num_map.
Qed.

Lemma fresh_not_held (h : heap) (v : val) (l : loc) (o : obj) :
  fresh_in h v -> h !! l = Some o -> v <> VRef l.
Proof.
  intros (l' & -> & Hl') Hl [= ->]. rewrite Hl in Hl'. discriminate.
Qed.

Lemma read_rows_other (h : heap) (l : loc) (o : obj) (rows : list val) :
  Forall (fun v => v <> VRef l) rows ->
  mapM (read_vec (<[l := o]> h)) rows = mapM (read_vec h) rows.
Proof.
  induction 1 as [|v rows Hv _ IH]; [reflexivity|].
  cbn. rewrite (read_vec_other _ _ _ _ Hv), IH. reflexivity.
Qed.

Lemma np_transpose_array (m : val) (h : heap) (v : val) (h' : heap) :
  np_transpose m h = Py.Ok (v, h') ->
  exists l At, v = VRef l /\ h' !! l = Some (OArray At).
Proof.
  unfold np_transpose, bind.
  destruct (nested m h) as [[A h0]|e]; [|discriminate].
  unfold lift at 1. destruct (Np.transpose A) as [At|e]; [|discriminate].
  unfold alloc. intros [= <- <-]. eexists _, At. split; [reflexivity|].
  apply lookup_insert_eq.
Qed.

(** X26.  A write by the caller after construction, as the basic sweep
    does with [costs[0] = price]: the primal instance (basic or
    generalized) keeps the caller's cost list itself, and the dual
    instance keeps it as its requirements, so the write shows through the
    instance; the negated and the transposed attributes are the call's own
    objects and read as before. *)
Theorem caller_write_seen (h : heap) (c A b : val) (cs : list Q) (p : Q) :
  read_vec h c = Some cs ->
  (forall inst h1 h2,
     primal_init c A b h = Py.Ok (inst, h1) ->
     StoreWrite.setitem c 0 (VNum p) h1 = Py.Ok (tt, h2) ->
     read_vec h2 (costs inst) = Some (<[0%nat := p]> cs) /\
     read_vec h2 (requirements inst) = read_vec h1 (requirements inst) /\
     read_nested h2 (constraints inst) = read_nested h1 (constraints inst)) /\
  (forall inst h1 h2,
     dual_init c A b h = Py.Ok (inst, h1) ->
     StoreWrite.setitem c 0 (VNum p) h1 = Py.Ok (tt, h2) ->
     read_vec h2 (requirements inst) = Some (<[0%nat := p]> cs) /\
     read_vec h2 (costs inst) = read_vec h1 (costs inst) /\
     read_mat h2 (constraints inst) = read_mat h1 (constraints inst)).
Proof.
  intros Hc. apply read_vec_inv in Hc as (lc & -> & Hlc).
  split.
  - intros inst h1 h2 Hinit Hset.
    unfold primal_init, bind in Hinit.
    destruct (neg_matrix A h) as [[cons' h0]|e] eqn:E1; [|discriminate].
    destruct (neg_list b h0) as [[reqs' h1']|e] eqn:E2; [|discriminate].
    injection Hinit as <- <-. cbn [costs constraints requirements].
    pose proof (neg_matrix_extends _ _ _ _ E1) as S1.
    pose proof (neg_list_extends _ _ _ _ E2) as S2.
    assert (S : h ⊆ h1') by (transitivity h0; assumption).
    apply setitem_inv in Hset as (l & vs & [= <-] & Hl & _ & ->).
    rewrite (lookup_weaken _ _ _ _ Hlc S) in Hl. injection Hl as <-.
    split; [apply read_vec_written|].
    split.
    + apply read_vec_other.
      apply (fresh_not_held h _ _ _
               (fresh_in_weaken _ _ _ S1 (neg_list_allocates _ _ _ _ E2)) Hlc).
    + destruct (neg_matrix_rows _ _ _ _ E1) as (l & rows & -> & Hl & Hrows).
      pose proof (neg_matrix_allocates _ _ _ _ E1) as Hfresh.
      pose proof (fresh_not_held h _ _ _ Hfresh Hlc) as Hne.
      unfold read_nested. rewrite lookup_insert_ne by congruence.
      rewrite (lookup_weaken _ _ _ _ Hl S2).
      apply read_rows_other.
      eapply Forall_impl; [exact Hrows|]. cbn. intros v Hv.
      exact (fresh_not_held h _ _ _ Hv Hlc).
  - intros inst h1 h2 Hinit Hset.
    unfold dual_init, bind in Hinit.
    destruct (neg_list b h) as [[costs' h0]|e] eqn:E1; [|discriminate].
    destruct (np_transpose A h0) as [[cons' h1']|e] eqn:E2; [|discriminate].
    injection Hinit as <- <-. cbn [costs constraints requirements].
    pose proof (neg_list_extends _ _ _ _ E1) as S1.
    pose proof (np_transpose_extends _ _ _ _ E2) as S2.
    assert (S : h ⊆ h1') by (transitivity h0; assumption).
    apply setitem_inv in Hset as (l & vs & [= <-] & Hl & _ & ->).
    rewrite (lookup_weaken _ _ _ _ Hlc S) in Hl. injection Hl as <-.
    split; [apply read_vec_written|].
    split.
    + apply read_vec_other.
      apply (fresh_not_held h _ _ _ (neg_list_allocates _ _ _ _ E1) Hlc).
    + destruct (np_transpose_array _ _ _ _ E2) as (l & At & -> & Hl).
      pose proof (fresh_in_weaken _ _ _ S1 (np_transpose_allocates _ _ _ _ E2))
        as Hfresh.
      pose proof (fresh_not_held h _ _ _ Hfresh Hlc) as Hne.
      unfold read_mat. rewrite lookup_insert_ne by congruence.
      rewrite Hl. reflexivity.
Qed.

End StoreWrites.

(** On the example store: the first cost is overwritten after the primal
    instance has been built. *)
Lemma caller_write_seen_witness :
  exists inst h1 h2,
    Store.primal_init (Store.VRef 1%positive) (Store.VRef 2%positive)
      (Store.VRef 5%positive) Store.example = Py.Ok (inst, h1) /\
    StoreWrite.setitem (Store.VRef 1%positive) 0 (Store.VNum 1) h1
    = Py.Ok (tt, h2) /\
    Store.read_vec h2 (Store.costs inst) = Some [1; 12]%Q.
Proof.
  destruct (Store.primal_init (Store.VRef 1%positive) (Store.VRef 2%positive)
              (Store.VRef 5%positive) Store.example) as [[inst h1]|e] eqn:E;
    [|exfalso; vm_compute in E; discriminate E].
  assert (Hl : h1 !! 1%positive = Some (Store.OList [Store.VNum 10; Store.VNum 12])).
  { eapply lookup_weaken; [|exact (primal_init_extends _ _ _ _ _ _ E)].
    reflexivity. }
  pose proof (setitem_runs h1 1%positive _ 0 (Store.VNum 1) Hl
                (Nat.lt_0_succ 1)) as E2.
  exists inst, h1, (<[1%positive :=
                      Store.OList (<[0%nat := Store.VNum 1]>
                                     [Store.VNum 10; Store.VNum 12])]> h1).
  split; [reflexivity|]. split; [exact E2|].
  pose proof (caller_write_seen Store.example (Store.VRef 1%positive)
                (Store.VRef 2%positive) (Store.VRef 5%positive)
                [10; 12]%Q 1 eq_refl) as [Hprimal _].
  exact (proj1 (Hprimal inst h1 _ E E2)).
Defined.
